(** * Hindsight experience replay buffer: a shallow embedding

    The development follows [stable_baselines3/her/replay_buffer.py].
    The class [HindsightExperienceReplayBuffer] fixes its storage layout
    once, in [__init__], from the flag [add_her_while_sampling], and every
    method starts by branching on that flag.  The two branches are embedded
    as two modules with the methods' own names:

    - [Eager]: [add_her_while_sampling = False]; one slot per transition,
      relabelled transitions are created when an episode is stored.
    - [Lazy]:  [add_her_while_sampling = True]; one slot per episode,
      relabelling happens when a batch is sampled.

    Python exceptions are values of [exception]; a method is a state
    transformer that returns an outcome together with the state reached,
    so that what an in-place mutation did before an exception stays
    visible.  The global [np.random] generator is a tape of raw words with
    a cursor.  Floating point numbers are idealised as rationals. *)

From Stdlib Require Import ZArith QArith Qround Lia Psatz.
From stdpp Require Import base tactics numbers option list.

Open Scope nat_scope.

(** ** Exceptions and the state-and-exception monad *)

Inductive exception :=
| NotImplementedError
| ValueError
| IndexError
| ZeroDivisionError
| TypeError
| EpisodeShapeError.  (* Exception("obs needs to be an episode of observations") *)

Inductive outcome (A : Type) :=
| Ok (a : A)
| Raise (e : exception).
Arguments Ok {A} a.
Arguments Raise {A} e.

Definition M (W A : Type) : Type := W → outcome A * W.

Definition ret {W A} (a : A) : M W A := λ w, (Ok a, w).
Definition bind {W A B} (m : M W A) (k : A → M W B) : M W B :=
  λ w, match m w with
       | (Ok a, w') => k a w'
       | (Raise e, w') => (Raise e, w')
       end.
Definition raise {W A} (e : exception) : M W A := λ w, (Raise e, w).
Definition get {W} : M W W := λ w, (Ok w, w).
Definition put {W} (w : W) : M W unit := λ _, (Ok tt, w).
Definition modify {W} (f : W → W) : M W unit := λ w, (Ok tt, f w).
Definition lift {W A} (o : outcome A) : M W A := λ w, (o, w).

#[global] Instance M_ret {W} : MRet (M W) := λ A, @ret W A.
#[global] Instance M_bind {W} : MBind (M W) := λ A B k m, bind m k.

(** A [for] loop whose body may [break]. *)
Inductive loop_ctl := Continue | Break.

Fixpoint for_each {W A} (xs : list A) (body : A → M W loop_ctl) : M W unit :=
  match xs with
  | [] => ret tt
  | x :: xs' =>
      c ← body x;
      match c with
      | Break => ret tt
      | Continue => for_each xs' body
      end
  end.

(** [enumerate(l)], and the same counting from [k]. *)
Fixpoint enumerate_from {A} (k : nat) (l : list A) : list (nat * A) :=
  match l with
  | [] => []
  | x :: l' => (k, x) :: enumerate_from (S k) l'
  end.
Definition enumerate {A} (l : list A) : list (nat * A) := enumerate_from 0 l.

(** ** Arrays *)

(** [a[i]] for an integer [i]: Python counts a negative index from the
    end and raises [IndexError] outside [-len(a) .. len(a)-1]. *)
Definition getitem {A} (a : list A) (i : Z) : outcome A :=
  let n := Z.of_nat (length a) in
  let j := if (i <? 0)%Z then (n + i)%Z else i in
  if ((0 <=? j)%Z && (j <? n)%Z)%bool then
    match a !! Z.to_nat j with
    | Some x => Ok x
    | None => Raise IndexError
    end
  else Raise IndexError.

(** [a[i] = x] for a natural index. *)
Definition setitem {A} (a : list A) (i : nat) (x : A) : outcome (list A) :=
  if i <? length a then Ok (<[i := x]> a) else Raise IndexError.

(** [a[inds]]: fancy indexing with an index array. *)
Fixpoint getitems {A} (a : list A) (inds : list Z) : outcome (list A) :=
  match inds with
  | [] => Ok []
  | i :: inds' =>
      match getitem a i, getitems a inds' with
      | Ok x, Ok xs => Ok (x :: xs)
      | Raise e, _ => Raise e
      | _, Raise e => Raise e
      end
  end.

(** [a[:n] = v]: the slice has [min n (len a)] entries; the value must
    have as many along its first axis, or exactly one, which numpy
    broadcasts; otherwise the assignment raises [ValueError] and writes
    nothing. *)
Definition setslice {A} (a : list A) (n : nat) (v : list A) : outcome (list A) :=
  let k := n `min` length a in
  if decide (length v = k) then Ok (v ++ drop k a)
  else match v with
       | [x] => Ok (replicate k x ++ drop k a)
       | _ => Raise ValueError
       end.

(** Python's [a // b] on naturals. *)
Definition floordiv (a b : nat) : outcome nat :=
  if decide (b = 0) then Raise ZeroDivisionError else Ok (a / b).

(** An array argument whose number of axes the buffer inspects: a
    zero-dimensional array, a one-dimensional array of scalars, or an
    array with at least two axes, given by its entries along the first
    axis. *)
Inductive ndarray (A : Type) :=
| nd0 (x : Q)
| nd1 (xs : list Q)
| nd2 (rows : list A).
Arguments nd0 {A} x.
Arguments nd1 {A} xs.
Arguments nd2 {A} rows.

(** [len(a.shape) >= 2], and the entries of such an array. *)
Definition ndim_ge_2 {A} (a : ndarray A) : bool :=
  match a with nd2 _ => true | _ => false end.
Definition entries {A} (a : ndarray A) : list A :=
  match a with nd2 rows => rows | _ => [] end.

(** [np.arange(start, stop)]. *)
Definition arange (start stop : nat) : list nat := seq start (stop - start).

(** ** The random generator

    [np.random] is global state: a tape of raw words and a cursor.
    [random_sample] is the generator's double in [0, 1) with 53 random
    bits; [uniform low high] is numpy's [low + (high - low) *
    random_sample()], which is also what numpy computes when [high < low];
    [randint low high] raises [ValueError] on an empty range. *)
Record Rng := { tape : nat → N; cursor : nat }.

Definition next_raw (g : Rng) : N * Rng :=
  (tape g (cursor g), {| tape := tape g; cursor := S (cursor g) |}).

Definition two53 : positive := 9007199254740992.

Definition unit_of_raw (r : N) : Q := Z.of_N (r mod Npos two53) # two53.

Definition uniform_of (low high u : Q) : Q := (low + (high - low) * u)%Q.

Definition randint_of (low high : Z) (r : N) : outcome Z :=
  if (low <? high)%Z then Ok (low + Z.of_N r mod (high - low))%Z
  else Raise ValueError.

Definition choice_of {A} (a : list A) (r : N) : outcome A :=
  match a with
  | [] => Raise ValueError
  | _ => match a !! (N.to_nat r mod length a) with
         | Some x => Ok x
         | None => Raise ValueError
         end
  end.

(** [x.astype(int)]: truncation towards zero. *)
Definition astype_int (x : Q) : Z :=
  if Qle_bool 0 x then Qfloor x else Qceiling x.

Definition Qltb (x y : Q) : bool := negb (Qle_bool y x).

(** The half-open unit interval, where [random_sample] draws. *)
Definition unit_interval (u : Q) : Prop := (0 <= u)%Q ∧ (u < 1)%Q.

(** ** The goal environment and the buffer's vocabulary *)

Inductive GoalSelectionStrategy := FUTURE | FINAL | EPISODE | RANDOM.

#[global] Instance GoalSelectionStrategy_eq_dec : EqDecision GoalSelectionStrategy.
Proof. solve_decision. Defined.

(** [KEY_TO_GOAL_STRATEGY], keyed by the four strings of the source. *)
Inductive strategy_key := key_future | key_final | key_episode | key_random.

Definition KEY_TO_GOAL_STRATEGY (k : strategy_key) : GoalSelectionStrategy :=
  match k with
  | key_future => FUTURE
  | key_final => FINAL
  | key_episode => EPISODE
  | key_random => RANDOM
  end.

(** The dictionary form of an observation. *)
Record ObsDict (Feat Goal : Type) := {
  observation : Feat;
  achieved_goal : Goal;
  desired_goal : Goal }.
Arguments observation {Feat Goal} _.
Arguments achieved_goal {Feat Goal} _.
Arguments desired_goal {Feat Goal} _.

(** [d['desired_goal'] = g]. *)
Definition set_desired_goal {Feat Goal} (g : Goal) (d : ObsDict Feat Goal) :
    ObsDict Feat Goal :=
  {| observation := observation d;
     achieved_goal := achieved_goal d;
     desired_goal := g |}.

(** The wrapped environment [self.env] and the element types of the
    arrays.  [n_envs = 1] is asserted by [__init__]: an observation array
    of shape [(1,) + obs_shape] is represented by its only row, [obs[0]];
    assigning the array or its row to a storage slot broadcasts to the same
    slot content.  [compute_reward] is called with [info = None]; on arrays
    it acts entry by entry.  The [zero_] values are the entries of
    [np.zeros]. *)
Class GoalEnv := {
  Obs : Type;
  Feat : Type;
  Goal : Type;
  Action : Type;
  Reward : Type;
  convert_obs_to_dict : Obs → ObsDict Feat Goal;
  convert_dict_to_obs : ObsDict Feat Goal → Obs;
  compute_reward : Goal → Goal → Reward;
  zero_obs : Obs;
  zero_action : Action;
  zero_reward : Reward }.

(** The optional [VecNormalize] argument of [sample]. *)
Record VecNormalize `{GoalEnv} := {
  normalize_obs : Obs → Obs;
  normalize_reward : Reward → Reward }.

(** Modelled from the spec: [_normalize_obs] and [_normalize_reward] belong
    to the base class, which is not part of the sources; the spec has them
    apply the normaliser's [normalize_observation] and [normalize_reward]
    and be the identity when no normaliser is given.  They act on arrays,
    entry by entry. *)
Definition normalized_obs `{GoalEnv} (env : option VecNormalize) (o : Obs) : Obs :=
  match env with Some v => normalize_obs v o | None => o end.
Definition normalized_reward `{GoalEnv} (env : option VecNormalize) (r : Reward) :
    Reward :=
  match env with Some v => normalize_reward v r | None => r end.
Definition _normalize_obs `{GoalEnv} (o : list Obs) (env : option VecNormalize) :
    list Obs :=
  normalized_obs env <$> o.
Definition _normalize_reward `{GoalEnv} (r : list Reward) (env : option VecNormalize) :
    list Reward :=
  normalized_reward env <$> r.

(** [ReplayBufferSamples]: five arrays with one entry per batch row.
    [to_torch] changes the container, not the values. *)
Record ReplayBufferSamples `{GoalEnv} := {
  s_observations : list Obs;
  s_actions : list Action;
  s_next_observations : list Obs;
  s_dones : list bool;
  s_rewards : list Reward }.

(** The state a method runs in: the generator and the buffer object. *)
Record World (B : Type) := { np_random : Rng; self : B }.
Arguments np_random {B} _.
Arguments self {B} _.

Section Random.
Context {B : Type}.

Definition raw : M (World B) N :=
  λ w, let '(r, g) := next_raw (np_random w) in
       (Ok r, {| np_random := g; self := self w |}).

Definition random_sample : M (World B) Q := r ← raw; ret (unit_of_raw r).

Definition randint (low high : Z) : M (World B) Z :=
  if (low <? high)%Z then r ← raw; lift (randint_of low high r)
  else raise ValueError.

Definition choice {A} (a : list A) : M (World B) A :=
  match a with
  | [] => raise ValueError
  | _ => r ← raw; lift (choice_of a r)
  end.

(** [np.random.uniform(size=n)], and [np.random.randint(low, high, size=n)]:
    with [size = 0] numpy returns an empty array before it looks at the
    range, and otherwise an empty range raises at the first draw. *)
Fixpoint random_samples (n : nat) : M (World B) (list Q) :=
  match n with
  | 0 => ret []
  | S n' => u ← random_sample; us ← random_samples n'; ret (u :: us)
  end.

Fixpoint randints (low high : Z) (n : nat) : M (World B) (list Z) :=
  match n with
  | 0 => ret []
  | S n' => i ← randint low high; js ← randints low high n'; ret (i :: js)
  end.

Definition get_self : M (World B) B := λ w, (Ok (self w), w).
Definition set_self (b : B) : M (World B) unit :=
  λ w, (Ok tt, {| np_random := np_random w; self := b |}).
End Random.

(** A transition as [add] receives it: the tuple
    [(obs, next_obs, action, reward, done)]. *)
Record Transition `{GoalEnv} := {
  t_obs : Obs;
  t_next_obs : Obs;
  t_action : Action;
  t_reward : Reward;
  t_done : bool }.

(** * Eager mode: [add_her_while_sampling = False] *)
Module Eager.
Section WithEnv.
Context `{E : GoalEnv}.

(** The buffer object.  The arrays [observations], [next_observations],
    [actions], [rewards] and [dones] have [buffer_size] slots. *)
Record Buffer := {
  buffer_size : nat;
  max_episode_len : nat;
  goal_selection_strategy : GoalSelectionStrategy;
  n_sampled_goal : nat;
  observations : list Obs;
  next_observations : list Obs;
  actions : list Action;
  rewards : list Reward;
  dones : list bool;
  pos : nat;
  full : bool;
  episode_transitions : list Transition }.

Definition set_observations (v : list Obs) (b : Buffer) : Buffer :=
  {| buffer_size := buffer_size b; max_episode_len := max_episode_len b;
     goal_selection_strategy := goal_selection_strategy b;
     n_sampled_goal := n_sampled_goal b;
     observations := v; next_observations := next_observations b;
     actions := actions b; rewards := rewards b; dones := dones b;
     pos := pos b; full := full b;
     episode_transitions := episode_transitions b |}.
Definition set_next_observations (v : list Obs) (b : Buffer) : Buffer :=
  {| buffer_size := buffer_size b; max_episode_len := max_episode_len b;
     goal_selection_strategy := goal_selection_strategy b;
     n_sampled_goal := n_sampled_goal b;
     observations := observations b; next_observations := v;
     actions := actions b; rewards := rewards b; dones := dones b;
     pos := pos b; full := full b;
     episode_transitions := episode_transitions b |}.
Definition set_actions (v : list Action) (b : Buffer) : Buffer :=
  {| buffer_size := buffer_size b; max_episode_len := max_episode_len b;
     goal_selection_strategy := goal_selection_strategy b;
     n_sampled_goal := n_sampled_goal b;
     observations := observations b; next_observations := next_observations b;
     actions := v; rewards := rewards b; dones := dones b;
     pos := pos b; full := full b;
     episode_transitions := episode_transitions b |}.
Definition set_rewards (v : list Reward) (b : Buffer) : Buffer :=
  {| buffer_size := buffer_size b; max_episode_len := max_episode_len b;
     goal_selection_strategy := goal_selection_strategy b;
     n_sampled_goal := n_sampled_goal b;
     observations := observations b; next_observations := next_observations b;
     actions := actions b; rewards := v; dones := dones b;
     pos := pos b; full := full b;
     episode_transitions := episode_transitions b |}.
Definition set_dones (v : list bool) (b : Buffer) : Buffer :=
  {| buffer_size := buffer_size b; max_episode_len := max_episode_len b;
     goal_selection_strategy := goal_selection_strategy b;
     n_sampled_goal := n_sampled_goal b;
     observations := observations b; next_observations := next_observations b;
     actions := actions b; rewards := rewards b; dones := v;
     pos := pos b; full := full b;
     episode_transitions := episode_transitions b |}.
Definition set_pos (v : nat) (b : Buffer) : Buffer :=
  {| buffer_size := buffer_size b; max_episode_len := max_episode_len b;
     goal_selection_strategy := goal_selection_strategy b;
     n_sampled_goal := n_sampled_goal b;
     observations := observations b; next_observations := next_observations b;
     actions := actions b; rewards := rewards b; dones := dones b;
     pos := v; full := full b;
     episode_transitions := episode_transitions b |}.
Definition set_full (v : bool) (b : Buffer) : Buffer :=
  {| buffer_size := buffer_size b; max_episode_len := max_episode_len b;
     goal_selection_strategy := goal_selection_strategy b;
     n_sampled_goal := n_sampled_goal b;
     observations := observations b; next_observations := next_observations b;
     actions := actions b; rewards := rewards b; dones := dones b;
     pos := pos b; full := v;
     episode_transitions := episode_transitions b |}.
Definition set_episode_transitions (v : list Transition) (b : Buffer) : Buffer :=
  {| buffer_size := buffer_size b; max_episode_len := max_episode_len b;
     goal_selection_strategy := goal_selection_strategy b;
     n_sampled_goal := n_sampled_goal b;
     observations := observations b; next_observations := next_observations b;
     actions := actions b; rewards := rewards b; dones := dones b;
     pos := pos b; full := full b;
     episode_transitions := v |}.

#[local] Abbreviation St := (World Buffer).

(** [self.<array>[self.pos] = x]: one statement of [_add_transition]. *)
Definition assign_at_pos {A} (array : Buffer → list A)
    (update : list A → Buffer → Buffer) (x : A) : M St unit :=
  b ← get_self;
  a ← lift (setitem (array b) (pos b) x);
  set_self (update a b).

(** Modelled from the spec: the base class, which is not part of the
    sources, initialises [full]; the spec's fullness flag becomes true
    once [pos] wraps, so it starts false.  The rest is [__init__], with
    [n_envs = 1]. *)
Definition __init__ (buffer_size max_episode_len : nat)
    (goal_selection_strategy : strategy_key) (n_sampled_goal : nat) : Buffer :=
  {| buffer_size := buffer_size;
     max_episode_len := max_episode_len;
     goal_selection_strategy := KEY_TO_GOAL_STRATEGY goal_selection_strategy;
     n_sampled_goal := n_sampled_goal;
     observations := replicate buffer_size zero_obs;
     next_observations := replicate buffer_size zero_obs;
     actions := replicate buffer_size zero_action;
     rewards := replicate buffer_size zero_reward;
     dones := replicate buffer_size false;
     pos := 0;
     full := false;
     episode_transitions := [] |}.

Definition _add_transition (obs next_obs : Obs) (action : Action)
    (reward : Reward) (done : bool) : M St unit :=
  assign_at_pos observations set_observations obs;;
  assign_at_pos next_observations set_next_observations next_obs;;
  assign_at_pos actions set_actions action;;
  assign_at_pos rewards set_rewards reward;;
  assign_at_pos dones set_dones done;;
  b ← get_self; set_self (set_pos (pos b + 1) b);;
  b ← get_self;
  if decide (pos b = buffer_size b) then
    set_self (set_full true b);;
    b ← get_self; set_self (set_pos 0 b)
  else ret tt.

Definition _sample_achieved_goal (episode_transitions : list Transition)
    (transition_idx : nat) : M St Goal :=
  b ← get_self;
  selected_transition ←
    match goal_selection_strategy b with
    | FUTURE =>
        selected_idx ← choice (arange (transition_idx + 1) (length episode_transitions));
        lift (getitem episode_transitions (Z.of_nat selected_idx))
    | FINAL =>
        lift (getitem episode_transitions (-1))
    | EPISODE =>
        selected_idx ← choice (arange 0 (length episode_transitions));
        lift (getitem episode_transitions (Z.of_nat selected_idx))
    | RANDOM =>
        raise NotImplementedError
    end;
  ret (achieved_goal (convert_obs_to_dict (t_obs selected_transition))).

(** The list comprehension over [range(self.n_sampled_goal)]. *)
Fixpoint sample_goals_n (n : nat) (episode_transitions : list Transition)
    (transition_idx : nat) : M St (list Goal) :=
  match n with
  | 0 => ret []
  | S n' =>
      g ← _sample_achieved_goal episode_transitions transition_idx;
      gs ← sample_goals_n n' episode_transitions transition_idx;
      ret (g :: gs)
  end.

Definition _sample_achieved_goals (episode_transitions : list Transition)
    (transition_idx : nat) : M St (list Goal) :=
  b ← get_self;
  sample_goals_n (n_sampled_goal b) episode_transitions transition_idx.

(** [copy.deepcopy] of a tuple of arrays: at the level of values, the
    same values.  The object-level reading is in [Aliasing] below. *)
Definition deepcopy (t : Transition) : Transition := t.

(** The body of [for goal in sampled_goals], up to the call that stores
    the artificial transition. *)
Definition relabelled (transition : Transition) (goal : Goal) : Transition :=
  let '(Build_Transition _ obs next_obs action reward done) := deepcopy transition in
  let obs_dict := convert_obs_to_dict obs in
  let next_obs_dict := convert_obs_to_dict next_obs in
  let obs_dict := set_desired_goal goal obs_dict in
  let next_obs_dict := set_desired_goal goal next_obs_dict in
  let reward := compute_reward (achieved_goal next_obs_dict) goal in
  let done := false in
  let obs := convert_dict_to_obs obs_dict in
  let next_obs := convert_dict_to_obs next_obs_dict in
  Build_Transition _ obs next_obs action reward done.

Definition store_relabelled (transition : Transition) (goal : Goal) : M St unit :=
  let '(Build_Transition _ obs next_obs action reward done) :=
    relabelled transition goal in
  _add_transition obs next_obs action reward done.

Fixpoint for_goals (transition : Transition) (sampled_goals : list Goal) : M St unit :=
  match sampled_goals with
  | [] => ret tt
  | goal :: rest => store_relabelled transition goal;; for_goals transition rest
  end.

(** The body of [for transition_idx, transition in enumerate(...)]. *)
Definition store_step (it : nat * Transition) : M St loop_ctl :=
  let '(transition_idx, transition) := it in
  (let '(Build_Transition _ obs next_obs action reward done) := transition in
   _add_transition obs next_obs action reward done);;
  b ← get_self;
  if (bool_decide (transition_idx = length (episode_transitions b) - 1)
      && bool_decide (goal_selection_strategy b = FUTURE))%bool
  then ret Break
  else
    sampled_goals ← _sample_achieved_goals (episode_transitions b) transition_idx;
    for_goals transition sampled_goals;;
    ret Continue.

Definition _store_episode : M St unit :=
  b ← get_self;
  for_each (enumerate (episode_transitions b)) store_step.

Definition add (obs next_obs : Obs) (action : Action) (reward : Reward)
    (done : bool) : M St unit :=
  b ← get_self;
  set_self (set_episode_transitions
              (episode_transitions b ++
               [Build_Transition _ obs next_obs action reward done]) b);;
  if done then
    _store_episode;;
    b ← get_self;
    set_self (set_episode_transitions [] b)
  else ret tt.

Definition _get_samples (batch_inds : list Z) (env : option VecNormalize) :
    M St ReplayBufferSamples :=
  b ← get_self;
  o ← lift (getitems (observations b) batch_inds);
  a ← lift (getitems (actions b) batch_inds);
  o' ← lift (getitems (next_observations b) batch_inds);
  d ← lift (getitems (dones b) batch_inds);
  r ← lift (getitems (rewards b) batch_inds);
  ret {| s_observations := _normalize_obs o env;
         s_actions := a;
         s_next_observations := _normalize_obs o' env;
         s_dones := d;
         s_rewards := _normalize_reward r env |}.

Definition sample (batch_size : nat) (env : option VecNormalize) :
    M St ReplayBufferSamples :=
  b ← get_self;
  let full_idx := buffer_size b in
  let upper_bound := if full b then full_idx else pos b in
  batch_inds ← randints 0 (Z.of_nat upper_bound) batch_size;
  _get_samples batch_inds env.

(** *** What the proofs speak about *)

(** The arrays have [buffer_size] slots and [pos] is one of them. *)
Definition wf (b : Buffer) : Prop :=
  length (observations b) = buffer_size b ∧
  length (next_observations b) = buffer_size b ∧
  length (actions b) = buffer_size b ∧
  length (rewards b) = buffer_size b ∧
  length (dones b) = buffer_size b ∧
  pos b < buffer_size b.

(** The buffer after a write that raised nothing. *)
Definition write (t : Transition) (b : Buffer) : Buffer :=
  let wrap := bool_decide (pos b + 1 = buffer_size b) in
  {| buffer_size := buffer_size b; max_episode_len := max_episode_len b;
     goal_selection_strategy := goal_selection_strategy b;
     n_sampled_goal := n_sampled_goal b;
     observations := <[pos b := t_obs t]> (observations b);
     next_observations := <[pos b := t_next_obs t]> (next_observations b);
     actions := <[pos b := t_action t]> (actions b);
     rewards := <[pos b := t_reward t]> (rewards b);
     dones := <[pos b := t_done t]> (dones b);
     pos := if wrap then 0 else pos b + 1;
     full := if wrap then true else full b;
     episode_transitions := episode_transitions b |}.

Definition writes (ts : list Transition) (b : Buffer) : Buffer :=
  foldl (λ b t, write t b) b ts.

(** The transition held by slot [i]. *)
Definition slot (b : Buffer) (i : nat) : option Transition :=
  o ← observations b !! i;
  o' ← next_observations b !! i;
  a ← actions b !! i;
  r ← rewards b !! i;
  d ← dones b !! i;
  Some (Build_Transition _ o o' a r d).

(** The ring invariant after the writes [ts], counted from an empty
    buffer. *)
Definition ring (b : Buffer) (ts : list Transition) : Prop :=
  wf b ∧
  pos b = length ts `mod` buffer_size b ∧
  full b = bool_decide (buffer_size b ≤ length ts) ∧
  ∀ w, w < length ts → length ts ≤ w + buffer_size b →
       slot b (w `mod` buffer_size b) = ts !! w.

(** Where a sampled goal comes from: the achieved goal of the observation
    of transition [j] of the episode, with [j] as the strategy allows. *)
Definition goal_source (strategy : GoalSelectionStrategy)
    (ts : list Transition) (i : nat) (goal : Goal) : Prop :=
  ∃ j tj, ts !! j = Some tj ∧
          goal = achieved_goal (convert_obs_to_dict (t_obs tj)) ∧
          match strategy with
          | FUTURE => i < j
          | FINAL => j = length ts - 1
          | EPISODE => True
          | RANDOM => False
          end.

(** The artificial transitions made from transition [i] of the episode
    [ts]: none after the last step under [FUTURE], and otherwise
    [n] of them, each relabelled with a goal the strategy allows. *)
Definition artificial_of (strategy : GoalSelectionStrategy) (n : nat)
    (ts : list Transition) (i : nat) (t : Transition)
    (rel : list Transition) : Prop :=
  if (bool_decide (i = length ts - 1) && bool_decide (strategy = FUTURE))%bool
  then rel = []
  else length rel = n ∧
       Forall (λ r, ∃ goal, goal_source strategy ts i goal ∧
                            r = relabelled t goal) rel.

(** The computation [m] leaves [self.episode_transitions] as it is. *)
Definition keeps_accumulator {A} (m : M St A) : Prop :=
  ∀ w, episode_transitions (self (m w).2) = episode_transitions (self w).

(** Every goal the configuration asks for can be drawn: [RANDOM], which
    is not implemented, is only harmless when no goal is asked for. *)
Definition draws_goals (b : Buffer) : Prop :=
  goal_selection_strategy b = RANDOM → n_sampled_goal b = 0.

(** The writes of one episode: each raw transition followed by its
    artificial transitions. *)
Definition interleave (raw : list Transition) (artificial : list (list Transition)) :
    list Transition :=
  concat (zip_with cons raw artificial).

(** Storing [t] through [_add_transition], and storing a list of
    transitions one after the other. *)
Definition store (t : Transition) : M St unit :=
  _add_transition (t_obs t) (t_next_obs t) (t_action t) (t_reward t) (t_done t).
Definition fill (ts : list Transition) : M St unit :=
  for_each ts (λ t, store t;; ret Continue).

End WithEnv.
End Eager.

(** * Lazy mode: [add_her_while_sampling = True] *)
Module Lazy.
Section WithEnv.
Context `{E : GoalEnv}.

(** The buffer object.  With [C = buffer_size // max_episode_len],
    [observations] has [C] slots of [max_episode_len + 1] rows, [actions],
    [rewards] and [dones] have [C] slots of [max_episode_len] rows, and
    [n_episode_steps] has [C] entries. *)
Record Buffer := {
  buffer_size : nat;
  max_episode_len : nat;
  goal_selection_strategy : GoalSelectionStrategy;
  n_sampled_goal : nat;
  observations : list (list Obs);
  actions : list (list Action);
  rewards : list (list Reward);
  dones : list (list bool);
  n_episode_steps : list nat;
  pos : nat;
  full : bool;
  episode_transitions : list Transition }.

Definition set_observations (v : list (list Obs)) (b : Buffer) : Buffer :=
  {| buffer_size := buffer_size b; max_episode_len := max_episode_len b;
     goal_selection_strategy := goal_selection_strategy b;
     n_sampled_goal := n_sampled_goal b;
     observations := v; actions := actions b; rewards := rewards b;
     dones := dones b; n_episode_steps := n_episode_steps b;
     pos := pos b; full := full b;
     episode_transitions := episode_transitions b |}.
Definition set_actions (v : list (list Action)) (b : Buffer) : Buffer :=
  {| buffer_size := buffer_size b; max_episode_len := max_episode_len b;
     goal_selection_strategy := goal_selection_strategy b;
     n_sampled_goal := n_sampled_goal b;
     observations := observations b; actions := v; rewards := rewards b;
     dones := dones b; n_episode_steps := n_episode_steps b;
     pos := pos b; full := full b;
     episode_transitions := episode_transitions b |}.
Definition set_rewards (v : list (list Reward)) (b : Buffer) : Buffer :=
  {| buffer_size := buffer_size b; max_episode_len := max_episode_len b;
     goal_selection_strategy := goal_selection_strategy b;
     n_sampled_goal := n_sampled_goal b;
     observations := observations b; actions := actions b; rewards := v;
     dones := dones b; n_episode_steps := n_episode_steps b;
     pos := pos b; full := full b;
     episode_transitions := episode_transitions b |}.
Definition set_dones (v : list (list bool)) (b : Buffer) : Buffer :=
  {| buffer_size := buffer_size b; max_episode_len := max_episode_len b;
     goal_selection_strategy := goal_selection_strategy b;
     n_sampled_goal := n_sampled_goal b;
     observations := observations b; actions := actions b; rewards := rewards b;
     dones := v; n_episode_steps := n_episode_steps b;
     pos := pos b; full := full b;
     episode_transitions := episode_transitions b |}.
Definition set_n_episode_steps (v : list nat) (b : Buffer) : Buffer :=
  {| buffer_size := buffer_size b; max_episode_len := max_episode_len b;
     goal_selection_strategy := goal_selection_strategy b;
     n_sampled_goal := n_sampled_goal b;
     observations := observations b; actions := actions b; rewards := rewards b;
     dones := dones b; n_episode_steps := v;
     pos := pos b; full := full b;
     episode_transitions := episode_transitions b |}.
Definition set_pos (v : nat) (b : Buffer) : Buffer :=
  {| buffer_size := buffer_size b; max_episode_len := max_episode_len b;
     goal_selection_strategy := goal_selection_strategy b;
     n_sampled_goal := n_sampled_goal b;
     observations := observations b; actions := actions b; rewards := rewards b;
     dones := dones b; n_episode_steps := n_episode_steps b;
     pos := v; full := full b;
     episode_transitions := episode_transitions b |}.
Definition set_full (v : bool) (b : Buffer) : Buffer :=
  {| buffer_size := buffer_size b; max_episode_len := max_episode_len b;
     goal_selection_strategy := goal_selection_strategy b;
     n_sampled_goal := n_sampled_goal b;
     observations := observations b; actions := actions b; rewards := rewards b;
     dones := dones b; n_episode_steps := n_episode_steps b;
     pos := pos b; full := v;
     episode_transitions := episode_transitions b |}.
Definition set_episode_transitions (v : list Transition) (b : Buffer) : Buffer :=
  {| buffer_size := buffer_size b; max_episode_len := max_episode_len b;
     goal_selection_strategy := goal_selection_strategy b;
     n_sampled_goal := n_sampled_goal b;
     observations := observations b; actions := actions b; rewards := rewards b;
     dones := dones b; n_episode_steps := n_episode_steps b;
     pos := pos b; full := full b;
     episode_transitions := v |}.

#[local] Abbreviation St := (World Buffer).

(** [self.<array>[self.pos, :n] = v]: one statement of [_add_transition]. *)
Definition assign_slice_at_pos {A} (array : Buffer → list (list A))
    (update : list (list A) → Buffer → Buffer) (n : nat) (v : list A) : M St unit :=
  b ← get_self;
  slot ← lift (getitem (array b) (Z.of_nat (pos b)));
  slot' ← lift (setslice slot n v);
  a ← lift (setitem (array b) (pos b) slot');
  set_self (update a b).

(** Modelled from the spec: the base class, which is not part of the
    sources, initialises [full]; the spec's fullness flag becomes true
    once [pos] wraps, so it starts false.  The rest is [__init__], with
    [n_envs = 1]. *)
Definition __init__ (buffer_size max_episode_len : nat)
    (goal_selection_strategy : strategy_key) (n_sampled_goal : nat) :
    outcome Buffer :=
  match floordiv buffer_size max_episode_len with
  | Raise e => Raise e
  | Ok c =>
      Ok {| buffer_size := buffer_size;
            max_episode_len := max_episode_len;
            goal_selection_strategy := KEY_TO_GOAL_STRATEGY goal_selection_strategy;
            n_sampled_goal := n_sampled_goal;
            observations := replicate c (replicate (max_episode_len + 1) zero_obs);
            actions := replicate c (replicate max_episode_len zero_action);
            rewards := replicate c (replicate max_episode_len zero_reward);
            dones := replicate c (replicate max_episode_len false);
            n_episode_steps := replicate c 0;
            pos := 0;
            full := false;
            episode_transitions := [] |}
  end.

(** [np.append(obs, next_obs[np.newaxis, -1], axis=0)] for an [obs] with
    at least two axes: indexing a zero-dimensional or an empty [next_obs]
    raises [IndexError], and a one-dimensional row cannot be appended to
    [obs]. *)
Definition append_last (obs : list Obs) (next_obs : ndarray Obs) :
    outcome (list Obs) :=
  match next_obs with
  | nd0 _ => Raise IndexError
  | nd1 xs => match xs with [] => Raise IndexError | _ => Raise ValueError end
  | nd2 rows => match getitem rows (-1) with
                | Ok r => Ok (obs ++ [r])
                | Raise e => Raise e
                end
  end.

Definition _add_transition (obs next_obs : ndarray Obs) (action : list Action)
    (reward : list Reward) (done : list bool) : M St unit :=
  len_episode ←
    (if ndim_ge_2 obs then ret (length (entries obs))
     else raise EpisodeShapeError);
  appended ← lift (append_last (entries obs) next_obs);
  assign_slice_at_pos observations set_observations (len_episode + 1) appended;;
  assign_slice_at_pos actions set_actions len_episode action;;
  assign_slice_at_pos rewards set_rewards len_episode reward;;
  assign_slice_at_pos dones set_dones len_episode done;;
  b ← get_self;
  a ← lift (setitem (n_episode_steps b) (pos b) len_episode);
  set_self (set_n_episode_steps a b);;
  b ← get_self; set_self (set_pos (pos b + 1) b);;
  b ← get_self;
  c ← lift (floordiv (buffer_size b) (max_episode_len b));
  if decide (pos b = c) then
    set_self (set_full true b);;
    b ← get_self; set_self (set_pos 0 b)
  else ret tt.

Definition _store_episode : M St unit :=
  b ← get_self;
  match episode_transitions b with
  | [] => raise ValueError
  | ts =>
      let obs := nd2 (t_obs <$> ts) in
      let next_obs := nd2 (t_next_obs <$> ts) in
      let action := t_action <$> ts in
      let reward := t_reward <$> ts in
      let done := t_done <$> ts in
      _add_transition obs next_obs action reward done
  end.

Definition add (obs next_obs : Obs) (action : Action) (reward : Reward)
    (done : bool) : M St unit :=
  b ← get_self;
  set_self (set_episode_transitions
              (episode_transitions b ++
               [Build_Transition _ obs next_obs action reward done]) b);;
  if done then
    _store_episode;;
    b ← get_self;
    set_self (set_episode_transitions [] b)
  else ret tt.

(** [a[np.arange(len(a)), inds]]: entry [inds[i]] of row [i]. *)
Fixpoint pick {A} (a : list (list A)) (inds : list Z) : outcome (list A) :=
  match a, inds with
  | row :: a', i :: inds' =>
      match getitem row i, pick a' inds' with
      | Ok x, Ok xs => Ok (x :: xs)
      | Raise e, _ => Raise e
      | _, Raise e => Raise e
      end
  | [], [] => Ok []
  | _, _ => Raise IndexError
  end.

(** The goal substitution on one batch row.  The source selects the rows
    with [her_inds = np.where(mask)] and indexes with it; here the mask
    itself says whether the row is selected.  A selected row reads
    [achieved_goal] at [future_t] and writes it to [desired_goal] at
    every time step of the row. *)
Definition substitute_row (selected : bool) (future_t : Z)
    (row : list (ObsDict Feat Goal)) : outcome (list (ObsDict Feat Goal)) :=
  if selected then
    match getitem row future_t with
    | Ok d => Ok (set_desired_goal (achieved_goal d) <$> row)
    | Raise e => Raise e
    end
  else Ok row.

Fixpoint substitute (her : list bool) (future_t : list Z)
    (rows : list (list (ObsDict Feat Goal))) :
    outcome (list (list (ObsDict Feat Goal))) :=
  match her, future_t, rows with
  | h :: her', f :: future_t', row :: rows' =>
      match substitute_row h f row, substitute her' future_t' rows' with
      | Ok r, Ok rs => Ok (r :: rs)
      | Raise e, _ => Raise e
      | _, Raise e => Raise e
      end
  | _, _, _ => Ok []
  end.

Definition Qnat (n : nat) : Q := inject_Z (Z.of_nat n).

(** The random part of [_get_samples]: the time step of every batch row,
    whether the row is selected for relabelling ([her_inds], as a mask),
    and the time step its new goal is read from.  The source keeps
    [future_t] for the selected rows only; it is not used for the
    others. *)
Record Plan := {
  timestep_inds : list Z;
  her : list bool;
  future_t : list Z }.

Definition draw_plan (future_p : Q) (max_timestep_inds : list nat)
    (batch_size : nat) : M St Plan :=
  u ← random_samples batch_size;
  let timestep_inds :=
    zip_with (λ low u, Qfloor (uniform_of (Qnat low) 1 u)) max_timestep_inds u in
  u ← random_samples batch_size;
  let her := fmap (M := list) (λ u, Qltb u future_p) u in
  u ← random_samples batch_size;
  let future_offset :=
    zip_with (λ u d, astype_int (u * d)%Q) u
      (zip_with (λ m t, (Qnat m - inject_Z t)%Q) max_timestep_inds timestep_inds) in
  let future_t :=
    zip_with (λ t o, (t + 1 + o)%Z) timestep_inds future_offset in
  ret {| timestep_inds := timestep_inds; her := her; future_t := future_t |}.

(** The rest of [_get_samples]: substitute the goals, recompute the
    rewards of the whole rows, and read the batch at the time steps. *)
Definition assemble (b : Buffer) (episode_inds : list Z) (plan : Plan)
    (env : option VecNormalize) : outcome ReplayBufferSamples :=
  match getitems (observations b) episode_inds with
  | Raise e => Raise e
  | Ok episodes =>
  let observations_dict :=
    fmap (M := list) (fmap (M := list) convert_obs_to_dict) episodes in
  match substitute (her plan) (future_t plan) observations_dict with
  | Raise e => Raise e
  | Ok observations_dict =>
  let rewards :=
    fmap (M := list)
      (λ row, drop 1 (fmap (M := list)
                        (λ d, compute_reward (achieved_goal d) (desired_goal d)) row))
      observations_dict in
  let obs :=
    fmap (M := list) (fmap (M := list) convert_dict_to_obs) observations_dict in
  match pick obs (timestep_inds plan) with
  | Raise e => Raise e
  | Ok o =>
  match getitems (actions b) episode_inds with
  | Raise e => Raise e
  | Ok acts =>
  match pick acts (timestep_inds plan) with
  | Raise e => Raise e
  | Ok a =>
  match pick obs (fmap (M := list) (λ t, (t + 1)%Z) (timestep_inds plan)) with
  | Raise e => Raise e
  | Ok o' =>
  match getitems (dones b) episode_inds with
  | Raise e => Raise e
  | Ok ds =>
  match pick ds (timestep_inds plan) with
  | Raise e => Raise e
  | Ok d =>
  match pick rewards (timestep_inds plan) with
  | Raise e => Raise e
  | Ok r =>
      Ok {| s_observations := _normalize_obs o env;
            s_actions := a;
            s_next_observations := _normalize_obs o' env;
            s_dones := d;
            s_rewards := _normalize_reward r env |}
  end end end end end end end end end.

(** [future_p]: the probability with which a batch row is relabelled. *)
Definition future_p (b : Buffer) : Q := (1 - 1 / (1 + Qnat (n_sampled_goal b)))%Q.

Definition _get_samples (batch_inds : list Z) (env : option VecNormalize) :
    M St ReplayBufferSamples :=
  b ← get_self;
  future_p ←
    match goal_selection_strategy b with
    | FUTURE => ret (future_p b)
    | FINAL => raise NotImplementedError
    | EPISODE => raise NotImplementedError
    | RANDOM => raise NotImplementedError
    end;
  let episode_inds := batch_inds in
  max_timestep_inds ← lift (getitems (n_episode_steps b) episode_inds);
  let batch_size := length episode_inds in
  plan ← draw_plan future_p max_timestep_inds batch_size;
  lift (assemble b episode_inds plan env).

Definition sample (batch_size : nat) (env : option VecNormalize) :
    M St ReplayBufferSamples :=
  b ← get_self;
  full_idx ← lift (floordiv (buffer_size b) (max_episode_len b));
  let upper_bound := if full b then full_idx else pos b in
  batch_inds ← randints 0 (Z.of_nat upper_bound) batch_size;
  _get_samples batch_inds env.

(** *** What the proofs speak about *)

(** The number of episode slots. *)
Definition capacity (b : Buffer) : nat := buffer_size b / max_episode_len b.

(** The arrays have the shapes [__init__] gave them and [pos] is a slot. *)
Definition wf (b : Buffer) : Prop :=
  max_episode_len b ≠ 0 ∧
  length (observations b) = capacity b ∧
  Forall (λ s, length s = max_episode_len b + 1) (observations b) ∧
  length (actions b) = capacity b ∧
  Forall (λ s, length s = max_episode_len b) (actions b) ∧
  length (rewards b) = capacity b ∧
  Forall (λ s, length s = max_episode_len b) (rewards b) ∧
  length (dones b) = capacity b ∧
  Forall (λ s, length s = max_episode_len b) (dones b) ∧
  length (n_episode_steps b) = capacity b ∧
  pos b < capacity b.

(** [_store_episode]'s arguments for the episode [ts]. *)
Definition episode_obs (ts : list Transition) : list Obs :=
  (t_obs <$> ts) ++ match last ts with Some t => [t_next_obs t] | None => [] end.

(** A slot row after an episode's entries were written over its start. *)
Definition overwrite {A} (v old : list A) : list A := v ++ drop (length v) old.

(** The buffer after the episode [ts] was written and nothing raised. *)
Definition write (ts : list Transition) (b : Buffer) : Buffer :=
  let wrap := bool_decide (pos b + 1 = capacity b) in
  let at_pos {A} (a : list (list A)) (v : list A) :=
    <[pos b := overwrite v (default [] (a !! pos b))]> a in
  {| buffer_size := buffer_size b; max_episode_len := max_episode_len b;
     goal_selection_strategy := goal_selection_strategy b;
     n_sampled_goal := n_sampled_goal b;
     observations := at_pos (observations b) (episode_obs ts);
     actions := at_pos (actions b) (t_action <$> ts);
     rewards := at_pos (rewards b) (t_reward <$> ts);
     dones := at_pos (dones b) (t_done <$> ts);
     n_episode_steps := <[pos b := length ts]> (n_episode_steps b);
     pos := if wrap then 0 else pos b + 1;
     full := if wrap then true else full b;
     episode_transitions := episode_transitions b |}.

Definition writes (eps : list (list Transition)) (b : Buffer) : Buffer :=
  foldl (λ b ts, write ts b) b eps.

(** Slot [i] holds the episode [ts]: its recorded length, and its entries
    at the start of the slot's rows. *)
Definition holds (b : Buffer) (i : nat) (ts : list Transition) : Prop :=
  n_episode_steps b !! i = Some (length ts) ∧
  (∃ s, observations b !! i = Some s ∧ take (length ts + 1) s = episode_obs ts) ∧
  (∃ s, actions b !! i = Some s ∧ take (length ts) s = t_action <$> ts) ∧
  (∃ s, rewards b !! i = Some s ∧ take (length ts) s = t_reward <$> ts) ∧
  (∃ s, dones b !! i = Some s ∧ take (length ts) s = t_done <$> ts).

(** An episode the buffer can hold. *)
Definition fits (b : Buffer) (ts : list Transition) : Prop :=
  ts ≠ [] ∧ length ts ≤ max_episode_len b.

(** The ring invariant after the episodes [eps], counted from an empty
    buffer. *)
Definition ring (b : Buffer) (eps : list (list Transition)) : Prop :=
  wf b ∧
  pos b = length eps `mod` capacity b ∧
  full b = bool_decide (capacity b ≤ length eps) ∧
  ∀ w ts, w < length eps → length eps ≤ w + capacity b →
          eps !! w = Some ts → holds b (w `mod` capacity b) ts.

(** Storing the episode [ts] as [_store_episode] does, and storing a list
    of episodes one after the other. *)
Definition store (ts : list Transition) : M St unit :=
  _add_transition (nd2 (t_obs <$> ts)) (nd2 (t_next_obs <$> ts))
    (t_action <$> ts) (t_reward <$> ts) (t_done <$> ts).
Definition fill (eps : list (list Transition)) : M St unit :=
  for_each eps (λ ts, store ts;; ret Continue).

(** One row of the batch [assemble] returns: the episode it was read
    from, the row's part of the plan, the episode's dictionaries after
    the substitution, and the entries read at the time step. *)
Record RowView := {
  rv_episode : Z;
  rv_t : Z;
  rv_her : bool;
  rv_future_t : Z;
  rv_slot_obs : list Obs;
  rv_slot_dones : list bool;
  rv_slot_actions : list Action;
  rv_dicts : list (ObsDict Feat Goal);
  rv_obs_dict : ObsDict Feat Goal;
  rv_next_dict : ObsDict Feat Goal }.

Definition row_of (b : Buffer) (inds : list Z) (plan : Plan)
    (env : option VecNormalize) (s : ReplayBufferSamples) (i : nat)
    (v : RowView) : Prop :=
  inds !! i = Some (rv_episode v) ∧
  timestep_inds plan !! i = Some (rv_t v) ∧
  her plan !! i = Some (rv_her v) ∧
  future_t plan !! i = Some (rv_future_t v) ∧
  getitem (observations b) (rv_episode v) = Ok (rv_slot_obs v) ∧
  getitem (dones b) (rv_episode v) = Ok (rv_slot_dones v) ∧
  getitem (actions b) (rv_episode v) = Ok (rv_slot_actions v) ∧
  substitute_row (rv_her v) (rv_future_t v)
    (convert_obs_to_dict <$> rv_slot_obs v) = Ok (rv_dicts v) ∧
  getitem (rv_dicts v) (rv_t v) = Ok (rv_obs_dict v) ∧
  getitem (rv_dicts v) (rv_t v + 1) = Ok (rv_next_dict v) ∧
  s_observations s !! i
    = Some (normalized_obs env (convert_dict_to_obs (rv_obs_dict v))) ∧
  s_next_observations s !! i
    = Some (normalized_obs env (convert_dict_to_obs (rv_next_dict v))) ∧
  s_rewards s !! i
    = Some (normalized_reward env
              (compute_reward (achieved_goal (rv_next_dict v))
                 (desired_goal (rv_next_dict v)))) ∧
  (∃ d, getitem (rv_slot_dones v) (rv_t v) = Ok d ∧ s_dones s !! i = Some d) ∧
  (∃ a, getitem (rv_slot_actions v) (rv_t v) = Ok a ∧ s_actions s !! i = Some a).

(** A plan drawn for episodes of the recorded lengths [maxs]: row [i]
    has the time step [floor(uniform(low = L, high = 1))] and the future
    time step [t + 1 + int(u * (L - t))], for draws [u1], [u3] of
    [random_sample]. *)
Definition plan_for (maxs : list nat) (plan : Plan) : Prop :=
  length (timestep_inds plan) = length maxs ∧
  length (her plan) = length maxs ∧
  length (future_t plan) = length maxs ∧
  ∀ i L, maxs !! i = Some L →
    ∃ u1 u3, unit_interval u1 ∧ unit_interval u3 ∧
      timestep_inds plan !! i = Some (Qfloor (uniform_of (Qnat L) 1 u1)) ∧
      future_t plan !! i
      = Some (Qfloor (uniform_of (Qnat L) 1 u1) + 1
              + astype_int (u3 * (Qnat L - inject_Z (Qfloor (uniform_of (Qnat L) 1 u1)))))%Z.

End WithEnv.
End Lazy.

(** * Eager mode with objects: who shares what

    The value-level [Eager._store_episode] cannot say whether relabelling
    writes into the arrays of the transition it starts from.  Here the
    arrays and dictionaries are objects in a heap, a transition is a tuple
    of references, [copy.deepcopy] allocates new arrays, the environment's
    conversions allocate the dictionary or array they return, and
    [d['desired_goal'] = goal] writes into the dictionary object and,
    when the environment's dictionaries are views, into the array the
    dictionary was made from.  Rewards and flags are immutable values.
    The buffer's own storage arrays are written by value:
    [_add_transition] stores [np.array(x).copy()]. *)
Module Aliasing.

(** Modelled from the spec: the environment and the type of the
    dictionary [convert_obs_to_dict] returns are not part of the sources;
    the spec has it decompose the flat array into named sub-fields and
    asks for a copy of every field before the goal substitution, so that
    the source is neither aliased nor mutated.  [views = true]: the
    dictionary's entries are views of the array it was made from, and an
    assignment to an entry writes that array.  [views = false]: the
    dictionary owns its entries. *)
Class DictSemantics := views : bool.

Section WithEnv.
Context `{E : GoalEnv} `{V : DictSemantics}.

(** A dictionary remembers the array it was converted from. *)
Inductive object :=
| ObsArray (o : Obs)
| ActionArray (a : Action)
| Dict (base : nat) (d : ObsDict Feat Goal).

(** The tuple [add] appended to [self.episode_transitions]. *)
Record TransitionRef := {
  r_obs : nat;
  r_next_obs : nat;
  r_action : nat;
  r_reward : Reward;
  r_done : bool }.

(** The heap, the accumulator [self.episode_transitions] as the list of
    tuples it is, and the generator and buffer of the value level. *)
Record ObjState := {
  heap : list object;
  refs : list TransitionRef;
  world : World Eager.Buffer }.

#[local] Abbreviation St := ObjState.

Definition lift_world {A} (m : M (World Eager.Buffer) A) : M St A :=
  λ st, let '(o, w) := m (world st) in
        (o, {| heap := heap st; refs := refs st; world := w |}).

Definition get_refs : M St (list TransitionRef) := λ st, (Ok (refs st), st).
Definition set_refs (rs : list TransitionRef) : M St unit :=
  λ st, (Ok tt, {| heap := heap st; refs := rs; world := world st |}).

(** A new object: its reference is the next free one. *)
Definition alloc (x : object) : M St nat :=
  λ st, (Ok (length (heap st)),
         {| heap := heap st ++ [x]; refs := refs st; world := world st |}).

Definition read_obs (l : nat) : M St Obs :=
  λ st, match heap st !! l with
        | Some (ObsArray o) => (Ok o, st)
        | _ => (Raise TypeError, st)
        end.

Definition read_action (l : nat) : M St Action :=
  λ st, match heap st !! l with
        | Some (ActionArray a) => (Ok a, st)
        | _ => (Raise TypeError, st)
        end.

Definition read_dict (l : nat) : M St (ObsDict Feat Goal) :=
  λ st, match heap st !! l with
        | Some (Dict _ d) => (Ok d, st)
        | _ => (Raise TypeError, st)
        end.

(** [d['desired_goal'] = goal]: the dictionary object is updated in
    place; a dictionary of views passes the write on to its array, which
    then holds the dictionary's new entries. *)
Definition setitem_desired_goal (l : nat) (goal : Goal) : M St unit :=
  λ st, match heap st !! l with
        | Some (Dict base d) =>
            let d' := set_desired_goal goal d in
            let h := <[l := Dict base d']> (heap st) in
            (Ok tt,
             {| heap := if views
                        then <[base := ObsArray (convert_dict_to_obs d')]> h
                        else h;
                refs := refs st; world := world st |})
        | _ => (Raise TypeError, st)
        end.

(** [self.env.convert_obs_to_dict(obs[0])] and
    [self.env.convert_dict_to_obs(d)] return a new object. *)
Definition convert_obs_to_dict_obj (l : nat) : M St nat :=
  o ← read_obs l; alloc (Dict l (convert_obs_to_dict o)).
Definition convert_dict_to_obs_obj (l : nat) : M St nat :=
  d ← read_dict l; alloc (ObsArray (convert_dict_to_obs d)).

(** [copy.deepcopy(transition)]: new arrays with the same entries; the
    reward and the flag are immutable and shared. *)
Definition deepcopy (t : TransitionRef) : M St TransitionRef :=
  o ← read_obs (r_obs t);
  o' ← read_obs (r_next_obs t);
  a ← read_action (r_action t);
  obs ← alloc (ObsArray o);
  next_obs ← alloc (ObsArray o');
  action ← alloc (ActionArray a);
  ret {| r_obs := obs; r_next_obs := next_obs; r_action := action;
         r_reward := r_reward t; r_done := r_done t |}.

(** [_add_transition] reads its array arguments and stores copies. *)
Definition _add_transition (obs next_obs action : nat) (reward : Reward)
    (done : bool) : M St unit :=
  o ← read_obs obs;
  o' ← read_obs next_obs;
  a ← read_action action;
  lift_world (Eager._add_transition o o' a reward done).

Definition _sample_achieved_goal (episode_transitions : list TransitionRef)
    (transition_idx : nat) : M St Goal :=
  b ← lift_world get_self;
  selected_transition ←
    match Eager.goal_selection_strategy b with
    | FUTURE =>
        selected_idx ←
          lift_world (choice (arange (transition_idx + 1) (length episode_transitions)));
        lift (getitem episode_transitions (Z.of_nat selected_idx))
    | FINAL =>
        lift (getitem episode_transitions (-1))
    | EPISODE =>
        selected_idx ← lift_world (choice (arange 0 (length episode_transitions)));
        lift (getitem episode_transitions (Z.of_nat selected_idx))
    | RANDOM =>
        raise NotImplementedError
    end;
  d ← convert_obs_to_dict_obj (r_obs selected_transition);
  dict ← read_dict d;
  ret (achieved_goal dict).

Fixpoint sample_goals_n (n : nat) (episode_transitions : list TransitionRef)
    (transition_idx : nat) : M St (list Goal) :=
  match n with
  | 0 => ret []
  | S n' =>
      g ← _sample_achieved_goal episode_transitions transition_idx;
      gs ← sample_goals_n n' episode_transitions transition_idx;
      ret (g :: gs)
  end.

Definition _sample_achieved_goals (episode_transitions : list TransitionRef)
    (transition_idx : nat) : M St (list Goal) :=
  b ← lift_world get_self;
  sample_goals_n (Eager.n_sampled_goal b) episode_transitions transition_idx.

(** The body of [for goal in sampled_goals], after [copy] has produced
    the tuple it works on; the source has [copy = copy.deepcopy]. *)
Definition store_relabelled_with (copy : TransitionRef → M St TransitionRef)
    (transition : TransitionRef) (goal : Goal) : M St unit :=
  copy ← copy transition;
  obs_dict ← convert_obs_to_dict_obj (r_obs copy);
  next_obs_dict ← convert_obs_to_dict_obj (r_next_obs copy);
  setitem_desired_goal obs_dict goal;;
  setitem_desired_goal next_obs_dict goal;;
  d ← read_dict next_obs_dict;
  let reward := compute_reward (achieved_goal d) goal in
  let done := false in
  obs ← convert_dict_to_obs_obj obs_dict;
  next_obs ← convert_dict_to_obs_obj next_obs_dict;
  _add_transition obs next_obs (r_action copy) reward done.

Definition store_relabelled (transition : TransitionRef) (goal : Goal) : M St unit :=
  store_relabelled_with deepcopy transition goal.

Fixpoint for_goals (transition : TransitionRef) (sampled_goals : list Goal) :
    M St unit :=
  match sampled_goals with
  | [] => ret tt
  | goal :: rest => store_relabelled transition goal;; for_goals transition rest
  end.

(** The body of [for transition_idx, transition in enumerate(...)]. *)
Definition store_step (it : nat * TransitionRef) : M St loop_ctl :=
  let '(transition_idx, transition) := it in
  _add_transition (r_obs transition) (r_next_obs transition) (r_action transition)
    (r_reward transition) (r_done transition);;
  b ← lift_world get_self;
  episode_transitions ← get_refs;
  if (bool_decide (transition_idx = length episode_transitions - 1)
      && bool_decide (Eager.goal_selection_strategy b = FUTURE))%bool
  then ret Break
  else
    sampled_goals ← _sample_achieved_goals episode_transitions transition_idx;
    for_goals transition sampled_goals;;
    ret Continue.

Definition _store_episode : M St unit :=
  episode_transitions ← get_refs;
  for_each (enumerate episode_transitions) store_step.

(** [add]: the tuple appended to the accumulator holds the caller's
    arrays themselves.  At this level the accumulator is [refs]. *)
Definition add (obs next_obs action : nat) (reward : Reward) (done : bool) :
    M St unit :=
  episode_transitions ← get_refs;
  set_refs (episode_transitions ++
            [{| r_obs := obs; r_next_obs := next_obs; r_action := action;
                r_reward := reward; r_done := done |}]);;
  if done then _store_episode;; set_refs [] else ret tt.

(** *** What the proofs speak about *)

(** The transition a tuple of references stands for. *)
Definition deref (h : list object) (t : TransitionRef) : option Transition :=
  match h !! r_obs t, h !! r_next_obs t, h !! r_action t with
  | Some (ObsArray o), Some (ObsArray o'), Some (ActionArray a) =>
      Some (Build_Transition _ o o' a (r_reward t) (r_done t))
  | _, _, _ => None
  end.

(** The tuple [r] stands for the transition [t] in the heap [h]. *)
Definition stands_for (h : list object) (r : TransitionRef) (t : Transition) : Prop :=
  deref h r = Some t.

(** Every object of [h0] is still in [h], unchanged. *)
Definition keeps (h0 h : list object) : Prop :=
  ∀ l x, h0 !! l = Some x → h !! l = Some x.

(** The invariant of a call: the objects the call started with are
    unchanged, the accumulator is the list [rs] of tuples, and the value
    level accumulator is [ts]. *)
Definition during (h0 : list object) (rs : list TransitionRef)
    (ts : list Transition) (st : ObjState) : Prop :=
  keeps h0 (heap st) ∧ refs st = rs ∧
  Eager.episode_transitions (self (world st)) = ts.

(** Two outcomes agree: both return, with related values, or both raise
    the same exception. *)
Definition agree {A A'} (R : A → A' → Prop) (o : outcome A) (o' : outcome A') :
    Prop :=
  match o, o' with
  | Ok a, Ok a' => R a a'
  | Raise e, Raise e' => e = e'
  | _, _ => False
  end.

(** The object-level computation [mo] does to the generator and the buffer
    what the value-level [mv] does, its outcome agrees with that of [mv],
    and it keeps the invariant. *)
Definition simulates {A A'} (R : A → A' → Prop) (h0 : list object)
    (rs : list TransitionRef) (ts : list Transition)
    (mo : M ObjState A) (mv : M (World Eager.Buffer) A') : Prop :=
  ∀ st, during h0 rs ts st →
    ∃ o st', mo st = (o, st') ∧
             agree R o (mv (world st)).1 ∧
             world st' = (mv (world st)).2 ∧
             during h0 rs ts st'.

End WithEnv.
End Aliasing.

(** * Whole episodes through [add] *)
Module Episodes.

(** The generator after [k] more draws. *)
Definition advance (k : nat) (g : Rng) : Rng :=
  {| tape := tape g; cursor := cursor g + k |}.

(** The draws [_sample_achieved_goal] makes for one goal. *)
Definition draws_per_goal (strategy : GoalSelectionStrategy) : nat :=
  match strategy with
  | FUTURE | EPISODE => 1
  | FINAL | RANDOM => 0
  end.

Section WithEnv.
Context `{E : GoalEnv}.

(** An episode as a rollout produces it: [done] is set on the last
    transition and on no other. *)
Definition episode (ts : list Transition) : Prop :=
  ∃ pre t, ts = pre ++ [t] ∧ Forall (λ t, t_done t = false) pre ∧ t_done t = true.

(** [add] called once per transition, in order. *)
Fixpoint eager_adds (ts : list Transition) : M (World Eager.Buffer) unit :=
  match ts with
  | [] => ret tt
  | t :: ts' =>
      Eager.add (t_obs t) (t_next_obs t) (t_action t) (t_reward t) (t_done t);;
      eager_adds ts'
  end.

Fixpoint lazy_adds (ts : list Transition) : M (World Lazy.Buffer) unit :=
  match ts with
  | [] => ret tt
  | t :: ts' =>
      Lazy.add (t_obs t) (t_next_obs t) (t_action t) (t_reward t) (t_done t);;
      lazy_adds ts'
  end.

End WithEnv.
End Episodes.

(** * Concrete data for the examples

    A walk on a line: an observation is a triple (position, achieved goal,
    desired goal) of integers, the reward is 0 when the achieved goal is
    the desired one and -1 otherwise. *)
Module Examples.
Definition line_env : GoalEnv :=
  {| Obs := Z * Z * Z; Feat := Z; Goal := Z; Action := Z; Reward := Z;
     convert_obs_to_dict := λ '(f, a, d),
       {| observation := f; achieved_goal := a; desired_goal := d |};
     convert_dict_to_obs := λ d, (observation d, achieved_goal d, desired_goal d);
     compute_reward := λ a d, if (a =? d)%Z then 0%Z else (-1)%Z;
     zero_obs := (0, 0, 0)%Z;
     zero_action := 0%Z;
     zero_reward := 0%Z |}.

(** The observation at position [i]: achieved goal [10 + i], desired
    goal 99. *)
Definition at_step (i : Z) : @Obs line_env := (i, 10 + i, 99)%Z.

(** The transition from position [i] to position [i + 1], with action
    [i] and reward -1. *)
Definition move (i : Z) (done : bool) : @Transition line_env :=
  {| t_obs := at_step i; t_next_obs := at_step (i + 1);
     t_action := i; t_reward := (-1)%Z; t_done := done |}.

(** A generator whose every word gives [random_sample() = 1/2]. *)
Definition halves : Rng := {| tape := λ _, 4503599627370496%N; cursor := 0 |}.

(** A generator that counts. *)
Definition counting : Rng := {| tape := λ i, N.of_nat (7 * i + 3); cursor := 0 |}.

Definition eager_world (buffer_size max_episode_len : nat) (key : strategy_key)
    (n_sampled_goal : nat) (g : Rng) : World (@Eager.Buffer line_env) :=
  {| np_random := g;
     self := Eager.__init__ buffer_size max_episode_len key n_sampled_goal |}.

(** [add] called on the steps [0 .. len - 1] of a walk, the last one
    with [done = True]. *)
Fixpoint eager_walk (from : Z) (len : nat) : M (World (@Eager.Buffer line_env)) unit :=
  match len with
  | 0 => ret tt
  | 1 => Eager.add (at_step from) (at_step (from + 1)) from (-1)%Z true
  | S len' =>
      Eager.add (at_step from) (at_step (from + 1)) from (-1)%Z false;;
      eager_walk (from + 1) len'
  end.

Fixpoint lazy_walk (from : Z) (len : nat) : M (World (@Lazy.Buffer line_env)) unit :=
  match len with
  | 0 => ret tt
  | 1 => Lazy.add (at_step from) (at_step (from + 1)) from (-1)%Z true
  | S len' =>
      Lazy.add (at_step from) (at_step (from + 1)) from (-1)%Z false;;
      lazy_walk (from + 1) len'
  end.

(** A fresh lazy buffer; a configuration [__init__] rejects gives a
    buffer without slots. *)
Definition lazy_world (buffer_size max_episode_len : nat) (key : strategy_key)
    (n_sampled_goal : nat) (g : Rng) : World (@Lazy.Buffer line_env) :=
  {| np_random := g;
     self :=
       match Lazy.__init__ buffer_size max_episode_len key n_sampled_goal with
       | Ok b => b
       | Raise _ =>
           {| Lazy.buffer_size := buffer_size;
              Lazy.max_episode_len := max_episode_len;
              Lazy.goal_selection_strategy := KEY_TO_GOAL_STRATEGY key;
              Lazy.n_sampled_goal := n_sampled_goal;
              Lazy.observations := []; Lazy.actions := []; Lazy.rewards := [];
              Lazy.dones := []; Lazy.n_episode_steps := [];
              Lazy.pos := 0; Lazy.full := false;
              Lazy.episode_transitions := [] |}
       end |}.

(** The transitions of a walk of [len] steps from position [from]. *)
Fixpoint walk (from : Z) (len : nat) : list (@Transition line_env) :=
  match len with
  | 0 => []
  | 1 => [move from true]
  | S len' => move from false :: walk (from + 1) len'
  end.

(** A lazy buffer of two slots of three steps, after a walk of two steps
    was added; every draw of the generator is 1/2. *)
Definition lazy_after_walk_2 : World (@Lazy.Buffer line_env) :=
  (lazy_walk 0 2 (lazy_world 6 3 key_future 4 halves)).2.

(** A lazy buffer of two slots of two steps, after a walk of one step was
    added. *)
Definition lazy_after_walk_1 : World (@Lazy.Buffer line_env) :=
  (lazy_walk 0 1 (lazy_world 4 2 key_future 4 halves)).2.

(** A fresh eager buffer whose accumulator already holds [ts]. *)
Definition eager_pending (ts : list (@Transition line_env))
    (buffer_size max_episode_len : nat) (key : strategy_key)
    (n_sampled_goal : nat) : @Eager.Buffer line_env :=
  Eager.set_episode_transitions ts
    (Eager.__init__ buffer_size max_episode_len key n_sampled_goal).

(** The walk of two steps as [add] receives it: six arrays and two tuples
    of references to them, in an eager buffer of ten slots that samples one
    goal per transition. *)
Definition walk_objects : list (@Aliasing.object line_env) :=
  [Aliasing.ObsArray (E := line_env) (at_step 0); Aliasing.ObsArray (E := line_env) (at_step 1);
   Aliasing.ActionArray (E := line_env) 0%Z;
   Aliasing.ObsArray (E := line_env) (at_step 1); Aliasing.ObsArray (E := line_env) (at_step 2);
   Aliasing.ActionArray (E := line_env) 1%Z].

Definition walk_refs : list (@Aliasing.TransitionRef line_env) :=
  [ @Aliasing.Build_TransitionRef line_env 0 1 2 (-1)%Z false;
    @Aliasing.Build_TransitionRef line_env 3 4 5 (-1)%Z true ].

Definition walk_state : @Aliasing.ObjState line_env :=
  {| Aliasing.heap := walk_objects;
     Aliasing.refs := walk_refs;
     Aliasing.world :=
       {| np_random := counting;
          self := eager_pending (walk 0 2) 10 2 key_future 1 |} |}.

(** The first tuple of the walk's accumulator. *)
Definition walk_first : @Aliasing.TransitionRef line_env :=
  @Aliasing.Build_TransitionRef line_env 0 1 2 (-1)%Z false.

(** A lazy buffer, as [__init__] leaves it, whose accumulator already
    holds [ts]. *)
Definition lazy_pending (ts : list (@Transition line_env))
    (buffer_size max_episode_len : nat) (key : strategy_key)
    (n_sampled_goal : nat) : @Lazy.Buffer line_env :=
  Lazy.set_episode_transitions ts
    (self (lazy_world buffer_size max_episode_len key n_sampled_goal
             halves)).

(** A lazy buffer of two slots of three steps that relabels nothing
    ([n_sampled_goal = 0]), after a walk of two steps was added. *)
Definition lazy_plain_after_walk_2 : World (@Lazy.Buffer line_env) :=
  (lazy_walk 0 2 (lazy_world 6 3 key_future 0 halves)).2.

End Examples.

(** * Facts about the monad and the arrays *)

Ltac mstep :=
  unfold mbind, M_bind, mret, M_ret, bind, ret, raise, lift,
    get_self, set_self, get, put, modify in *.

Lemma bind_ok {W A B} (m : M W A) (k : A → M W B) w a w' :
  m w = (Ok a, w') → (m ≫= k) w = k a w'.
Proof. intros Hm. mstep. by rewrite Hm. Qed.

Lemma bind_raise {W A B} (m : M W A) (k : A → M W B) w e w' :
  m w = (Raise e, w') → (m ≫= k) w = (Raise e, w').
Proof. intros Hm. mstep. by rewrite Hm. Qed.

Lemma bind_assoc_at {W A B C} (m : M W A) (k : A → M W B) (k' : B → M W C) w :
  ((m ≫= k) ≫= k') w = (m ≫= λ a, k a ≫= k') w.
Proof. mstep. destruct (m w) as [[a|e] w']; [|done]. done. Qed.

Lemma ret_bind_at {W A B} (a : A) (k : A → M W B) w : (ret a ≫= k) w = k a w.
Proof. done. Qed.

Lemma bind_inv_ok {W A B} (m : M W A) (k : A → M W B) w b w'' :
  (m ≫= k) w = (Ok b, w'') →
  ∃ a w', m w = (Ok a, w') ∧ k a w' = (Ok b, w'').
Proof.
  mstep. destruct (m w) as [[a|e] w'] eqn:Hm; [eauto|discriminate].
Qed.

Lemma get_self_bind {B A} (k : B → M (World B) A) g b :
  (get_self ≫= k) {| np_random := g; self := b |}
  = k b {| np_random := g; self := b |}.
Proof. done. Qed.

Lemma setitem_ok {A} (a : list A) i x :
  i < length a → setitem a i x = Ok (<[i := x]> a).
Proof. intros Hi. unfold setitem. by rewrite (proj2 (Nat.ltb_lt _ _) Hi). Qed.

Lemma getitem_nat {A} (a : list A) (i : nat) x :
  a !! i = Some x → getitem a (Z.of_nat i) = Ok x.
Proof.
  intros Hx. pose proof (lookup_lt_Some _ _ _ Hx) as Hlt. unfold getitem.
  destruct (Z.ltb_spec (Z.of_nat i) 0); [lia|].
  destruct (Z.leb_spec 0 (Z.of_nat i)); [|lia].
  destruct (Z.ltb_spec (Z.of_nat i) (Z.of_nat (length a))); [|lia].
  simpl. by rewrite Nat2Z.id, Hx.
Qed.

Lemma getitem_Ok_elem {A} (a : list A) (i : Z) x :
  getitem a i = Ok x → ∃ j, a !! j = Some x.
Proof.
  unfold getitem. case_match; [|discriminate].
  destruct (a !! _) eqn:Hl; [|discriminate]. intros [= <-]. eauto.
Qed.

Lemma getitem_nonneg {A} (a : list A) (i : Z) x :
  (0 ≤ i)%Z → getitem a i = Ok x → a !! Z.to_nat i = Some x.
Proof.
  intros Hi. unfold getitem. destruct (Z.ltb_spec i 0); [lia|].
  case_match; [|discriminate]. destruct (a !! _) eqn:Hl; [|discriminate].
  by intros [= <-].
Qed.

(** Arithmetic of the wrapping position. *)
Lemma mod_succ_wrap k c :
  0 < c → k `mod` c + 1 = c → (k + 1) `mod` c = 0.
Proof.
  intros Hc Hw. pose proof (Nat.div_mod_eq k c) as Hk.
  symmetry. apply (Nat.mod_unique _ _ (k `div` c + 1)); lia.
Qed.

Lemma mod_succ_nowrap k c :
  0 < c → k `mod` c + 1 ≠ c → (k + 1) `mod` c = k `mod` c + 1.
Proof.
  intros Hc Hw. pose proof (Nat.div_mod_eq k c) as Hk.
  pose proof (Nat.mod_upper_bound k c ltac:(lia)) as Hlt.
  symmetry. apply (Nat.mod_unique _ _ (k `div` c)); lia.
Qed.

Lemma mod_window_ne w k c :
  w < k → k < w + c → w `mod` c ≠ k `mod` c.
Proof.
  intros Hwk Hkw Heq.
  assert (Hc : c ≠ 0) by lia.
  pose proof (Nat.div_mod_eq k c) as Hk.
  pose proof (Nat.div_mod_eq w c) as Hw.
  rewrite Heq in Hw.
  assert (c * (k `div` c) = c * (w `div` c) + (k - w)) as Hd by lia.
  assert (w `div` c ≤ k `div` c) by (apply Nat.Div0.div_le_mono; lia).
  destruct (decide (k `div` c = w `div` c)) as [He|Hne]; [rewrite He in Hd; lia|].
  assert (w `div` c + 1 ≤ k `div` c) by lia.
  nia.
Qed.

(** * Eager mode: writes *)
Section EagerWrites.
Context `{E : GoalEnv}.
Import Eager.

Lemma assign_at_pos_ok {A} (array : Buffer → list A) update (x : A) g b :
  pos b < length (array b) →
  assign_at_pos array update x {| np_random := g; self := b |}
  = (Ok tt, {| np_random := g; self := update (<[pos b := x]> (array b)) b |}).
Proof.
  intros Hp. unfold assign_at_pos. mstep. simpl. by rewrite setitem_ok.
Qed.

(** A write into a well-formed buffer raises nothing and is [write]. *)
Lemma add_transition_ok g b o o' a r d :
  wf b →
  _add_transition o o' a r d {| np_random := g; self := b |}
  = (Ok tt, {| np_random := g;
               self := write (Build_Transition _ o o' a r d) b |}).
Proof.
  intros (H1 & H2 & H3 & H4 & H5 & Hp). unfold _add_transition.
  do 5 (erewrite bind_ok by (apply assign_at_pos_ok; simpl; lia)).
  mstep. simpl. unfold write. simpl.
  destruct (decide (pos b + 1 = buffer_size b)) as [Hw|Hw].
  - rewrite bool_decide_eq_true_2 by done. reflexivity.
  - rewrite bool_decide_eq_false_2 by done. reflexivity.
Qed.

Lemma store_ok g b t :
  wf b → store t {| np_random := g; self := b |}
         = (Ok tt, {| np_random := g; self := write t b |}).
Proof. intros Hwf. unfold store. rewrite add_transition_ok by done. by destruct t. Qed.

Lemma write_wf t b : wf b → wf (write t b).
Proof.
  intros (H1 & H2 & H3 & H4 & H5 & Hp). unfold wf, write. simpl.
  rewrite !length_insert. repeat split; try done.
  case_bool_decide; lia.
Qed.

Lemma writes_wf ts b : wf b → wf (writes ts b).
Proof.
  revert b. induction ts as [|t ts IH]; intros b Hwf; [done|].
  apply IH, write_wf, Hwf.
Qed.

Lemma writes_app ts1 ts2 b : writes (ts1 ++ ts2) b = writes ts2 (writes ts1 b).
Proof. unfold writes. apply foldl_app. Qed.

Lemma write_frame t b :
  buffer_size (write t b) = buffer_size b ∧
  max_episode_len (write t b) = max_episode_len b ∧
  goal_selection_strategy (write t b) = goal_selection_strategy b ∧
  n_sampled_goal (write t b) = n_sampled_goal b ∧
  episode_transitions (write t b) = episode_transitions b.
Proof. done. Qed.

Lemma writes_frame ts b :
  buffer_size (writes ts b) = buffer_size b ∧
  max_episode_len (writes ts b) = max_episode_len b ∧
  goal_selection_strategy (writes ts b) = goal_selection_strategy b ∧
  n_sampled_goal (writes ts b) = n_sampled_goal b ∧
  episode_transitions (writes ts b) = episode_transitions b.
Proof.
  revert b. induction ts as [|t ts IH]; intros b; [done|].
  simpl. destruct (IH (write t b)) as (-> & -> & -> & -> & ->). done.
Qed.

Lemma slot_write_eq t b : wf b → slot (write t b) (pos b) = Some t.
Proof.
  intros (H1 & H2 & H3 & H4 & H5 & Hp). unfold slot, write. simpl.
  rewrite !list_lookup_insert_eq by lia. simpl. by destruct t.
Qed.

Lemma slot_write_ne t b i : i ≠ pos b → slot (write t b) i = slot b i.
Proof.
  intros Hi. unfold slot, write. simpl.
  by rewrite !list_lookup_insert_ne by done.
Qed.

Lemma ring_slots_step b ts t :
  wf b →
  pos b = length ts `mod` buffer_size b →
  (∀ w, w < length ts → length ts ≤ w + buffer_size b →
        slot b (w `mod` buffer_size b) = ts !! w) →
  ∀ w, w < length ts + 1 → length ts + 1 ≤ w + buffer_size b →
       slot (write t b) (w `mod` buffer_size b) = (ts ++ [t]) !! w.
Proof.
  intros Hwf Hpos Hslots w Hw Hwin.
  destruct (decide (w = length ts)) as [->|Hne].
  - rewrite <- Hpos, slot_write_eq by done.
    by rewrite lookup_app_r, Nat.sub_diag by done.
  - rewrite slot_write_ne.
    + rewrite lookup_app_l by lia. apply Hslots; lia.
    + rewrite Hpos. apply mod_window_ne; lia.
Qed.

Lemma ring_write b ts t : ring b ts → ring (write t b) (ts ++ [t]).
Proof.
  intros (Hwf & Hpos & Hfull & Hslots).
  pose proof Hwf as (_ & _ & _ & _ & _ & Hp).
  split; [by apply write_wf|].
  rewrite length_app. simpl length.
  assert (buffer_size (write t b) = buffer_size b) as -> by done.
  assert (pos (write t b)
          = if bool_decide (pos b + 1 = buffer_size b) then 0 else pos b + 1)
    as -> by done.
  assert (full (write t b)
          = if bool_decide (pos b + 1 = buffer_size b) then true else full b)
    as -> by done.
  set (c := buffer_size b) in *. set (k := length ts) in *.
  destruct (decide (pos b + 1 = c)) as [Hw|Hw].
  - rewrite !(bool_decide_eq_true_2 _ Hw). split; [|split].
    + symmetry. apply mod_succ_wrap; lia.
    + symmetry. apply bool_decide_eq_true_2.
      pose proof (Nat.Div0.mod_le k c). lia.
    + by apply ring_slots_step.
  - rewrite !(bool_decide_eq_false_2 _ Hw). split; [|split].
    + symmetry. rewrite Hpos in Hw |- *. apply mod_succ_nowrap; lia.
    + rewrite Hfull. apply bool_decide_ext.
      split; [lia|]. intros Hle.
      destruct (decide (k + 1 = c)) as [He|]; [|lia].
      rewrite Hpos, Nat.mod_small in Hw by lia. lia.
    + by apply ring_slots_step.
Qed.

Lemma ring_writes b ts ts' : ring b ts → ring (writes ts' b) (ts ++ ts').
Proof.
  revert b ts. induction ts' as [|t ts' IH]; intros b ts Hr.
  - by rewrite app_nil_r.
  - simpl. replace (ts ++ t :: ts') with ((ts ++ [t]) ++ ts') by by rewrite <- app_assoc.
    apply IH, ring_write, Hr.
Qed.

Lemma ring_init c m key n : 0 < c → ring (__init__ c m key n) [].
Proof.
  intros Hc. unfold ring, wf, __init__. simpl.
  rewrite !length_replicate, Nat.Div0.mod_0_l.
  repeat split; try done.
  - symmetry. apply bool_decide_eq_false_2. lia.
  - intros w Hw. lia.
Qed.

(** Running [store] over a list of transitions. *)
Lemma run_stores g b ts :
  wf b →
  for_each ts (λ t, store t;; ret Continue) {| np_random := g; self := b |}
  = (Ok tt, {| np_random := g; self := writes ts b |}).
Proof.
  revert b. induction ts as [|t ts IH]; intros b Hwf; [done|].
  simpl for_each.
  rewrite (bind_ok _ _ _ Continue {| np_random := g; self := write t b |}).
  - apply IH, write_wf, Hwf.
  - erewrite bind_ok by (by apply store_ok). done.
Qed.
End EagerWrites.

(** * Eager mode: sampling goals and storing an episode *)
Section EagerStore.
Context `{E : GoalEnv}.
Import Eager.

Lemma choice_of_ok {A} (a : list A) r :
  a ≠ [] → ∃ x, choice_of a r = Ok x ∧ x ∈ a.
Proof.
  intros Ha. unfold choice_of. destruct a as [|y a']; [done|].
  set (l := y :: a') in *.
  assert (Hlt : N.to_nat r `mod` length l < length l)
    by (apply Nat.mod_upper_bound; simpl; lia).
  destruct (lookup_lt_is_Some_2 l _ Hlt) as [x Hx].
  exists x. rewrite Hx. split; [done|]. by eapply list_elem_of_lookup_2.
Qed.

Lemma choice_ok {B A} (a : list A) (g : Rng) (b : B) :
  a ≠ [] →
  ∃ x, choice a {| np_random := g; self := b |}
       = (Ok x, {| np_random := (next_raw g).2; self := b |}) ∧ x ∈ a.
Proof.
  intros Ha. destruct (choice_of_ok a (tape g (cursor g)) Ha) as (x & Hx & Hin).
  exists x. split; [|done]. unfold choice. destruct a; [done|].
  mstep. unfold raw, next_raw in *. cbn -[choice_of]. by rewrite Hx.
Qed.

Lemma elem_of_arange x start stop : x ∈ arange start stop ↔ start ≤ x < stop.
Proof. unfold arange. rewrite elem_of_seq. lia. Qed.

Lemma arange_nonempty start stop : start < stop → arange start stop ≠ [].
Proof.
  intros Hlt Hnil. assert (start ∈ arange start stop) as Hin
    by (apply elem_of_arange; lia).
  rewrite Hnil in Hin. by apply not_elem_of_nil in Hin.
Qed.

(** One draw of a goal, for the three strategies that draw one. *)
Lemma sample_achieved_goal_ok g b ts i :
  goal_selection_strategy b ≠ RANDOM →
  ts ≠ [] →
  (goal_selection_strategy b = FUTURE → i + 1 < length ts) →
  ∃ goal g', _sample_achieved_goal ts i {| np_random := g; self := b |}
             = (Ok goal, {| np_random := g'; self := b |}) ∧
             goal_source (goal_selection_strategy b) ts i goal.
Proof.
  intros Hs Hts Hfut. unfold _sample_achieved_goal, goal_source.
  mstep. simpl. destruct (goal_selection_strategy b) eqn:Hstrat; [| | |done].
  - destruct (choice_ok (B := Buffer) (arange (i + 1) (length ts)) g b) as (j & Hj & Hin).
    { apply arange_nonempty. by apply Hfut. }
    apply elem_of_arange in Hin.
    destruct (lookup_lt_is_Some_2 ts j ltac:(lia)) as [tj Htj].
    mstep. rewrite Hj. rewrite (getitem_nat _ _ _ Htj).
    eexists _, _. split; [done|]. exists j, tj. repeat split; [done|lia].
  - destruct (lookup_lt_is_Some_2 ts (length ts - 1)) as [tj Htj].
    { destruct ts; [done|simpl; lia]. }
    assert (getitem ts (-1) = Ok tj) as ->.
    { unfold getitem. simpl.
      destruct (Z.leb_spec 0 (Z.of_nat (length ts) + -1)) as [_|Hneg];
        [|destruct ts; [done|simpl in Hneg; lia]].
      destruct (Z.ltb_spec (Z.of_nat (length ts) + -1) (Z.of_nat (length ts))); [|lia].
      simpl. replace (Z.to_nat (Z.of_nat (length ts) + -1)) with (length ts - 1) by lia.
      by rewrite Htj. }
    eexists _, _. split; [done|]. by exists (length ts - 1), tj.
  - destruct (choice_ok (B := Buffer) (arange 0 (length ts)) g b) as (j & Hj & Hin).
    { apply arange_nonempty. destruct ts; [done|simpl; lia]. }
    apply elem_of_arange in Hin.
    destruct (lookup_lt_is_Some_2 ts j ltac:(lia)) as [tj Htj].
    mstep. rewrite Hj. rewrite (getitem_nat _ _ _ Htj).
    eexists _, _. split; [done|]. by exists j, tj.
Qed.

Lemma sample_goals_n_ok n g b ts i :
  goal_selection_strategy b ≠ RANDOM →
  ts ≠ [] →
  (goal_selection_strategy b = FUTURE → i + 1 < length ts) →
  ∃ goals g', sample_goals_n n ts i {| np_random := g; self := b |}
              = (Ok goals, {| np_random := g'; self := b |}) ∧
              length goals = n ∧
              Forall (goal_source (goal_selection_strategy b) ts i) goals.
Proof.
  intros Hs Hts Hfut. revert g. induction n as [|n IH]; intros g.
  - exists [], g. by repeat split.
  - destruct (sample_achieved_goal_ok g b ts i Hs Hts Hfut) as (goal & g1 & H1 & Hsrc).
    destruct (IH g1) as (goals & g2 & H2 & Hlen & Hall).
    exists (goal :: goals), g2. simpl sample_goals_n.
    erewrite bind_ok by exact H1. erewrite bind_ok by exact H2.
    repeat split; [simpl; lia|by constructor].
Qed.

(** With [RANDOM], drawing a goal raises before anything is drawn. *)
Lemma sample_achieved_goals_random g b ts i :
  goal_selection_strategy b = RANDOM →
  _sample_achieved_goals ts i {| np_random := g; self := b |}
  = (if decide (n_sampled_goal b = 0) then Ok [] else Raise NotImplementedError,
     {| np_random := g; self := b |}).
Proof.
  intros Hs. unfold _sample_achieved_goals. mstep. simpl.
  destruct (n_sampled_goal b) as [|n]; [done|].
  simpl. unfold _sample_achieved_goal. mstep. simpl. by rewrite Hs.
Qed.

Lemma sample_achieved_goals_ok g b ts i :
  draws_goals b →
  ts ≠ [] →
  (goal_selection_strategy b = FUTURE → i + 1 < length ts) →
  ∃ goals g', _sample_achieved_goals ts i {| np_random := g; self := b |}
              = (Ok goals, {| np_random := g'; self := b |}) ∧
              length goals = n_sampled_goal b ∧
              Forall (goal_source (goal_selection_strategy b) ts i) goals.
Proof.
  intros Hd Hts Hfut.
  destruct (decide (goal_selection_strategy b = RANDOM)) as [Hr|Hs].
  - exists [], g. rewrite sample_achieved_goals_random by done.
    rewrite (Hd Hr). by repeat split.
  - unfold _sample_achieved_goals.
    destruct (sample_goals_n_ok (n_sampled_goal b) g b ts i Hs Hts Hfut)
      as (goals & g' & H & ?). exists goals, g'. split; [|done].
    mstep. simpl. exact H.
Qed.

Lemma store_relabelled_ok g b t goal :
  wf b →
  store_relabelled t goal {| np_random := g; self := b |}
  = (Ok tt, {| np_random := g; self := write (relabelled t goal) b |}).
Proof.
  intros Hwf. unfold store_relabelled.
  destruct (relabelled t goal) as [o o' a r d]. by apply add_transition_ok.
Qed.

Lemma for_goals_ok g b t goals :
  wf b →
  for_goals t goals {| np_random := g; self := b |}
  = (Ok tt, {| np_random := g; self := writes (relabelled t <$> goals) b |}).
Proof.
  revert b. induction goals as [|goal goals IH]; intros b Hwf; [done|].
  simpl for_goals. erewrite bind_ok by (by apply store_relabelled_ok).
  apply IH, write_wf, Hwf.
Qed.

(** One turn of the loop of [_store_episode]. *)
Lemma store_step_ok g b i t :
  wf b →
  draws_goals b →
  episode_transitions b !! i = Some t →
  ∃ c g' rel,
    store_step (i, t) {| np_random := g; self := b |}
    = (Ok c, {| np_random := g'; self := writes (t :: rel) b |}) ∧
    artificial_of (goal_selection_strategy b) (n_sampled_goal b)
      (episode_transitions b) i t rel ∧
    (c = Break → i = length (episode_transitions b) - 1).
Proof.
  intros Hwf Hs Hi. unfold store_step.
  erewrite bind_ok; cycle 1.
  { destruct t as [o o' a r d]. by apply add_transition_ok. }
  assert (Build_Transition _ (t_obs t) (t_next_obs t) (t_action t)
            (t_reward t) (t_done t) = t) as Ht by by destruct t.
  destruct t as [o o' a r d]. simpl in Ht. set (t := Build_Transition _ o o' a r d) in *.
  clear Ht. mstep. cbn [self np_random]. unfold artificial_of.
  destruct (write_frame t b) as (_ & _ & Hstrat & Hn & Hep).
  rewrite Hstrat, Hep.
  destruct (bool_decide (i = length (episode_transitions b) - 1)
            && bool_decide (goal_selection_strategy b = FUTURE))%bool eqn:Hbrk.
  - exists Break, g, []. repeat split.
    apply andb_true_iff in Hbrk as [Hl _]. by apply bool_decide_eq_true in Hl.
  - pose proof (lookup_lt_Some _ _ _ Hi) as Hlt.
    destruct (sample_achieved_goals_ok g (write t b) (episode_transitions b) i)
      as (goals & g' & Hg & Hlen & Hall).
    { done. }
    { intros Hnil. rewrite Hnil in Hlt. simpl in Hlt. lia. }
    { rewrite Hstrat. intros Hf. apply andb_false_iff in Hbrk as [Hl|Hl];
        apply bool_decide_eq_false in Hl; [lia|done]. }
    rewrite Hg. rewrite for_goals_ok by by apply write_wf.
    exists Continue, g', (relabelled t <$> goals). split; [done|].
    split; [|done]. rewrite length_fmap, Hlen, Hn. split; [done|].
    rewrite Forall_fmap. eapply Forall_impl; [exact Hall|].
    intros goal Hsrc. by exists goal.
Qed.

Lemma interleave_cons t l rel rels :
  interleave (t :: l) (rel :: rels) = (t :: rel) ++ interleave l rels.
Proof. done. Qed.

(** The loop of [_store_episode], from any point of the episode on. *)
Lemma store_loop_ok l : ∀ pre g b,
  wf b →
  draws_goals b →
  episode_transitions b = pre ++ l →
  ∃ g' rels,
    for_each (enumerate_from (length pre) l) store_step
      {| np_random := g; self := b |}
    = (Ok tt, {| np_random := g'; self := writes (interleave l rels) b |}) ∧
    length rels = length l ∧
    ∀ i t rel, l !! i = Some t → rels !! i = Some rel →
      artificial_of (goal_selection_strategy b) (n_sampled_goal b)
        (pre ++ l) (length pre + i) t rel.
Proof.
  induction l as [|t l IH]; intros pre g b Hwf Hs Hep.
  - exists g, []. repeat split. intros i t rel Hl. done.
  - destruct (store_step_ok g b (length pre) t Hwf Hs) as (c & g1 & rel & Hstep & Hart & Hbrk).
    { rewrite Hep. by rewrite lookup_app_r, Nat.sub_diag by done. }
    rewrite Hep in Hart, Hbrk.
    simpl enumerate_from. simpl for_each. erewrite bind_ok by exact Hstep.
    destruct c.
    + destruct (IH (pre ++ [t]) g1 (writes (t :: rel) b)) as (g2 & rels & Hloop & Hlen & Hall).
      { by apply writes_wf. }
      { unfold draws_goals.
        by destruct (writes_frame (t :: rel) b) as (_ & _ & -> & -> & _). }
      { destruct (writes_frame (t :: rel) b) as (_ & _ & _ & _ & ->).
        by rewrite Hep, <- app_assoc. }
      rewrite length_app in Hloop, Hall. change (length [t]) with 1 in Hloop, Hall.
      rewrite Nat.add_1_r in Hloop.
      destruct (writes_frame (t :: rel) b) as (_ & _ & Hst & Hn & _).
      rewrite Hst, Hn in Hall. rewrite <- app_assoc in Hall.
      exists g2, (rel :: rels). rewrite Hloop. split; [|split].
      * by rewrite interleave_cons, writes_app.
      * simpl. by rewrite Hlen.
      * intros [|i] t' rel' Ht' Hrel'; simplify_eq/=.
        { by rewrite Nat.add_0_r. }
        specialize (Hall i t' rel' Ht' Hrel').
        by replace (length pre + S i) with (length pre + 1 + i) by lia.
    + specialize (Hbrk eq_refl). rewrite length_app in Hbrk. simpl in Hbrk.
      assert (l = []) as -> by (destruct l; [done|simpl in Hbrk; lia]).
      exists g1, [rel]. split; [|split].
      * unfold interleave. simpl. by rewrite app_nil_r.
      * done.
      * intros [|i] t' rel' Ht' Hrel'; simplify_eq/=. by rewrite Nat.add_0_r.
Qed.

(** What [_store_episode] writes and that it raises nothing, for the
    strategies that draw a goal. *)
Lemma store_episode_ok g b :
  wf b →
  draws_goals b →
  ∃ g' rels,
    _store_episode {| np_random := g; self := b |}
    = (Ok tt, {| np_random := g';
                 self := writes (interleave (episode_transitions b) rels) b |}) ∧
    length rels = length (episode_transitions b) ∧
    ∀ i t rel, episode_transitions b !! i = Some t → rels !! i = Some rel →
      artificial_of (goal_selection_strategy b) (n_sampled_goal b)
        (episode_transitions b) i t rel.
Proof.
  intros Hwf Hs.
  destruct (store_loop_ok (episode_transitions b) [] g b Hwf Hs eq_refl)
    as (g' & rels & Hloop & Hlen & Hall).
  exists g', rels. split; [|done].
  unfold _store_episode. mstep. cbn [self]. exact Hloop.
Qed.

(** With [RANDOM] and at least one goal to draw, [_store_episode] stores
    the first transition and raises. *)
Lemma store_episode_random g b t l :
  wf b →
  goal_selection_strategy b = RANDOM →
  n_sampled_goal b ≠ 0 →
  episode_transitions b = t :: l →
  _store_episode {| np_random := g; self := b |}
  = (Raise NotImplementedError, {| np_random := g; self := write t b |}).
Proof.
  intros Hwf Hs Hn Hep. unfold _store_episode.
  rewrite get_self_bind, Hep. simpl for_each.
  apply bind_raise. unfold store_step. destruct t as [o o' a r d].
  erewrite bind_ok by (by apply add_transition_ok).
  set (t := Build_Transition _ o o' a r d) in *.
  rewrite get_self_bind.
  destruct (write_frame t b) as (_ & _ & Hst & Hnn & _).
  rewrite Hst, Hs. rewrite andb_false_r.
  apply bind_raise. rewrite sample_achieved_goals_random by by rewrite Hst.
  rewrite Hnn. by destruct (decide (n_sampled_goal b = 0)).
Qed.
End EagerStore.

(** * Lazy mode: writes *)
Section LazyWrites.
Context `{E : GoalEnv}.
Import Lazy.

Lemma getitem_last {A} (a : list A) x :
  last a = Some x → getitem a (-1) = Ok x.
Proof.
  intros Hl. rewrite last_lookup in Hl.
  pose proof (lookup_lt_Some _ _ _ Hl) as Hlt.
  unfold getitem. simpl.
  destruct (Z.leb_spec 0 (Z.of_nat (length a) + -1)); [|lia].
  destruct (Z.ltb_spec (Z.of_nat (length a) + -1) (Z.of_nat (length a))); [|lia].
  simpl. replace (Z.to_nat (Z.of_nat (length a) + -1)) with (pred (length a)) by lia.
  by rewrite Hl.
Qed.

Lemma setslice_exact {A} (a v : list A) :
  length v ≤ length a → setslice a (length v) v = Ok (overwrite v a).
Proof.
  intros Hle. unfold setslice, overwrite.
  rewrite Nat.min_l by done. by rewrite decide_True.
Qed.

Lemma length_overwrite {A} (v a : list A) :
  length v ≤ length a → length (overwrite v a) = length a.
Proof. intros Hle. unfold overwrite. rewrite length_app, length_drop. lia. Qed.

Lemma take_overwrite {A} (v a : list A) n :
  n = length v → take n (overwrite v a) = v.
Proof. intros ->. unfold overwrite. by rewrite take_app_length. Qed.

Lemma assign_slice_at_pos_ok {A} (array : Buffer → list (list A)) update
    (v : list A) n g b slot :
  array b !! pos b = Some slot →
  n = length v →
  length v ≤ length slot →
  assign_slice_at_pos array update n v {| np_random := g; self := b |}
  = (Ok tt, {| np_random := g;
               self := update (<[pos b := overwrite v slot]> (array b)) b |}).
Proof.
  intros Hslot -> Hle. unfold assign_slice_at_pos.
  rewrite get_self_bind.
  pose proof (lookup_lt_Some _ _ _ Hslot) as Hlt.
  mstep. rewrite (getitem_nat _ _ _ Hslot), setslice_exact, setitem_ok by done.
  done.
Qed.

Lemma length_episode_obs ts : ts ≠ [] → length (episode_obs ts) = length ts + 1.
Proof.
  intros Hts. unfold episode_obs. rewrite length_app, length_fmap.
  destruct (last ts) eqn:Hl; [done|]. by apply last_None in Hl.
Qed.

Lemma append_last_episode ts :
  ts ≠ [] →
  append_last (t_obs <$> ts) (nd2 (t_next_obs <$> ts)) = Ok (episode_obs ts).
Proof.
  intros Hts. unfold append_last, episode_obs.
  destruct (last ts) as [t|] eqn:Hl; [|by apply last_None in Hl].
  rewrite (getitem_last _ (t_next_obs t)); [done|].
  by rewrite fmap_last, Hl.
Qed.

Lemma wf_slots b :
  wf b →
  ∃ so sa sr sd,
    observations b !! pos b = Some so ∧ length so = max_episode_len b + 1 ∧
    actions b !! pos b = Some sa ∧ length sa = max_episode_len b ∧
    rewards b !! pos b = Some sr ∧ length sr = max_episode_len b ∧
    dones b !! pos b = Some sd ∧ length sd = max_episode_len b.
Proof.
  intros (HM & Ho & Hos & Ha & Has & Hr & Hrs & Hd & Hds & Hn & Hp).
  destruct (lookup_lt_is_Some_2 (observations b) (pos b) ltac:(lia)) as [so Hso].
  destruct (lookup_lt_is_Some_2 (actions b) (pos b) ltac:(lia)) as [sa Hsa].
  destruct (lookup_lt_is_Some_2 (rewards b) (pos b) ltac:(lia)) as [sr Hsr].
  destruct (lookup_lt_is_Some_2 (dones b) (pos b) ltac:(lia)) as [sd Hsd].
  exists so, sa, sr, sd.
  pose proof (Forall_lookup_1 _ _ _ _ Hos Hso).
  pose proof (Forall_lookup_1 _ _ _ _ Has Hsa).
  pose proof (Forall_lookup_1 _ _ _ _ Hrs Hsr).
  pose proof (Forall_lookup_1 _ _ _ _ Hds Hsd).
  done.
Qed.

(** Storing a non-empty episode of at most [max_episode_len] steps into a
    well-formed buffer raises nothing and is [write]. *)
Lemma lazy_store_ok g b ts :
  wf b → ts ≠ [] → length ts ≤ max_episode_len b →
  store ts {| np_random := g; self := b |}
  = (Ok tt, {| np_random := g; self := write ts b |}).
Proof.
  intros Hwf Hts Hlen.
  destruct (wf_slots b Hwf) as (so & sa & sr & sd & Hso & Hlo & Hsa & Hla & Hsr & Hlr & Hsd & Hld).
  destruct Hwf as (HM & Ho & Hos & Ha & Has & Hr & Hrs & Hd & Hds & Hn & Hp).
  unfold store, _add_transition. cbn [ndim_ge_2 entries].
  erewrite bind_ok by reflexivity.
  erewrite bind_ok by (unfold lift; by rewrite append_last_episode).
  rewrite length_fmap.
  erewrite bind_ok; cycle 1.
  { apply (assign_slice_at_pos_ok observations); [exact Hso| |].
    - by rewrite length_episode_obs.
    - rewrite length_episode_obs by done. lia. }
  erewrite bind_ok; cycle 1.
  { apply (assign_slice_at_pos_ok actions); [exact Hsa| |]; rewrite length_fmap; [done|lia]. }
  erewrite bind_ok; cycle 1.
  { apply (assign_slice_at_pos_ok rewards); [exact Hsr| |]; rewrite length_fmap; [done|lia]. }
  erewrite bind_ok; cycle 1.
  { apply (assign_slice_at_pos_ok dones); [exact Hsd| |]; rewrite length_fmap; [done|lia]. }
  rewrite get_self_bind. cbn [n_episode_steps set_dones set_rewards set_actions
    set_observations pos].
  mstep. rewrite setitem_ok by lia. cbn.
  unfold floordiv. rewrite decide_False by done.
  unfold write, capacity. rewrite Hso, Hsa, Hsr, Hsd. cbn.
  destruct (decide (pos b + 1 = buffer_size b `div` max_episode_len b)) as [Hw|Hw].
  - rewrite (bool_decide_eq_true_2 _ Hw). reflexivity.
  - rewrite (bool_decide_eq_false_2 _ Hw). reflexivity.
Qed.

Lemma lazy_write_frame ts b :
  buffer_size (write ts b) = buffer_size b ∧
  max_episode_len (write ts b) = max_episode_len b ∧
  goal_selection_strategy (write ts b) = goal_selection_strategy b ∧
  n_sampled_goal (write ts b) = n_sampled_goal b ∧
  episode_transitions (write ts b) = episode_transitions b ∧
  capacity (write ts b) = capacity b.
Proof. done. Qed.

Lemma Forall_insert_overwrite {A} (a : list (list A)) i v n :
  Forall (λ s, length s = n) a → length v ≤ n →
  Forall (λ s, length s = n) (<[i := overwrite v (default [] (a !! i))]> a).
Proof.
  intros Hall Hle. destruct (a !! i) as [s|] eqn:Hs.
  - apply Forall_insert; [done|]. simpl.
    pose proof (Forall_lookup_1 _ _ _ _ Hall Hs) as Hl. simpl in Hl.
    rewrite length_overwrite; lia.
  - rewrite list_insert_ge; [done|]. by apply lookup_ge_None.
Qed.

Lemma lazy_write_wf ts b :
  wf b → ts ≠ [] → length ts ≤ max_episode_len b → wf (write ts b).
Proof.
  intros (HM & Ho & Hos & Ha & Has & Hr & Hrs & Hd & Hds & Hn & Hp) Hts Hlen.
  unfold wf. destruct (lazy_write_frame ts b) as (_ & -> & _ & _ & _ & ->).
  unfold write. cbn -[capacity]. rewrite !length_insert.
  repeat split; try done.
  - apply Forall_insert_overwrite; [done|]. rewrite length_episode_obs by done. lia.
  - apply Forall_insert_overwrite; [done|]. by rewrite length_fmap.
  - apply Forall_insert_overwrite; [done|]. by rewrite length_fmap.
  - apply Forall_insert_overwrite; [done|]. by rewrite length_fmap.
  - case_bool_decide; lia.
Qed.

Lemma holds_write ts b :
  wf b → ts ≠ [] → length ts ≤ max_episode_len b →
  holds (write ts b) (pos b) ts.
Proof.
  intros Hwf Hts Hlen.
  destruct (wf_slots b Hwf) as (so & sa & sr & sd & Hso & Hlo & Hsa & Hla & Hsr & Hlr & Hsd & Hld).
  destruct Hwf as (HM & Ho & Hos & Ha & Has & Hr & Hrs & Hd & Hds & Hn & Hp).
  unfold holds, write. cbn -[capacity].
  rewrite !list_lookup_insert_eq by lia.
  rewrite Hso, Hsa, Hsr, Hsd. cbn.
  split; [done|].
  repeat split; eexists; (split; [done|]); apply take_overwrite;
    by rewrite ?length_episode_obs, ?length_fmap.
Qed.

Lemma holds_write_ne ts ts' b i :
  i ≠ pos b → holds b i ts' → holds (write ts b) i ts'.
Proof.
  intros Hi. unfold holds, write. cbn -[capacity].
  by rewrite !list_lookup_insert_ne by done.
Qed.

Lemma lazy_ring_write b eps ts :
  ring b eps → fits b ts → ring (write ts b) (eps ++ [ts]).
Proof.
  intros (Hwf & Hpos & Hfull & Hslots) [Hts Hlen].
  pose proof Hwf as (_ & _ & _ & _ & _ & _ & _ & _ & _ & _ & Hp).
  split; [by apply lazy_write_wf|].
  rewrite length_app. simpl length.
  assert (capacity (write ts b) = capacity b) as -> by done.
  assert (pos (write ts b)
          = if bool_decide (pos b + 1 = capacity b) then 0 else pos b + 1)
    as -> by done.
  assert (full (write ts b)
          = if bool_decide (pos b + 1 = capacity b) then true else full b)
    as -> by done.
  set (c := capacity b) in *. set (k := length eps) in *.
  assert (Hstep : ∀ w ts', w < k + 1 → k + 1 ≤ w + c →
            (eps ++ [ts]) !! w = Some ts' → holds (write ts b) (w `mod` c) ts').
  { intros w ts' Hw Hwin Hl.
    destruct (decide (w = k)) as [->|Hne].
    - rewrite lookup_app_r, Nat.sub_diag in Hl by done. simplify_eq/=.
      rewrite <- Hpos. by apply holds_write.
    - rewrite lookup_app_l in Hl by (fold k; lia).
      apply holds_write_ne; [|apply Hslots; [lia|lia|done]].
      rewrite Hpos. apply mod_window_ne; lia. }
  destruct (decide (pos b + 1 = c)) as [Hw|Hw].
  - rewrite !(bool_decide_eq_true_2 _ Hw). split; [|split; [|done]].
    + symmetry. apply mod_succ_wrap; lia.
    + symmetry. apply bool_decide_eq_true_2.
      pose proof (Nat.Div0.mod_le k c). lia.
  - rewrite !(bool_decide_eq_false_2 _ Hw). split; [|split; [|done]].
    + symmetry. rewrite Hpos in Hw |- *. apply mod_succ_nowrap; lia.
    + rewrite Hfull. apply bool_decide_ext.
      split; [lia|]. intros Hle.
      destruct (decide (k + 1 = c)) as [He|]; [|lia].
      rewrite Hpos, Nat.mod_small in Hw by lia. lia.
Qed.

Lemma lazy_ring_writes eps' : ∀ b eps,
  ring b eps → Forall (fits b) eps' → ring (writes eps' b) (eps ++ eps').
Proof.
  induction eps' as [|ts eps' IH]; intros b eps Hr Hfit.
  - by rewrite app_nil_r.
  - simpl. replace (eps ++ ts :: eps') with ((eps ++ [ts]) ++ eps')
      by by rewrite <- app_assoc.
    inversion Hfit; subst. apply IH; [by apply lazy_ring_write|done].
Qed.

Lemma lazy_ring_init bs m key n b :
  m ≤ bs → __init__ bs m key n = Ok b → ring b [].
Proof.
  unfold __init__, floordiv. intros Hle. destruct (decide (m = 0)) as [|Hm]; [done|].
  intros [= <-]. unfold ring, wf, capacity. cbn.
  rewrite !length_replicate, Nat.Div0.mod_0_l.
  assert (0 < bs `div` m) by (apply Nat.div_str_pos; lia).
  repeat split; try done; try (apply Forall_replicate; by rewrite ?length_replicate).
  all: try (symmetry; apply bool_decide_eq_false_2; lia).
  all: intros; lia.
Qed.

Lemma lazy_run_stores g eps : ∀ b,
  wf b → Forall (fits b) eps →
  for_each eps (λ ts, store ts;; ret Continue) {| np_random := g; self := b |}
  = (Ok tt, {| np_random := g; self := writes eps b |}).
Proof.
  induction eps as [|ts eps IH]; intros b Hwf Hfit; [done|].
  inversion Hfit as [|?? [Hts Hlen] Hfit']; subst.
  simpl for_each.
  rewrite (bind_ok _ _ _ Continue {| np_random := g; self := write ts b |}).
  - apply IH; [by apply lazy_write_wf|done].
  - erewrite bind_ok by (by apply lazy_store_ok). done.
Qed.

(** The shape check comes before every assignment. *)
Lemma add_transition_low_dim obs next_obs action reward done w :
  ndim_ge_2 obs = false →
  _add_transition obs next_obs action reward done w = (Raise EpisodeShapeError, w).
Proof. intros Hd. unfold _add_transition. mstep. by rewrite Hd. Qed.
End LazyWrites.

(** * The random generator *)
Section RandomFacts.
Context {B : Type}.

Lemma unit_of_raw_range r : (0 <= unit_of_raw r)%Q ∧ (unit_of_raw r < 1)%Q.
Proof.
  unfold unit_of_raw, Qle, Qlt. cbn [Qnum Qden].
  pose proof (N.mod_upper_bound r (Npos two53) ltac:(done)) as H.
  apply N2Z.inj_lt in H. change (Z.of_N (N.pos two53)) with (Z.pos two53) in H.
  pose proof (N2Z.is_nonneg (r `mod` N.pos two53)).
  split; lia.
Qed.

Lemma random_samples_ok n : ∀ g (b : B),
  ∃ us g', random_samples n {| np_random := g; self := b |}
           = (Ok us, {| np_random := g'; self := b |}) ∧
           length us = n ∧ Forall unit_interval us.
Proof.
  induction n as [|n IH]; intros g b.
  - exists [], g. by repeat split.
  - destruct (IH (next_raw g).2 b) as (us & g' & H & Hlen & Hall).
    exists (unit_of_raw (tape g (cursor g)) :: us), g'.
    split; [|split; [simpl; lia|constructor; [apply unit_of_raw_range|done]]].
    simpl random_samples. unfold random_sample, raw, next_raw in *.
    mstep. cbn in *. by rewrite H.
Qed.

Lemma randints_ok low high n : ∀ g (b : B),
  (low < high)%Z →
  ∃ inds g', randints low high n {| np_random := g; self := b |}
             = (Ok inds, {| np_random := g'; self := b |}) ∧
             length inds = n ∧ Forall (λ i, (low ≤ i < high)%Z) inds.
Proof.
  intros g b Hlt. revert g. induction n as [|n IH]; intros g.
  - exists [], g. by repeat split.
  - destruct (IH (next_raw g).2) as (inds & g' & H & Hlen & Hall).
    exists ((low + Z.of_N (tape g (cursor g)) `mod` (high - low))%Z :: inds), g'.
    split; [|split; [simpl; lia|constructor; [|done]]].
    + simpl randints. unfold randint, randint_of, raw, next_raw in *.
      destruct (Z.ltb_spec low high); [|lia].
      mstep. cbn in *. destruct (Z.ltb_spec low high); [|lia]. by rewrite H.
    + pose proof (Z.mod_pos_bound (Z.of_N (tape g (cursor g))) (high - low)). lia.
Qed.

Lemma randints_empty_range low high n w :
  n ≠ 0 → (high ≤ low)%Z → randints (B := B) low high n w = (Raise ValueError, w).
Proof.
  intros Hn Hle. destruct n; [done|]. simpl. unfold randint.
  by destruct (Z.ltb_spec low high); [lia|].
Qed.

(** With [size = 0] nothing is drawn and the range is not looked at. *)
Lemma randints_zero low high w : randints (B := B) low high 0 w = (Ok [], w).
Proof. done. Qed.
End RandomFacts.

(** * Lazy mode: the plan of a batch *)
Section LazyPlan.
Context `{E : GoalEnv}.
Import Lazy.

Lemma Qnat_nonneg n : (0 <= Qnat n)%Q.
Proof. unfold Qnat, Qle. simpl. lia. Qed.

Lemma Qnat_ge_1 n : 1 ≤ n → (1 <= Qnat n)%Q.
Proof. unfold Qnat, Qle. simpl. lia. Qed.

(** The time step drawn for an episode of [L] steps: it is never
    negative, and from [L ≥ 1] on it lies in [1 .. L]. *)
Lemma timestep_nonneg L u :
  unit_interval u → (0 ≤ Qfloor (uniform_of (Qnat L) 1 u))%Z.
Proof.
  intros [H0 H1]. pose proof (Qnat_nonneg L). unfold uniform_of.
  apply (Qfloor_resp_le 0). nra.
Qed.

Lemma timestep_range L u :
  1 ≤ L → unit_interval u →
  (1 ≤ Qfloor (uniform_of (Qnat L) 1 u) ≤ Z.of_nat L)%Z.
Proof.
  intros HL [H0 H1]. pose proof (Qnat_ge_1 L HL). unfold uniform_of. split.
  - apply (Qfloor_resp_le 1). nra.
  - pose proof (Qfloor_resp_le (Qnat L + (1 - Qnat L) * u) (Qnat L) ltac:(nra)) as Hle.
    unfold Qnat in Hle at 3. by rewrite Qfloor_Z in Hle.
Qed.

(** The offset of the future time step, for a time step [t ≤ L]. *)
Lemma future_offset_range L t u :
  (t ≤ Z.of_nat L)%Z → unit_interval u →
  (0 ≤ astype_int (u * (Qnat L - inject_Z t)) ∧
   (t < Z.of_nat L → astype_int (u * (Qnat L - inject_Z t)) < Z.of_nat L - t))%Z.
Proof.
  intros Ht [H0 H1].
  assert (Hd : (0 <= Qnat L - inject_Z t)%Q).
  { unfold Qnat, Qle, Qminus, Qplus, Qopp, inject_Z. simpl. lia. }
  assert (Hx : (0 <= u * (Qnat L - inject_Z t))%Q) by nra.
  unfold astype_int. apply Qle_bool_iff in Hx as Hb. rewrite Hb. split.
  - by apply (Qfloor_resp_le 0).
  - intros Hlt.
    assert (Hlt' : (u * (Qnat L - inject_Z t) < inject_Z (Z.of_nat L - t))%Q).
    { unfold Z.sub. rewrite inject_Z_plus, inject_Z_opp. fold (Qnat L).
      assert (0 < Qnat L - inject_Z t)%Q.
      { unfold Qnat, Qlt, Qminus, Qplus, Qopp, inject_Z. simpl. lia. }
      nra. }
    pose proof (Qfloor_le (u * (Qnat L - inject_Z t))) as Hfl.
    apply Z.nle_gt. intros Hge. rewrite Zle_Qle in Hge.
    eapply Qlt_not_le; [exact Hlt'|]. by eapply Qle_trans.
Qed.

Lemma draw_plan_ok p maxs n g b :
  length maxs = n →
  ∃ u1 u2 u3 g',
    draw_plan p maxs n {| np_random := g; self := b |}
    = (Ok {| timestep_inds :=
               zip_with (λ low u, Qfloor (uniform_of (Qnat low) 1 u)) maxs u1;
             her := (λ u, Qltb u p) <$> u2;
             future_t :=
               zip_with (λ t o, (t + 1 + o)%Z)
                 (zip_with (λ low u, Qfloor (uniform_of (Qnat low) 1 u)) maxs u1)
                 (zip_with (λ u d, astype_int (u * d)%Q) u3
                    (zip_with (λ m t, (Qnat m - inject_Z t)%Q) maxs
                       (zip_with (λ low u, Qfloor (uniform_of (Qnat low) 1 u)) maxs u1))) |},
       {| np_random := g'; self := b |}) ∧
    length u1 = n ∧ length u2 = n ∧ length u3 = n ∧
    Forall unit_interval u1 ∧ Forall unit_interval u2 ∧ Forall unit_interval u3.
Proof.
  intros Hlen.
  destruct (random_samples_ok n g b) as (u1 & g1 & H1 & Hl1 & Ha1).
  destruct (random_samples_ok n g1 b) as (u2 & g2 & H2 & Hl2 & Ha2).
  destruct (random_samples_ok n g2 b) as (u3 & g3 & H3 & Hl3 & Ha3).
  exists u1, u2, u3, g3. split; [|done].
  unfold draw_plan. erewrite bind_ok by exact H1.
  erewrite bind_ok by exact H2. erewrite bind_ok by exact H3. done.
Qed.
End LazyPlan.

(** * Indexing with arrays *)
Section Indexing.
Context {A : Type}.

Lemma getitems_lookup (a : list A) inds xs :
  getitems a inds = Ok xs →
  length xs = length inds ∧
  ∀ i x, xs !! i = Some x → ∃ ind, inds !! i = Some ind ∧ getitem a ind = Ok x.
Proof.
  revert xs. induction inds as [|ind inds IH]; intros xs; simpl.
  - intros [= <-]. split; [done|]. intros i x Hx. done.
  - destruct (getitem a ind) as [y|e] eqn:Hy; [|done].
    destruct (getitems a inds) as [ys|e]; [|done]. intros [= <-].
    destruct (IH ys eq_refl) as [Hlen Hall]. split; [simpl; lia|].
    intros [|i] x Hx; simplify_eq/=; eauto.
Qed.

Lemma getitems_Ok (a : list A) inds :
  Forall (λ i, (0 ≤ i < Z.of_nat (length a))%Z) inds →
  ∃ xs, getitems a inds = Ok xs.
Proof.
  induction 1 as [|ind inds Hind _ [xs IH]]; [by exists []|].
  destruct (lookup_lt_is_Some_2 a (Z.to_nat ind) ltac:(lia)) as [x Hx].
  exists (x :: xs). simpl. rewrite IH.
  rewrite <- (Z2Nat.id ind) by lia. by rewrite (getitem_nat _ _ _ Hx).
Qed.

Lemma pick_lookup (a : list (list A)) inds xs :
  Lazy.pick a inds = Ok xs →
  length a = length inds ∧ length xs = length inds ∧
  ∀ i x, xs !! i = Some x →
    ∃ row ind, a !! i = Some row ∧ inds !! i = Some ind ∧ getitem row ind = Ok x.
Proof.
  revert inds xs. induction a as [|row a IH]; intros [|ind inds] xs; simpl; try done.
  - intros [= <-]. repeat split. intros i x Hx. done.
  - destruct (getitem row ind) as [y|e] eqn:Hy; [|done].
    destruct (Lazy.pick a inds) as [ys|e] eqn:Hp; [|done]. intros [= <-].
    destruct (IH inds ys Hp) as (Hl1 & Hl2 & Hall).
    split; [lia|]. split; [simpl; lia|].
    intros [|i] x Hx; simplify_eq/=; eauto.
Qed.

Lemma getitem_fmap {C} (f : A → C) (l : list A) i y :
  getitem (f <$> l) i = Ok y → ∃ x, getitem l i = Ok x ∧ y = f x.
Proof.
  unfold getitem. rewrite length_fmap. case_match; [|done].
  rewrite list_lookup_fmap. destruct (l !! _) as [x|]; [|done].
  simpl. intros [= <-]. eauto.
Qed.

Lemma getitem_drop1 (l : list A) t x :
  (0 ≤ t)%Z → getitem (drop 1 l) t = Ok x → getitem l (t + 1) = Ok x.
Proof.
  intros Ht Hg. apply getitem_nonneg in Hg; [|done].
  rewrite lookup_drop in Hg.
  replace (1 + Z.to_nat t) with (Z.to_nat (t + 1)) in Hg by lia.
  rewrite <- (Z2Nat.id (t + 1)) by lia. by apply getitem_nat.
Qed.
End Indexing.

(** * Lazy mode: the rows of a batch *)
Section LazyRows.
Context `{E : GoalEnv}.
Import Lazy.

Lemma substitute_lookup hs fs rows rows' :
  substitute hs fs rows = Ok rows' →
  ∀ i row', rows' !! i = Some row' →
    ∃ h f row, hs !! i = Some h ∧ fs !! i = Some f ∧ rows !! i = Some row ∧
               substitute_row h f row = Ok row'.
Proof.
  revert fs rows rows'.
  induction hs as [|h hs IH]; intros [|f fs] [|row rows] rows'; simpl;
    try (intros [= <-] i row' Hi; done).
  destruct (substitute_row h f row) as [r|e] eqn:Hr; [|done].
  destruct (substitute hs fs rows) as [rs|e] eqn:Hs; [|done].
  intros [= <-] [|i] row' Hi; simplify_eq/=.
  - by exists h, f, row.
  - by apply (IH fs rows rs).
Qed.

Lemma assemble_row b inds plan env s i :
  assemble b inds plan env = Ok s →
  Forall (λ t, (0 ≤ t)%Z) (timestep_inds plan) →
  i < length (s_rewards s) →
  ∃ v, row_of b inds plan env s i v.
Proof.
  unfold assemble. intros Has Hnn Hi.
  destruct (getitems (observations b) inds) as [episodes|] eqn:Hep; [|done].
  destruct (substitute _ _ _) as [dicts|] eqn:Hsub; [|done].
  destruct (pick _ (timestep_inds plan)) as [o|] eqn:Ho; [|done].
  destruct (getitems (actions b) inds) as [acts|] eqn:Hacts; [|done].
  destruct (pick acts _) as [a|] eqn:Ha; [|done].
  destruct (pick _ (_ <$> timestep_inds plan)) as [o'|] eqn:Ho'; [|done].
  destruct (getitems (dones b) inds) as [ds|] eqn:Hds; [|done].
  destruct (pick ds _) as [d|] eqn:Hd; [|done].
  match type of Has with
  | match ?x with Ok _ => _ | Raise _ => _ end = _ =>
      destruct x as [r|] eqn:Hr; [|done]
  end.
  injection Has as <-. cbn [s_observations s_actions s_next_observations
    s_dones s_rewards] in *.
  unfold _normalize_reward, _normalize_obs in *. rewrite length_fmap in Hi.
  destruct (pick_lookup _ _ _ Hr) as (Hlr1 & Hlr2 & Hrall).
  destruct (pick_lookup _ _ _ Ho) as (Hlo1 & Hlo2 & Hoall).
  destruct (pick_lookup _ _ _ Ho') as (Hlo'1 & Hlo'2 & Ho'all).
  destruct (pick_lookup _ _ _ Ha) as (Hla1 & Hla2 & Haall).
  destruct (pick_lookup _ _ _ Hd) as (Hld1 & Hld2 & Hdall).
  rewrite length_fmap in Hlo'2.
  destruct (lookup_lt_is_Some_2 r i Hi) as [ri Hri].
  destruct (lookup_lt_is_Some_2 o i ltac:(lia)) as [oi Hoi].
  destruct (lookup_lt_is_Some_2 o' i ltac:(lia)) as [o'i Ho'i].
  destruct (lookup_lt_is_Some_2 a i ltac:(lia)) as [ai Hai].
  destruct (lookup_lt_is_Some_2 d i ltac:(lia)) as [di Hdi].
  destruct (Hrall _ _ Hri) as (rrow & t & Hrrow & Ht & Hrg).
  destruct (Hoall _ _ Hoi) as (orow & t1 & Horow & Ht1 & Hog).
  destruct (Ho'all _ _ Ho'i) as (orow' & t2 & Horow' & Ht2 & Ho'g).
  destruct (Haall _ _ Hai) as (arow & t3 & Harow & Ht3 & Hag).
  destruct (Hdall _ _ Hdi) as (drow & t4 & Hdrow & Ht4 & Hdg).
  rewrite list_lookup_fmap, Ht in Ht2.
  rewrite list_lookup_fmap in Hrrow. rewrite list_lookup_fmap in Horow.
  rewrite list_lookup_fmap in Horow'.
  destruct (dicts !! i) as [row'|] eqn:Hrow'; [|done].
  destruct (substitute_lookup _ _ _ _ Hsub _ _ Hrow') as (h & f & row & Hh & Hf & Hrow & Hsr).
  rewrite list_lookup_fmap in Hrow.
  destruct (episodes !! i) as [so|] eqn:Hso; [|done].
  destruct (getitems_lookup _ _ _ Hep) as [_ Hepall].
  destruct (Hepall _ _ Hso) as (ep & Hepi & Hgo).
  destruct (getitems_lookup _ _ _ Hacts) as [_ Hactsall].
  destruct (Hactsall _ _ Harow) as (ep' & Hepi' & Hga).
  destruct (getitems_lookup _ _ _ Hds) as [_ Hdsall].
  destruct (Hdsall _ _ Hdrow) as (ep'' & Hepi'' & Hgd).
  cbn in Ht2, Hrrow, Horow, Horow', Hrow.
  assert (0 ≤ t)%Z as Htn by (by eapply (Forall_lookup_1 _ _ _ _ Hnn)).
  simplify_eq.
  apply getitem_drop1 in Hrg; [|done].
  apply getitem_fmap in Hrg as (dn & Hdn & ->).
  apply getitem_fmap in Hog as (dob & Hdob & ->).
  apply getitem_fmap in Ho'g as (dn' & Hdn' & ->).
  rewrite Hdn in Hdn'. injection Hdn' as <-.
  exists {| rv_episode := ep; rv_t := t; rv_her := h; rv_future_t := f;
            rv_slot_obs := so; rv_slot_dones := drow; rv_slot_actions := arow;
            rv_dicts := row'; rv_obs_dict := dob; rv_next_dict := dn |}.
  unfold row_of. cbn.
  rewrite !list_lookup_fmap, Hoi, Ho'i, Hri. cbn.
  repeat split; eauto.
Qed.

Lemma draw_plan_for p maxs g b :
  ∃ plan g',
    draw_plan p maxs (length maxs) {| np_random := g; self := b |}
    = (Ok plan, {| np_random := g'; self := b |}) ∧
    plan_for maxs plan.
Proof.
  destruct (draw_plan_ok p maxs (length maxs) g b eq_refl)
    as (u1 & u2 & u3 & g' & Hp & Hl1 & Hl2 & Hl3 & Ha1 & Ha2 & Ha3).
  eexists _, g'. split; [exact Hp|]. unfold plan_for.
  cbn [timestep_inds her future_t].
  rewrite !length_zip_with, length_fmap. split; [lia|]. split; [lia|]. split; [lia|].
  intros i L HL.
  pose proof (lookup_lt_Some _ _ _ HL) as Hi.
  destruct (lookup_lt_is_Some_2 u1 i ltac:(lia)) as [x1 Hx1].
  destruct (lookup_lt_is_Some_2 u3 i ltac:(lia)) as [x3 Hx3].
  exists x1, x3.
  split; [by eapply (Forall_lookup_1 _ _ _ _ Ha1)|].
  split; [by eapply (Forall_lookup_1 _ _ _ _ Ha3)|].
  by rewrite !lookup_zip_with, HL, Hx1, Hx3.
Qed.

Lemma plan_for_nonneg maxs plan :
  plan_for maxs plan → Forall (λ t, (0 ≤ t)%Z) (timestep_inds plan).
Proof.
  intros (Hl1 & Hl2 & Hl3 & Hrows). apply Forall_lookup_2. intros i t Ht.
  pose proof (lookup_lt_Some _ _ _ Ht) as Hi.
  destruct (lookup_lt_is_Some_2 maxs i ltac:(lia)) as [L HL].
  destruct (Hrows i L HL) as (u1 & u3 & Hu1 & Hu3 & Ht' & _).
  rewrite Ht in Ht'. injection Ht' as ->. by apply timestep_nonneg.
Qed.

(** A batch that [_get_samples] returns was assembled from the plan that
    [draw_plan] draws, in the state of the call, for the recorded lengths
    of the sampled episodes; the buffer is as it was. *)
Lemma get_samples_inv inds env g b s w' :
  _get_samples inds env {| np_random := g; self := b |} = (Ok s, w') →
  goal_selection_strategy b = FUTURE ∧
  ∃ maxs plan,
    getitems (n_episode_steps b) inds = Ok maxs ∧
    draw_plan (future_p b) maxs (length inds) {| np_random := g; self := b |}
    = (Ok plan, w') ∧
    self w' = b ∧
    plan_for maxs plan ∧
    assemble b inds plan env = Ok s.
Proof.
  unfold _get_samples. rewrite get_self_bind. intros Hs.
  destruct (goal_selection_strategy b) eqn:Hstrat; try done.
  apply bind_inv_ok in Hs as (p & w1 & Hp & Hs). injection Hp as <- <-.
  apply bind_inv_ok in Hs as (maxs & w1 & Hm & Hs).
  unfold lift in Hm. injection Hm as Hm <-.
  destruct (getitems_lookup _ _ _ Hm) as [Hlen _]. rewrite <- Hlen in Hs |- *.
  destruct (draw_plan_for (future_p b) maxs g b) as (plan & g' & Hplan & Hfor).
  erewrite bind_ok in Hs by exact Hplan. unfold lift in Hs.
  injection Hs as Hs <-. split; [done|]. by exists maxs, plan.
Qed.

(** With a strategy other than [FUTURE], [_get_samples] raises before it
    reads or draws anything. *)
Lemma get_samples_not_future inds env w :
  goal_selection_strategy (self w) ≠ FUTURE →
  _get_samples inds env w = (Raise NotImplementedError, w).
Proof.
  intros Hs. unfold _get_samples. destruct w as [g b]. rewrite get_self_bind.
  cbn [self] in Hs. by destruct (goal_selection_strategy b).
Qed.
End LazyRows.

(** * Eager mode: what one episode writes *)
Section EagerEpisode.
Context `{E : GoalEnv}.
Import Eager.

Lemma write_pos t b :
  wf b → pos (write t b) = (pos b + 1) `mod` buffer_size b.
Proof.
  intros (_ & _ & _ & _ & _ & Hp). unfold write. cbn [pos].
  case_bool_decide as Hw.
  - rewrite Hw. by rewrite Nat.Div0.mod_same.
  - rewrite Nat.mod_small; lia.
Qed.

Lemma writes_pos ws : ∀ b,
  wf b → pos (writes ws b) = (pos b + length ws) `mod` buffer_size b.
Proof.
  induction ws as [|t ws IH]; intros b Hwf.
  - destruct Hwf as (_ & _ & _ & _ & _ & Hp). simpl.
    rewrite Nat.add_0_r, Nat.mod_small; lia.
  - simpl writes. rewrite IH by by apply write_wf.
    rewrite write_pos by done. cbn [buffer_size write length].
    rewrite Nat.Div0.add_mod_idemp_l. f_equal. lia.
Qed.

Lemma interleave_length l : ∀ rels,
  length rels = length l →
  length (interleave l rels) = length l + sum_list_with length rels.
Proof.
  induction l as [|t l IH]; intros [|rel rels] Hlen; try done.
  injection Hlen as Hlen.
  rewrite interleave_cons, length_app, IH by done. simpl. lia.
Qed.

Lemma sum_lengths_const {A} (rels : list (list A)) n :
  Forall (λ rel, length rel = n) rels →
  sum_list_with length rels = length rels * n.
Proof. induction 1 as [|rel rels Hrel _ IH]; [done|]. simpl. lia. Qed.

(** Under [FUTURE] the artificial transitions number [n] for every step
    but the last. *)
Lemma sum_lengths_future {A} (rels : list (list A)) n :
  (∀ i rel, rels !! i = Some rel →
            length rel = if decide (i = length rels - 1) then 0 else n) →
  sum_list_with length rels = (length rels - 1) * n.
Proof.
  destruct rels as [|r0 rels0] using rev_ind; [done|]. clear IHrels0. intros Hall.
  rewrite sum_list_with_app, length_app. simpl.
  assert (length r0 = 0) as ->.
  { rewrite (Hall (length rels0) r0).
    - rewrite length_app. simpl. rewrite decide_True; lia.
    - by rewrite lookup_app_r, Nat.sub_diag by done. }
  rewrite (sum_lengths_const rels0 n).
  - lia.
  - apply Forall_lookup_2. intros i rel Hi.
    pose proof (lookup_lt_Some _ _ _ Hi) as Hlt.
    rewrite (Hall i rel).
    + rewrite length_app. simpl. rewrite decide_False; lia.
    + by rewrite lookup_app_l.
Qed.

(** What [_store_episode] writes, whatever the strategy and whether it
    raises or not: the first [m] raw transitions, each followed by
    artificial transitions made from it by [relabelled]. *)
Lemma store_episode_writes g b :
  wf b →
  ∃ o g' m rels,
    _store_episode {| np_random := g; self := b |}
    = (o, {| np_random := g';
             self := writes (interleave (take m (episode_transitions b)) rels) b |}) ∧
    length rels = m ∧ m ≤ length (episode_transitions b) ∧
    ∀ i t rel, episode_transitions b !! i = Some t → rels !! i = Some rel →
      Forall (λ r, ∃ goal,
                goal_source (goal_selection_strategy b) (episode_transitions b) i goal ∧
                r = relabelled t goal) rel.
Proof.
  intros Hwf.
  destruct (decide (goal_selection_strategy b = RANDOM ∧ n_sampled_goal b ≠ 0))
    as [[Hr Hn]|Hd].
  - destruct (episode_transitions b) as [|t l] eqn:Hep.
    + exists (Ok tt), g, 0, []. unfold _store_episode.
      rewrite get_self_bind, Hep. split_and!; [done..|]. intros i t rel Hi. done.
    + exists (Raise NotImplementedError), g, 1, [[]].
      rewrite (store_episode_random g b t l) by done.
      split_and!; [done|done|simpl; lia|].
      intros [|i] t' rel Ht' Hrel; simplify_eq/=. constructor.
  - assert (draws_goals b) as Hdg.
    { intros Hr. destruct (decide (n_sampled_goal b = 0)); [done|]. by destruct Hd. }
    destruct (store_episode_ok g b Hwf Hdg) as (g' & rels & Hst & Hlen & Hall).
    exists (Ok tt), g', (length (episode_transitions b)), rels.
    rewrite firstn_all. split_and!; [done..|].
    intros i t rel Ht Hrel. specialize (Hall i t rel Ht Hrel).
    unfold artificial_of in Hall. case_match; [by subst|]. by destruct Hall.
Qed.

(** The fields of an artificial transition. *)
Lemma relabelled_fields t goal :
  t_obs (relabelled t goal)
  = convert_dict_to_obs (set_desired_goal goal (convert_obs_to_dict (t_obs t))) ∧
  t_next_obs (relabelled t goal)
  = convert_dict_to_obs (set_desired_goal goal (convert_obs_to_dict (t_next_obs t))) ∧
  t_action (relabelled t goal) = t_action t ∧
  t_reward (relabelled t goal)
  = compute_reward (achieved_goal (convert_obs_to_dict (t_next_obs t))) goal ∧
  t_done (relabelled t goal) = false.
Proof. by destruct t. Qed.

Lemma add_not_done g b o o' a r :
  add o o' a r false {| np_random := g; self := b |}
  = (Ok tt, {| np_random := g;
               self := set_episode_transitions
                         (episode_transitions b ++ [Build_Transition _ o o' a r false]) b |}).
Proof. done. Qed.

Lemma add_done g b o o' a r :
  add o o' a r true {| np_random := g; self := b |}
  = (_store_episode;; b' ← get_self; set_self (set_episode_transitions [] b'))
      {| np_random := g;
         self := set_episode_transitions
                   (episode_transitions b ++ [Build_Transition _ o o' a r true]) b |}.
Proof. done. Qed.
End EagerEpisode.

(** * Properties of the two modes *)

(** ** C2: the number of transitions one episode stores *)

(** C2. In eager mode with strategy [future], [_store_episode] on a
    well-formed buffer whose accumulator holds an episode of [L >= 1]
    transitions raises nothing and performs exactly [(L-1) * n_sampled_goal
    + L] writes: every raw transition, followed by [n_sampled_goal]
    artificial ones for every transition but the last and by none for the
    last.  The write position advances by that many slots, modulo the
    capacity. *)
Theorem eager_future_episode_count `{E : GoalEnv} (g : Rng) (b : Eager.Buffer) :
  Eager.wf b →
  Eager.goal_selection_strategy b = FUTURE →
  Eager.episode_transitions b ≠ [] →
  let ts := Eager.episode_transitions b in
  let L := length ts in
  let n := Eager.n_sampled_goal b in
  ∃ g' rels,
    Eager._store_episode {| np_random := g; self := b |}
    = (Ok tt, {| np_random := g';
                 self := Eager.writes (Eager.interleave ts rels) b |}) ∧
    length rels = L ∧
    (∀ i rel, rels !! i = Some rel →
              length rel = if decide (i = L - 1) then 0 else n) ∧
    length (Eager.interleave ts rels) = (L - 1) * n + L ∧
    Eager.pos (Eager.writes (Eager.interleave ts rels) b)
    = (Eager.pos b + ((L - 1) * n + L)) `mod` Eager.buffer_size b.
Proof.
  intros Hwf Hfut Hne ts L n.
  destruct (store_episode_ok g b Hwf) as (g' & rels & Hst & Hlen & Hall).
  { intros Hr. congruence. }
  assert (Hlens : ∀ i rel, rels !! i = Some rel →
            length rel = if decide (i = L - 1) then 0 else n).
  { intros i rel Hrel. pose proof (lookup_lt_Some _ _ _ Hrel) as Hlt.
    destruct (lookup_lt_is_Some_2 ts i ltac:(unfold ts; lia)) as [t Ht].
    specialize (Hall i t rel Ht Hrel). unfold Eager.artificial_of in Hall.
    rewrite Hfut in Hall.
    rewrite (bool_decide_eq_true_2 (FUTURE = FUTURE) eq_refl), andb_true_r in Hall.
    fold ts L in Hall.
    destruct (decide (i = L - 1)) as [Hi|Hi].
    - rewrite bool_decide_eq_true_2 in Hall by done. by subst rel.
    - rewrite bool_decide_eq_false_2 in Hall by done. by destruct Hall. }
  assert (Hcount : length (Eager.interleave ts rels) = (L - 1) * n + L).
  { rewrite interleave_length by done.
    rewrite (sum_lengths_future rels n); [rewrite Hlen; unfold L, ts; lia|].
    intros i rel Hrel. rewrite Hlen. by apply Hlens. }
  exists g', rels. split_and!; try done.
  rewrite writes_pos by done. by rewrite Hcount.
Qed.

Lemma eager_future_episode_count_witness :
  Eager.wf (Examples.eager_pending (Examples.walk 0 5) 100 5 key_future 4) ∧
  Eager.goal_selection_strategy
    (Examples.eager_pending (Examples.walk 0 5) 100 5 key_future 4) = FUTURE ∧
  Eager.episode_transitions
    (Examples.eager_pending (Examples.walk 0 5) 100 5 key_future 4) ≠ [] ∧
  ∃ g' rels,
    Eager._store_episode
      {| np_random := Examples.counting;
         self := Examples.eager_pending (Examples.walk 0 5) 100 5 key_future 4 |}
    = (Ok tt,
       {| np_random := g';
          self := Eager.writes (Eager.interleave (Examples.walk 0 5) rels)
                    (Examples.eager_pending (Examples.walk 0 5) 100 5 key_future 4) |}) ∧
    length (Eager.interleave (Examples.walk 0 5) rels) = 21.
Proof.
  assert (Hwf : Eager.wf (Examples.eager_pending (Examples.walk 0 5) 100 5 key_future 4))
    by (unfold Eager.wf; split_and!; try reflexivity; cbn; lia).
  assert (Hne : Eager.episode_transitions
                  (Examples.eager_pending (Examples.walk 0 5) 100 5 key_future 4) ≠ [])
    by discriminate.
  split; [exact Hwf|]. split; [reflexivity|]. split; [exact Hne|].
  destruct (eager_future_episode_count Examples.counting _ Hwf eq_refl Hne)
    as (g' & rels & Hst & _ & _ & Hcount & _).
  exists g', rels. split; [exact Hst|exact Hcount].
Defined.

(** The spec's scenario: a buffer of 100 slots, an episode of 5 steps and
    4 sampled goals; 21 slots are written and the write position is 21. *)
Example eager_scenario_21 :
  let w := (Examples.eager_walk 0 5
              (Examples.eager_world 100 5 key_future 4 Examples.counting)).2 in
  Eager.pos (self w) = 21 ∧ Eager.full (self w) = false ∧
  Eager.episode_transitions (self w) = [] ∧
  Eager.slot (self w) 20 = Some (Examples.move 4 true) ∧
  Eager.slot (self w) 21
  = Some {| t_obs := zero_obs; t_next_obs := zero_obs; t_action := zero_action;
            t_reward := zero_reward; t_done := false |}.
Proof. vm_compute. done. Qed.

(** ** C7: a malformed episode *)

(** C7. In per-episode mode, [_add_transition] called with an observation
    array of fewer than two axes raises the episode-shape exception and
    leaves the whole state as it was: [pos], [full], [n_episode_steps] and
    every storage row. *)
Theorem lazy_malformed_episode_rejected `{E : GoalEnv}
    (obs next_obs : ndarray Obs) (action : list Action) (reward : list Reward)
    (done : list bool) (w : World Lazy.Buffer) :
  ndim_ge_2 obs = false →
  Lazy._add_transition obs next_obs action reward done w
  = (Raise EpisodeShapeError, w).
Proof. apply add_transition_low_dim. Qed.

Lemma lazy_malformed_episode_rejected_witness :
  ndim_ge_2 (nd1 (A := @Obs Examples.line_env) [1%Q; 2%Q]) = false ∧
  Lazy._add_transition (E := Examples.line_env) (nd1 [1%Q; 2%Q]) (nd1 [2%Q; 3%Q])
    [0%Z; 1%Z] [(-1)%Z; (-1)%Z] [false; true]
    (Examples.lazy_world 4 2 key_future 4 Examples.halves)
  = (Raise EpisodeShapeError, Examples.lazy_world 4 2 key_future 4 Examples.halves).
Proof.
  split; [reflexivity|].
  apply (lazy_malformed_episode_rejected (E := Examples.line_env)). reflexivity.
Defined.

(** ** C3: the ring buffer *)

(** C3 as stated fails at [k = C]: the write that fills the last slot
    already wraps [pos] and sets [full].  A buffer of one slot is full
    after one write. *)
Lemma ring_full_at_capacity_counterexample :
  ¬ (∀ b, Eager.fill [Examples.move 0 true]
            (Examples.eager_world 1 1 key_future 4 Examples.counting)
          = (Ok tt, {| np_random := Examples.counting; self := b |}) →
          Eager.full b = false).
Proof.
  intros H. specialize (H _ eq_refl). vm_compute in H. discriminate.
Qed.

(** C3 (amended). For a capacity [C >= 1] ([C = buffer_size] in flat mode,
    [C = buffer_size // max_episode_len] in per-episode mode), [k] writes
    into a fresh buffer all succeed, and afterwards [pos = k mod C], which
    lies in [0, C) and is the next slot written, [full] holds exactly when
    [k >= C], and each of the last [min k C] writes, number [w], is held by
    slot [w mod C].  In per-episode mode an episode fits when it has
    between 1 and [max_episode_len] steps, and a slot holds an episode by
    its recorded length and the episode's rows at the start of the slot. *)
Theorem ring_invariant_both_modes `{E : GoalEnv}
    (buffer_size max_episode_len : nat) (key : strategy_key) (n : nat) (g : Rng) :
  0 < max_episode_len → max_episode_len ≤ buffer_size →
  (∀ ts : list Transition,
     ∃ b, Eager.fill ts
            {| np_random := g;
               self := Eager.__init__ buffer_size max_episode_len key n |}
          = (Ok tt, {| np_random := g; self := b |}) ∧
          Eager.pos b = length ts `mod` buffer_size ∧
          Eager.pos b < buffer_size ∧
          Eager.full b = bool_decide (buffer_size ≤ length ts) ∧
          ∀ w, w < length ts → length ts ≤ w + buffer_size →
               Eager.slot b (w `mod` buffer_size) = ts !! w) ∧
  (∃ b0, Lazy.__init__ buffer_size max_episode_len key n = Ok b0 ∧
     ∀ eps : list (list Transition),
       Forall (λ ts, ts ≠ [] ∧ length ts ≤ max_episode_len) eps →
       ∃ b, Lazy.fill eps {| np_random := g; self := b0 |}
            = (Ok tt, {| np_random := g; self := b |}) ∧
            let C := buffer_size / max_episode_len in
            Lazy.pos b = length eps `mod` C ∧
            Lazy.pos b < C ∧
            Lazy.full b = bool_decide (C ≤ length eps) ∧
            ∀ w ts, w < length eps → length eps ≤ w + C →
                    eps !! w = Some ts → Lazy.holds b (w `mod` C) ts).
Proof.
  intros Hm Hle. split.
  - intros ts.
    pose proof (ring_init buffer_size max_episode_len key n ltac:(lia)) as Hinit.
    pose proof (ring_writes _ _ ts Hinit) as (Hwf & Hpos & Hfull & Hslots).
    destruct (writes_frame ts (Eager.__init__ buffer_size max_episode_len key n))
      as (Hbs & _).
    rewrite Hbs in Hpos, Hfull, Hslots. cbn [Eager.buffer_size Eager.__init__] in *.
    exists (Eager.writes ts (Eager.__init__ buffer_size max_episode_len key n)).
    split_and!; try done.
    + apply run_stores. by destruct Hinit.
    + destruct Hwf as (_ & _ & _ & _ & _ & Hp). by rewrite Hbs in Hp.
  - destruct (Lazy.__init__ buffer_size max_episode_len key n) as [b0|e] eqn:Hb0;
      [|unfold Lazy.__init__, floordiv in Hb0; by rewrite decide_False in Hb0 by lia].
    exists b0. split; [done|]. intros eps Hfit.
    pose proof (lazy_ring_init _ _ _ _ _ Hle Hb0) as Hinit.
    assert (Hcap : Lazy.capacity b0 = buffer_size / max_episode_len ∧
                   Lazy.max_episode_len b0 = max_episode_len).
    { unfold Lazy.__init__ in Hb0. destruct (floordiv _ _); [|done].
      by injection Hb0 as <-. }
    destruct Hcap as [Hcap HM].
    assert (Hfit' : Forall (Lazy.fits b0) eps).
    { eapply Forall_impl; [exact Hfit|]. intros ts [? ?]. split; [done|]. by rewrite HM. }
    pose proof (lazy_ring_writes eps b0 [] Hinit Hfit') as (Hwf & Hpos & Hfull & Hslots).
    assert (Hc : Lazy.capacity (Lazy.writes eps b0) = buffer_size / max_episode_len).
    { rewrite <- Hcap. clear. revert b0.
      induction eps as [|ts eps IH]; intros b0; [done|]. simpl. by rewrite IH. }
    rewrite Hc in Hpos, Hfull, Hslots. cbn [app] in *.
    exists (Lazy.writes eps b0). split_and!; try done.
    + apply lazy_run_stores; [by destruct Hinit|done].
    + destruct Hwf as (_ & _ & _ & _ & _ & _ & _ & _ & _ & _ & Hp). by rewrite Hc in Hp.
Qed.

Lemma ring_invariant_both_modes_witness :
  0 < 2 ∧ 2 ≤ 4 ∧
  (∃ b, Eager.fill (Examples.walk 0 5)
          (Examples.eager_world 4 2 key_future 4 Examples.counting)
        = (Ok tt, {| np_random := Examples.counting; self := b |}) ∧
        Eager.pos b = 1 ∧ Eager.full b = true ∧
        Eager.slot b 0 = Some (Examples.move 4 true)).
Proof.
  split; [lia|]. split; [lia|].
  destruct (ring_invariant_both_modes (E := Examples.line_env) 4 2 key_future 4
              Examples.counting ltac:(lia) ltac:(lia)) as [Heager _].
  destruct (Heager (Examples.walk 0 5)) as (b & Hfill & Hpos & _ & Hfull & Hslots).
  exists b. split; [exact Hfill|]. split; [exact Hpos|]. split; [exact Hfull|].
  exact (Hslots 4 ltac:(simpl; lia) ltac:(simpl; lia)).
Defined.

(** ** C10: the failure of [add] under [random] is not atomic *)

(** C10 as stated fails when no goal is asked for: with [n_sampled_goal =
    0] the strategy is never consulted, nothing raises, and the
    accumulator is cleared. *)
Lemma eager_random_without_goals_counterexample :
  ¬ ((Examples.eager_walk 0 1
        (Examples.eager_world 4 2 key_random 0 Examples.counting)).1
     = Raise NotImplementedError ∧
     Eager.episode_transitions
       (self (Examples.eager_walk 0 1
                (Examples.eager_world 4 2 key_random 0 Examples.counting)).2)
     ≠ []).
Proof. vm_compute. intros [H _]. discriminate. Qed.

(** ** C6: the strategies other than [future] *)

(** C6 as stated fails in eager mode: [final] and [episode] are implemented
    there.  Storing a walk of two steps under [final] raises nothing. *)
Lemma eager_final_is_implemented_counterexample :
  ¬ ((Examples.eager_walk 0 2
        (Examples.eager_world 10 2 key_final 1 Examples.counting)).1
     = Raise NotImplementedError).
Proof. vm_compute. discriminate. Qed.

(** C6 (amended). In lazy mode, [_get_samples] under [final], [episode] or
    [random] raises the not-implemented error before it reads or draws
    anything.  In eager mode only [random] is unimplemented: with at least
    one goal to sample, [_store_episode] on a non-empty episode raises the
    not-implemented error; under [final] and [episode] it raises nothing
    and stores, after every raw transition, [n_sampled_goal] transitions
    relabelled with the achieved goal of the episode's last transition
    ([final]) or of one of the episode's transitions ([episode]). *)
Theorem unimplemented_strategies `{E : GoalEnv} :
  (∀ inds env (w : World Lazy.Buffer),
     Lazy.goal_selection_strategy (self w) ≠ FUTURE →
     Lazy._get_samples inds env w = (Raise NotImplementedError, w)) ∧
  (∀ g (b : Eager.Buffer),
     Eager.wf b →
     Eager.goal_selection_strategy b = RANDOM →
     Eager.n_sampled_goal b ≠ 0 →
     Eager.episode_transitions b ≠ [] →
     ∃ b', Eager._store_episode {| np_random := g; self := b |}
           = (Raise NotImplementedError, {| np_random := g; self := b' |})) ∧
  (∀ g (b : Eager.Buffer),
     Eager.wf b →
     Eager.goal_selection_strategy b = FINAL ∨
     Eager.goal_selection_strategy b = EPISODE →
     ∃ g' rels,
       Eager._store_episode {| np_random := g; self := b |}
       = (Ok tt, {| np_random := g';
                    self := Eager.writes
                              (Eager.interleave (Eager.episode_transitions b) rels) b |}) ∧
       length rels = length (Eager.episode_transitions b) ∧
       ∀ i t rel,
         Eager.episode_transitions b !! i = Some t → rels !! i = Some rel →
         length rel = Eager.n_sampled_goal b ∧
         Forall (λ r, ∃ j tj,
                   Eager.episode_transitions b !! j = Some tj ∧
                   (Eager.goal_selection_strategy b = FINAL →
                    j = length (Eager.episode_transitions b) - 1) ∧
                   r = Eager.relabelled t
                         (achieved_goal (convert_obs_to_dict (t_obs tj)))) rel).
Proof.
  split_and!.
  - intros inds env w Hs. by apply get_samples_not_future.
  - intros g b Hwf Hr Hn Hne.
    destruct (Eager.episode_transitions b) as [|t l] eqn:Hep; [done|].
    exists (Eager.write t b). by apply (store_episode_random g b t l).
  - intros g b Hwf Hs.
    destruct (store_episode_ok g b Hwf) as (g' & rels & Hst & Hlen & Hall).
    { intros Hr. destruct Hs; congruence. }
    exists g', rels. split_and!; [done..|].
    intros i t rel Ht Hrel. specialize (Hall i t rel Ht Hrel).
    unfold Eager.artificial_of in Hall.
    assert (bool_decide (Eager.goal_selection_strategy b = FUTURE) = false) as Hnf.
    { apply bool_decide_eq_false_2. destruct Hs; congruence. }
    rewrite Hnf, andb_false_r in Hall. destruct Hall as [Hl Hrels].
    split; [done|]. eapply Forall_impl; [exact Hrels|].
    intros r (goal & (j & tj & Hj & -> & Hstrat) & ->).
    exists j, tj. split_and!; [done| |done].
    intros Hfin. by rewrite Hfin in Hstrat.
Qed.

Lemma unimplemented_strategies_witness :
  Lazy.goal_selection_strategy
    (self (Examples.lazy_world 4 2 key_episode 4 Examples.halves)) ≠ FUTURE ∧
  Lazy._get_samples [0%Z] None (Examples.lazy_world 4 2 key_episode 4 Examples.halves)
  = (Raise NotImplementedError, Examples.lazy_world 4 2 key_episode 4 Examples.halves).
Proof.
  split; [discriminate|].
  apply (proj1 (unimplemented_strategies (E := Examples.line_env))). discriminate.
Defined.

(** * Lazy mode: the rows of a sampled batch *)
Section LazyBatch.
Context `{E : GoalEnv}.
Import Lazy.

Lemma assemble_length b inds plan env s :
  assemble b inds plan env = Ok s →
  length (s_rewards s) = length (timestep_inds plan).
Proof.
  unfold assemble. intros Has.
  repeat match type of Has with
         | match ?x with Ok _ => _ | Raise _ => _ end = _ =>
             let H := fresh "H" in destruct x eqn:H; [|done]
         end.
  injection Has as <-. cbn [s_rewards]. unfold _normalize_reward.
  rewrite length_fmap.
  match goal with H : pick _ (timestep_inds plan) = Ok ?r |- length ?r = _ =>
    by destruct (pick_lookup _ _ _ H) as (_ & ? & _) end.
Qed.

(** Every row of a batch [_get_samples] returns has a view. *)
Lemma get_samples_rows inds env g b s w' :
  _get_samples inds env {| np_random := g; self := b |} = (Ok s, w') →
  ∃ maxs plan,
    getitems (n_episode_steps b) inds = Ok maxs ∧
    draw_plan (future_p b) maxs (length inds) {| np_random := g; self := b |}
    = (Ok plan, w') ∧
    plan_for maxs plan ∧
    ∀ i, i < length inds → ∃ v, row_of b inds plan env s i v.
Proof.
  intros Hs. destruct (get_samples_inv _ _ _ _ _ _ Hs)
    as (_ & maxs & plan & Hm & Hplan & _ & Hfor & Has).
  exists maxs, plan. split_and!; [done..|]. intros i Hi.
  apply assemble_row; [done|by eapply plan_for_nonneg|].
  rewrite (assemble_length _ _ _ _ _ Has).
  destruct Hfor as (-> & _). destruct (getitems_lookup _ _ _ Hm) as [-> _]. done.
Qed.


(** A row that is not selected keeps the stored dictionaries. *)
Lemma row_not_selected b inds plan env s i v :
  row_of b inds plan env s i v → rv_her v = false →
  rv_dicts v = convert_obs_to_dict <$> rv_slot_obs v.
Proof.
  intros (_ & _ & _ & _ & _ & _ & _ & Hsub & _) Hher.
  unfold substitute_row in Hsub. rewrite Hher in Hsub. by injection Hsub.
Qed.
End LazyBatch.

(** ** C4: the reward of a relabelled transition *)



(** ** C5: the done flag of a relabelled transition *)

(** C5, the eager half.  Every artificial transition [_store_episode]
    writes has [done = False], whatever the flag of the transition it was
    made from. *)
Lemma eager_relabelled_done_false `{E : GoalEnv} (g : Rng) (b : Eager.Buffer) :
  Eager.wf b →
  ∃ o g' m rels,
    Eager._store_episode {| np_random := g; self := b |}
    = (o, {| np_random := g';
             self := Eager.writes
                       (Eager.interleave (take m (Eager.episode_transitions b)) rels)
                       b |}) ∧
    length rels = m ∧
    ∀ rel r, rel ∈ rels → r ∈ rel → t_done r = false.
Proof.
  intros Hwf.
  destruct (store_episode_writes g b Hwf)
    as (o & g' & m & rels & Hst & Hlen & Hm & Hall).
  exists o, g', m, rels. split_and!; [done..|].
  intros rel r Hrel Hr. apply list_elem_of_lookup in Hrel as [i Hi].
  pose proof (lookup_lt_Some _ _ _ Hi) as Hlt.
  destruct (lookup_lt_is_Some_2 (Eager.episode_transitions b) i ltac:(lia)) as [t Ht].
  pose proof (Hall i t rel Ht Hi) as Hf. rewrite Forall_forall in Hf.
  destruct (Hf r Hr) as (goal & _ & ->).
  by destruct (relabelled_fields t goal) as (_ & _ & _ & _ & ->).
Qed.

Lemma eager_relabelled_done_false_witness :
  Eager.wf (Examples.eager_pending (Examples.walk 0 5) 100 5 key_future 4) ∧
  ∃ o g' m rels,
    Eager._store_episode
      {| np_random := Examples.counting;
         self := Examples.eager_pending (Examples.walk 0 5) 100 5 key_future 4 |}
    = (o, {| np_random := g';
             self := Eager.writes (Eager.interleave (take m (Examples.walk 0 5)) rels)
                       (Examples.eager_pending (Examples.walk 0 5) 100 5 key_future 4) |}) ∧
    ∀ rel r, rel ∈ rels → r ∈ rel → t_done r = false.
Proof.
  assert (Hwf : Eager.wf (Examples.eager_pending (Examples.walk 0 5) 100 5 key_future 4))
    by (unfold Eager.wf; split_and!; try reflexivity; cbn; lia).
  split; [exact Hwf|].
  destruct (eager_relabelled_done_false (E := Examples.line_env)
              Examples.counting _ Hwf) as (o & g' & m & rels & Hst & _ & Hdone).
  exists o, g', m, rels. split; [exact Hst|exact Hdone].
Defined.

(** In lazy mode the flag of a batch row is the flag stored for the row's
    episode at the drawn time step, whether the row is selected for
    relabelling or not: [_get_samples] has no counterpart of the eager
    [done = False]. *)
Lemma lazy_row_done_is_stored `{E : GoalEnv} inds env g (b : Lazy.Buffer) s w' :
  Lazy._get_samples inds env {| np_random := g; self := b |} = (Ok s, w') →
  ∃ maxs plan,
    getitems (Lazy.n_episode_steps b) inds = Ok maxs ∧
    Lazy.draw_plan (Lazy.future_p b) maxs (length inds)
      {| np_random := g; self := b |} = (Ok plan, w') ∧
    ∀ i, i < length inds →
      ∃ ep flags t d,
        inds !! i = Some ep ∧
        getitem (Lazy.dones b) ep = Ok flags ∧
        Lazy.timestep_inds plan !! i = Some t ∧
        getitem flags t = Ok d ∧
        s_dones s !! i = Some d.
Proof.
  intros Hs.
  destruct (get_samples_rows _ _ _ _ _ _ Hs) as (maxs & plan & Hm & Hplan & _ & Hrows).
  exists maxs, plan. split_and!; [done..|]. intros i Hi.
  destruct (Hrows i Hi) as [v Hv].
  pose proof Hv as (Hep & Ht & _ & _ & _ & Hflags & _ & _ & _ & _ & _ & _ & _ & Hd & _).
  destruct Hd as (d & Hd & Hsd).
  by exists (Lazy.rv_episode v), (Lazy.rv_slot_dones v), (Lazy.rv_t v), d.
Qed.

(** C5 (the code at the failing input).  The lazy buffer holds a walk of
    two steps, the second added with [done = True].  [sample(1)] draws the
    episode's last transition, [t = 1], selects the row for relabelling
    and substitutes the achieved goal at [future_t = 2], which is 12 for
    the stored 99; the row comes back with the stored flag, true, not with
    false. *)
Theorem lazy_relabelled_row_keeps_stored_done :
  (Lazy.draw_plan (Lazy.future_p (self Examples.lazy_after_walk_2)) [2] 1
     Examples.lazy_after_walk_2).1
  = Ok {| Lazy.timestep_inds := [1%Z]; Lazy.her := [true]; Lazy.future_t := [2%Z] |} ∧
  Lazy.dones (self Examples.lazy_after_walk_2) !! 0 = Some [false; true; false] ∧
  (Lazy.sample 1 None Examples.lazy_after_walk_2).1
  = Ok (Build_ReplayBufferSamples Examples.line_env
          [(1, 11, 12)%Z] [1%Z] [(2, 12, 12)%Z] [true] [0%Z]).
Proof. vm_compute. by split_and!. Qed.

(** * Sampling *)

(** Below the sampling bound every slot index is the slot of one of the
    last [min k c] of [k] writes. *)
Lemma ring_index c k i :
  0 < c →
  i < (if bool_decide (c ≤ k) then c else k `mod` c) →
  ∃ w, w < k ∧ k ≤ w + c ∧ w `mod` c = i.
Proof.
  intros Hc Hi. pose proof (Nat.div_mod_eq k c) as Hk.
  pose proof (Nat.mod_upper_bound k c ltac:(lia)) as Hr.
  case_bool_decide as Hfull.
  - assert (1 ≤ k `div` c) as Hq by (apply Nat.div_le_lower_bound; lia).
    destruct (decide (i < k `mod` c)) as [Hlt|Hge].
    + exists (c * (k `div` c) + i). split_and!; [lia..|].
      symmetry. apply (Nat.mod_unique _ _ (k `div` c)); lia.
    + exists (c * (k `div` c - 1) + i).
      assert (c * (k `div` c - 1) + c = c * (k `div` c)) as Hmul by nia.
      split_and!; [lia..|].
      symmetry. apply (Nat.mod_unique _ _ (k `div` c - 1)); lia.
  - exists i. rewrite Nat.mod_small in Hi by lia.
    split_and!; [lia..|]. apply Nat.mod_small. lia.
Qed.

Lemma getitems_in_range {A} (a : list A) inds :
  Forall (λ i, (0 ≤ i < Z.of_nat (length a))%Z) inds →
  ∃ xs, getitems a inds = Ok xs ∧ length xs = length inds ∧
        ∀ j i, inds !! j = Some i → xs !! j = a !! Z.to_nat i.
Proof.
  intros Hall. destruct (getitems_Ok a inds Hall) as [xs Hxs].
  exists xs. split; [done|]. destruct (getitems_lookup _ _ _ Hxs) as [Hlen Hrows].
  split; [done|]. intros j i Hj.
  pose proof (lookup_lt_Some _ _ _ Hj) as Hlt.
  destruct (lookup_lt_is_Some_2 xs j ltac:(lia)) as [x Hx].
  destruct (Hrows j x Hx) as (i' & Hi' & Hg). rewrite Hj in Hi'. injection Hi' as <-.
  rewrite Hx. symmetry. apply getitem_nonneg; [|done].
  by destruct (Forall_lookup_1 _ _ _ _ Hall Hj).
Qed.

(** Every vector of indices in range is drawn from some generator state:
    the draws are independent, an index may come again. *)
Lemma randints_from_tape {B} low high inds : ∀ tp c (b : B),
  (low < high)%Z →
  (∀ j i, inds !! j = Some i →
          (low ≤ i < high)%Z ∧ tp (c + j) = Z.to_N (i - low)) →
  randints low high (length inds)
    {| np_random := {| tape := tp; cursor := c |}; self := b |}
  = (Ok inds, {| np_random := {| tape := tp; cursor := c + length inds |};
                 self := b |}).
Proof.
  induction inds as [|i inds IH]; intros tp c b Hlt Hall.
  - simpl. by rewrite Nat.add_0_r.
  - destruct (Hall 0 i eq_refl) as [Hi Htp]. rewrite Nat.add_0_r in Htp.
    simpl randints. unfold randint, raw, next_raw, randint_of.
    destruct (Z.ltb_spec low high); [|lia]. mstep. cbn [np_random self tape cursor].
    destruct (Z.ltb_spec low high); [|lia].
    rewrite Htp, Z2N.id, Z.mod_small by lia.
    rewrite (IH tp (S c) b Hlt).
    + replace (low + (i - low))%Z with i by lia.
      by replace (S c + length inds) with (c + length (i :: inds)) by (simpl; lia).
    + intros j i' Hj. destruct (Hall (S j) i' Hj) as [? Hj'].
      split; [done|]. by replace (S c + j) with (c + S j) by lia.
Qed.

Lemma randints_support {B} low high inds (b : B) :
  (low < high)%Z →
  Forall (λ i, (low ≤ i < high)%Z) inds →
  ∃ g g', randints low high (length inds) {| np_random := g; self := b |}
          = (Ok inds, {| np_random := g'; self := b |}).
Proof.
  intros Hlt Hall.
  exists {| tape := λ j, Z.to_N (default low (inds !! j) - low); cursor := 0 |}.
  eexists. apply randints_from_tape; [done|].
  intros j i Hj. split.
  - by apply (Forall_lookup_1 _ _ _ _ Hall Hj).
  - simpl. by rewrite Hj.
Qed.

Section EagerSampling.
Context `{E : GoalEnv}.
Import Eager.

(** Below the sampling bound every slot holds a transition that was
    written. *)
Lemma ring_written b ts i :
  ring b ts →
  i < (if full b then buffer_size b else pos b) →
  ∃ k t, ts !! k = Some t ∧ slot b i = Some t.
Proof.
  intros (Hwf & Hpos & Hfull & Hslots) Hi.
  destruct Hwf as (_ & _ & _ & _ & _ & Hp).
  rewrite Hfull, Hpos in Hi.
  destruct (ring_index (buffer_size b) (length ts) i ltac:(lia) Hi)
    as (w & Hw & Hwin & Hmod).
  destruct (lookup_lt_is_Some_2 ts w Hw) as [t Ht].
  exists w, t. split; [done|]. rewrite <- Hmod, <- Ht. by apply Hslots.
Qed.

(** In eager mode [_get_samples] reads the five arrays at the batch
    indices. *)
Lemma eager_get_samples_ok inds env g b :
  wf b →
  Forall (λ i, (0 ≤ i < Z.of_nat (buffer_size b))%Z) inds →
  ∃ s, _get_samples inds env {| np_random := g; self := b |}
       = (Ok s, {| np_random := g; self := b |}) ∧
       ∀ j i, inds !! j = Some i →
         s_observations s !! j
         = normalized_obs env <$> observations b !! Z.to_nat i ∧
         s_actions s !! j = actions b !! Z.to_nat i ∧
         s_next_observations s !! j
         = normalized_obs env <$> next_observations b !! Z.to_nat i ∧
         s_dones s !! j = dones b !! Z.to_nat i ∧
         s_rewards s !! j
         = normalized_reward env <$> rewards b !! Z.to_nat i.
Proof.
  intros (H1 & H2 & H3 & H4 & H5 & _) Hall.
  destruct (getitems_in_range (observations b) inds) as (o & Ho & _ & Hor);
    [by rewrite H1|].
  destruct (getitems_in_range (actions b) inds) as (a & Ha & _ & Har);
    [by rewrite H3|].
  destruct (getitems_in_range (next_observations b) inds) as (o' & Ho' & _ & Hor');
    [by rewrite H2|].
  destruct (getitems_in_range (dones b) inds) as (d & Hd & _ & Hdr);
    [by rewrite H5|].
  destruct (getitems_in_range (rewards b) inds) as (r & Hr & _ & Hrr);
    [by rewrite H4|].
  eexists. split.
  - unfold _get_samples. rewrite get_self_bind. mstep.
    rewrite Ho, Ha, Ho', Hd, Hr. reflexivity.
  - intros j i Hj. cbn [s_observations s_actions s_next_observations s_dones s_rewards].
    unfold _normalize_obs, _normalize_reward. rewrite !list_lookup_fmap.
    by rewrite (Hor j i), (Har j i), (Hor' j i), (Hdr j i), (Hrr j i).
Qed.
End EagerSampling.

Section LazySampling.
Context `{E : GoalEnv}.
Import Lazy.

Lemma lazy_ring_written b eps i :
  ring b eps →
  i < (if full b then capacity b else pos b) →
  ∃ k ts, eps !! k = Some ts ∧ holds b i ts.
Proof.
  intros (Hwf & Hpos & Hfull & Hslots) Hi.
  destruct Hwf as (_ & _ & _ & _ & _ & _ & _ & _ & _ & _ & Hp).
  rewrite Hfull, Hpos in Hi.
  destruct (ring_index (capacity b) (length eps) i ltac:(lia) Hi)
    as (w & Hw & Hwin & Hmod).
  destruct (lookup_lt_is_Some_2 eps w Hw) as [ts Hts].
  exists w, ts. split; [done|]. rewrite <- Hmod. by apply Hslots.
Qed.
End LazySampling.

(** ** C8: the indices [sample] draws *)

(** C8. For a buffer reached from a fresh one by successful writes,
    [sample] draws [batch_size] indices from [0, upper_bound), where
    [upper_bound] is the capacity when [full] is set and [pos] otherwise,
    and hands them to [_get_samples]; every such index is the slot of a
    write that was made.  An empty buffer has [upper_bound = 0]: when at
    least one index is asked for, [sample] raises [ValueError] without
    reading anything, and with [batch_size = 0] it draws nothing and hands
    the empty index array to [_get_samples], which in eager mode returns
    the empty batch.  In eager mode
    the batch rows are the (normalised) entries of the stored transitions
    at these slots.  The draws are with replacement: every vector of
    indices in range is drawn from some state of the generator.  (That
    the draw is uniform is a property of the generator, which the tape
    stands for.) *)
Theorem sample_reads_written_slots `{E : GoalEnv}
    (buffer_size max_episode_len : nat) (key : strategy_key) (n : nat) (g : Rng)
    (batch_size : nat) (env : option VecNormalize) :
  0 < max_episode_len → max_episode_len ≤ buffer_size →
  (∀ (ts : list Transition) (b : Eager.Buffer),
     Eager.fill ts {| np_random := g;
                      self := Eager.__init__ buffer_size max_episode_len key n |}
     = (Ok tt, {| np_random := g; self := b |}) →
     let upper_bound := if Eager.full b then buffer_size else Eager.pos b in
     (ts = [] → batch_size ≠ 0 →
      Eager.sample batch_size env {| np_random := g; self := b |}
      = (Raise ValueError, {| np_random := g; self := b |})) ∧
     (ts = [] → batch_size = 0 →
      Eager.sample batch_size env {| np_random := g; self := b |}
      = (Ok {| s_observations := []; s_actions := []; s_next_observations := [];
               s_dones := []; s_rewards := [] |},
         {| np_random := g; self := b |})) ∧
     (ts ≠ [] →
      ∃ batch_inds g' s,
        randints 0 (Z.of_nat upper_bound) batch_size {| np_random := g; self := b |}
        = (Ok batch_inds, {| np_random := g'; self := b |}) ∧
        length batch_inds = batch_size ∧
        Eager.sample batch_size env {| np_random := g; self := b |}
        = Eager._get_samples batch_inds env {| np_random := g'; self := b |} ∧
        Eager._get_samples batch_inds env {| np_random := g'; self := b |}
        = (Ok s, {| np_random := g'; self := b |}) ∧
        ∀ j i, batch_inds !! j = Some i →
          (0 ≤ i < Z.of_nat upper_bound)%Z ∧
          ∃ k t, ts !! k = Some t ∧ Eager.slot b (Z.to_nat i) = Some t ∧
                 s_observations s !! j = Some (normalized_obs env (t_obs t)) ∧
                 s_actions s !! j = Some (t_action t) ∧
                 s_next_observations s !! j
                 = Some (normalized_obs env (t_next_obs t)) ∧
                 s_dones s !! j = Some (t_done t) ∧
                 s_rewards s !! j = Some (normalized_reward env (t_reward t)))) ∧
  (∀ (eps : list (list Transition)) (b0 b : Lazy.Buffer),
     Lazy.__init__ buffer_size max_episode_len key n = Ok b0 →
     Forall (λ ts, ts ≠ [] ∧ length ts ≤ max_episode_len) eps →
     Lazy.fill eps {| np_random := g; self := b0 |}
     = (Ok tt, {| np_random := g; self := b |}) →
     let upper_bound :=
       if Lazy.full b then buffer_size / max_episode_len else Lazy.pos b in
     (eps = [] → batch_size ≠ 0 →
      Lazy.sample batch_size env {| np_random := g; self := b |}
      = (Raise ValueError, {| np_random := g; self := b |})) ∧
     (eps = [] → batch_size = 0 →
      Lazy.sample batch_size env {| np_random := g; self := b |}
      = Lazy._get_samples [] env {| np_random := g; self := b |}) ∧
     (eps ≠ [] →
      ∃ batch_inds g',
        randints 0 (Z.of_nat upper_bound) batch_size {| np_random := g; self := b |}
        = (Ok batch_inds, {| np_random := g'; self := b |}) ∧
        length batch_inds = batch_size ∧
        Lazy.sample batch_size env {| np_random := g; self := b |}
        = Lazy._get_samples batch_inds env {| np_random := g'; self := b |} ∧
        ∀ j i, batch_inds !! j = Some i →
          (0 ≤ i < Z.of_nat upper_bound)%Z ∧
          ∃ k ts, eps !! k = Some ts ∧ Lazy.holds b (Z.to_nat i) ts)) ∧
  (∀ (B : Type) (b : B) (upper_bound : nat) (inds : list Z),
     Forall (λ i, (0 ≤ i < Z.of_nat upper_bound)%Z) inds →
     inds ≠ [] →
     ∃ g0 g', randints 0 (Z.of_nat upper_bound) (length inds)
                {| np_random := g0; self := b |}
              = (Ok inds, {| np_random := g'; self := b |})).
Proof.
  intros Hm Hle. split; [|split]; cycle 2.
  { intros B b ub inds Hall Hne. apply randints_support; [|done].
    destruct inds as [|i inds]; [done|]. inversion Hall; subst. lia. }
  - intros ts b Hfill upper_bound.
    pose proof (ring_init buffer_size max_episode_len key n ltac:(lia)) as Hinit.
    pose proof (ring_writes _ _ ts Hinit) as Hring.
    unfold Eager.fill in Hfill.
    rewrite (run_stores g _ ts) in Hfill by by destruct Hinit.
    injection Hfill as <-. cbn [app] in Hring.
    set (b := Eager.writes ts _) in *.
    assert (Hbs : Eager.buffer_size b = buffer_size)
      by by destruct (writes_frame ts (Eager.__init__ buffer_size max_episode_len key n)).
    pose proof Hring as (Hwf & Hpos & Hfull & _).
    assert (Hub : upper_bound = if Eager.full b then Eager.buffer_size b else Eager.pos b)
      by by rewrite Hbs.
    split_and!.
    + intros -> Hbatch. unfold Eager.sample. rewrite get_self_bind.
      apply bind_raise. apply randints_empty_range; [done|]. by vm_compute.
    + intros -> ->. unfold Eager.sample. rewrite get_self_bind. done.
    + intros Hne.
      assert (0 < upper_bound) as Hpos_ub.
      { rewrite Hub, Hfull, Hpos, Hbs.
        destruct (decide (buffer_size ≤ length ts)) as [Hd|Hd];
          [rewrite bool_decide_eq_true_2 by done; lia
          |rewrite bool_decide_eq_false_2 by done].
        rewrite Nat.mod_small by lia. destruct ts; [done|simpl; lia]. }
      destruct (randints_ok 0 (Z.of_nat upper_bound) batch_size g b ltac:(lia))
        as (inds & g' & Hdraw & Hlen & Hrange).
      destruct (eager_get_samples_ok inds env g' b Hwf) as (s & Hs & Hrows).
      { eapply Forall_impl; [exact Hrange|]. intros i Hi. cbn in Hi.
        assert (upper_bound ≤ Eager.buffer_size b); [|lia].
        rewrite Hub. destruct (Eager.full b); [lia|].
        destruct Hwf as (_ & _ & _ & _ & _ & ?). lia. }
      exists inds, g', s. split_and!; [done..| | |].
      * unfold Eager.sample. rewrite get_self_bind. cbv zeta. rewrite <- Hub.
        by erewrite bind_ok by exact Hdraw.
      * done.
      * intros j i Hj. pose proof (Forall_lookup_1 _ _ _ _ Hrange Hj) as Hi.
        cbn in Hi. split; [done|].
        destruct (ring_written b ts (Z.to_nat i) Hring) as (k & t & Hk & Hslot).
        { rewrite <- Hub. lia. }
        exists k, t. split; [done|]. split; [done|].
        destruct (Hrows j i Hj) as (-> & -> & -> & -> & ->).
        unfold Eager.slot in Hslot.
        destruct (Eager.observations b !! _); [|done].
        destruct (Eager.next_observations b !! _); [|done].
        destruct (Eager.actions b !! _); [|done].
        destruct (Eager.rewards b !! _); [|done].
        destruct (Eager.dones b !! _); [|done].
        cbn in Hslot. injection Hslot as <-. done.
  - intros eps b0 b Hb0 Hfit Hfill upper_bound.
    pose proof (lazy_ring_init _ _ _ _ _ Hle Hb0) as Hinit.
    assert (Hcap : Lazy.capacity b0 = buffer_size / max_episode_len ∧
                   Lazy.max_episode_len b0 = max_episode_len ∧
                   Lazy.buffer_size b0 = buffer_size).
    { unfold Lazy.__init__ in Hb0. destruct (floordiv _ _); [|done].
      by injection Hb0 as <-. }
    destruct Hcap as (Hcap & HM & HB).
    assert (Hfit' : Forall (Lazy.fits b0) eps).
    { eapply Forall_impl; [exact Hfit|]. intros ts [? ?]. split; [done|]. by rewrite HM. }
    pose proof (lazy_ring_writes eps b0 [] Hinit Hfit') as Hring.
    unfold Lazy.fill in Hfill.
    rewrite (lazy_run_stores g eps b0) in Hfill by (by destruct Hinit || done).
    injection Hfill as <-. cbn [app] in Hring.
    assert (Hframe : Lazy.capacity (Lazy.writes eps b0) = buffer_size / max_episode_len ∧
                     Lazy.max_episode_len (Lazy.writes eps b0) = max_episode_len ∧
                     Lazy.buffer_size (Lazy.writes eps b0) = buffer_size).
    { rewrite <- Hcap, <- HM, <- HB. clear. revert b0.
      induction eps as [|ts eps IH]; intros b0; [done|]. simpl.
      by destruct (IH (Lazy.write ts b0)) as (-> & -> & ->). }
    destruct Hframe as (Hc & HM' & HB').
    set (b := Lazy.writes eps b0) in *.
    pose proof Hring as (Hwf & Hpos & Hfull & _).
    assert (Hub : upper_bound = if Lazy.full b then Lazy.capacity b else Lazy.pos b)
      by by rewrite Hc.
    assert (Hfd : floordiv (Lazy.buffer_size b) (Lazy.max_episode_len b)
                  = Ok (buffer_size / max_episode_len)).
    { unfold floordiv. rewrite HM', HB'. by rewrite decide_False by lia. }
    split_and!.
    + intros -> Hbatch. unfold Lazy.sample. rewrite get_self_bind.
      unfold lift at 1. erewrite bind_ok by (by rewrite Hfd).
      apply bind_raise. apply randints_empty_range; [done|].
      assert (0 < buffer_size / max_episode_len)
        by (apply Nat.div_str_pos; lia).
      rewrite Hfull, Hpos, Hc. simpl length.
      rewrite bool_decide_eq_false_2 by lia. by rewrite Nat.Div0.mod_0_l.
    + intros -> ->. unfold Lazy.sample. rewrite get_self_bind.
      unfold lift at 1. erewrite bind_ok by (by rewrite Hfd). done.
    + intros Hne.
      assert (0 < buffer_size / max_episode_len)
        by (apply Nat.div_str_pos; lia).
      assert (0 < upper_bound) as Hpos_ub.
      { rewrite Hub, Hfull, Hpos, Hc.
        destruct (decide (buffer_size / max_episode_len ≤ length eps)) as [Hd|Hd];
          [rewrite bool_decide_eq_true_2 by done; lia
          |rewrite bool_decide_eq_false_2 by done].
        rewrite Nat.mod_small by lia. destruct eps; [done|simpl; lia]. }
      destruct (randints_ok 0 (Z.of_nat upper_bound) batch_size g b ltac:(lia))
        as (inds & g' & Hdraw & Hlen & Hrange).
      exists inds, g'. split_and!; [done..| |].
      * unfold Lazy.sample. rewrite get_self_bind.
        unfold lift at 1. erewrite bind_ok by (by rewrite Hfd).
        cbv zeta. rewrite <- Hc, <- Hub. by erewrite bind_ok by exact Hdraw.
      * intros j i Hj. pose proof (Forall_lookup_1 _ _ _ _ Hrange Hj) as Hi.
        cbn in Hi. split; [done|].
        apply (lazy_ring_written b eps (Z.to_nat i) Hring). rewrite <- Hub. lia.
Qed.

Lemma sample_reads_written_slots_witness :
  0 < 2 ∧ 2 ≤ 4 ∧
  Eager.fill (Examples.walk 0 5)
    (Examples.eager_world 4 2 key_future 4 Examples.counting)
  = (Ok tt, {| np_random := Examples.counting;
               self := Eager.writes (Examples.walk 0 5)
                         (Eager.__init__ 4 2 key_future 4) |}) ∧
  Examples.walk 0 5 ≠ [] ∧
  ∃ batch_inds g' s,
    Eager.sample 3 None
      {| np_random := Examples.counting;
         self := Eager.writes (Examples.walk 0 5) (Eager.__init__ 4 2 key_future 4) |}
    = Eager._get_samples batch_inds None
        {| np_random := g';
           self := Eager.writes (Examples.walk 0 5) (Eager.__init__ 4 2 key_future 4) |} ∧
    Eager._get_samples batch_inds None
      {| np_random := g';
         self := Eager.writes (Examples.walk 0 5) (Eager.__init__ 4 2 key_future 4) |}
    = (Ok s, {| np_random := g';
                self := Eager.writes (Examples.walk 0 5)
                          (Eager.__init__ 4 2 key_future 4) |}) ∧
    length batch_inds = 3.
Proof.
  assert (Hfill : Eager.fill (Examples.walk 0 5)
                    (Examples.eager_world 4 2 key_future 4 Examples.counting)
                  = (Ok tt, {| np_random := Examples.counting;
                               self := Eager.writes (Examples.walk 0 5)
                                         (Eager.__init__ 4 2 key_future 4) |}))
    by reflexivity.
  assert (Hne : Examples.walk 0 5 ≠ []) by discriminate.
  split; [lia|]. split; [lia|]. split; [exact Hfill|]. split; [exact Hne|].
  destruct (sample_reads_written_slots (E := Examples.line_env) 4 2 key_future 4
              Examples.counting 3 None ltac:(lia) ltac:(lia)) as [Heager _].
  destruct (Heager _ _ Hfill) as (_ & _ & Hsome).
  destruct (Hsome Hne) as (inds & g' & s & _ & Hlen & Hsample & Hget & _).
  exists inds, g', s. split; [exact Hsample|]. split; [exact Hget|exact Hlen].
Defined.

(** ** C1: where a substituted goal comes from *)

(** C1, the eager half.  Under [future], every artificial
    transition stored after step [i] of the episode is step [i] relabelled
    with the achieved goal of the observation of a step [j > i] of the same
    episode, and nothing is relabelled after the last step. *)
Lemma eager_future_goals_come_later `{E : GoalEnv} (g : Rng) (b : Eager.Buffer) :
  Eager.wf b →
  Eager.goal_selection_strategy b = FUTURE →
  ∃ g' rels,
    Eager._store_episode {| np_random := g; self := b |}
    = (Ok tt, {| np_random := g';
                 self := Eager.writes
                           (Eager.interleave (Eager.episode_transitions b) rels) b |}) ∧
    length rels = length (Eager.episode_transitions b) ∧
    ∀ i t rel,
      Eager.episode_transitions b !! i = Some t → rels !! i = Some rel →
      (i = length (Eager.episode_transitions b) - 1 → rel = []) ∧
      ∀ r, r ∈ rel →
        ∃ j tj, i < j < length (Eager.episode_transitions b) ∧
                Eager.episode_transitions b !! j = Some tj ∧
                r = Eager.relabelled t (achieved_goal (convert_obs_to_dict (t_obs tj))).
Proof.
  intros Hwf Hfut.
  destruct (store_episode_ok g b Hwf) as (g' & rels & Hst & Hlen & Hall).
  { intros Hr. congruence. }
  exists g', rels. split_and!; [done..|].
  intros i t rel Ht Hrel. specialize (Hall i t rel Ht Hrel).
  unfold Eager.artificial_of in Hall. rewrite Hfut in Hall.
  rewrite (bool_decide_eq_true_2 (FUTURE = FUTURE) eq_refl), andb_true_r in Hall.
  destruct (decide (i = length (Eager.episode_transitions b) - 1)) as [Hi|Hi].
  - rewrite bool_decide_eq_true_2 in Hall by done. subst rel.
    split; [done|]. intros r Hr. by apply not_elem_of_nil in Hr.
  - rewrite bool_decide_eq_false_2 in Hall by done. destruct Hall as [_ Hall].
    split; [done|]. intros r Hr. rewrite Forall_forall in Hall.
    destruct (Hall r Hr) as (goal & (j & tj & Hj & -> & Hij) & ->).
    exists j, tj. split_and!; [done| |done..].
    by apply lookup_lt_Some in Hj.
Qed.

Lemma eager_future_goals_come_later_witness :
  Eager.wf (Examples.eager_pending (Examples.walk 0 3) 10 3 key_future 2) ∧
  Eager.goal_selection_strategy
    (Examples.eager_pending (Examples.walk 0 3) 10 3 key_future 2) = FUTURE ∧
  ∃ g' rels,
    Eager._store_episode
      {| np_random := Examples.counting;
         self := Examples.eager_pending (Examples.walk 0 3) 10 3 key_future 2 |}
    = (Ok tt,
       {| np_random := g';
          self := Eager.writes (Eager.interleave (Examples.walk 0 3) rels)
                    (Examples.eager_pending (Examples.walk 0 3) 10 3 key_future 2) |}) ∧
    length rels = 3.
Proof.
  assert (Hwf : Eager.wf (Examples.eager_pending (Examples.walk 0 3) 10 3 key_future 2))
    by (unfold Eager.wf; split_and!; try reflexivity; cbn; lia).
  split; [exact Hwf|]. split; [reflexivity|].
  destruct (eager_future_goals_come_later Examples.counting _ Hwf eq_refl)
    as (g' & rels & Hst & Hlen & _).
  exists g', rels. split; [exact Hst|exact Hlen].
Defined.

Section LazyTimestep.
Context `{E : GoalEnv}.
Import Lazy.

Lemma astype_int_zero x : x == 0 → astype_int x = 0%Z.
Proof.
  intros Hx. unfold astype_int.
  assert (Qle_bool 0 x = true) as -> by (apply Qle_bool_iff; by rewrite Hx).
  by rewrite (Qfloor_comp _ _ Hx).
Qed.

(** What the plan holds for a row whose episode has [L >= 1] recorded
    steps: the time step lies in [1 .. L], so the first transition of an
    episode is never drawn and the index [L], one past the last
    transition, can be. *)
Lemma plan_timestep_from_one maxs plan i L :
  plan_for maxs plan → maxs !! i = Some L → 1 ≤ L →
  ∃ t, timestep_inds plan !! i = Some t ∧ (1 ≤ t ≤ Z.of_nat L)%Z.
Proof.
  intros (_ & _ & _ & Hrows) HL Hpos.
  destruct (Hrows i L HL) as (u1 & u3 & Hu1 & _ & Ht & _).
  eexists. split; [exact Ht|]. by apply timestep_range.
Qed.

(** For an episode of one step the time step is 1 and the future time
    step is 2, whatever is drawn. *)
Lemma plan_one_step maxs plan i :
  plan_for maxs plan → maxs !! i = Some 1 →
  timestep_inds plan !! i = Some 1%Z ∧ future_t plan !! i = Some 2%Z.
Proof.
  intros (_ & _ & _ & Hrows) HL.
  destruct (Hrows i 1 HL) as (u1 & u3 & Hu1 & Hu3 & Ht & Hf).
  pose proof (timestep_range 1 u1 ltac:(lia) Hu1) as Hr.
  assert (Qfloor (uniform_of (Qnat 1) 1 u1) = 1%Z) as Heq by lia.
  rewrite Heq in Ht, Hf. split; [done|]. rewrite Hf. f_equal.
  rewrite astype_int_zero; [done|]. unfold Qnat. simpl. ring.
Qed.
End LazyTimestep.

(** C1 (the code at the failing input).  In lazy mode the time step of a
    batch row is drawn with [np.random.uniform(max_timestep_inds)], whose
    first argument is the lower bound: for an episode of [L = 1] step the
    source transition is [t = 1 = L], past the only transition, and
    [future_t = 2 = L + 1], outside [t + 1 .. L] and outside the episode,
    whatever the generator yields. *)
Theorem lazy_future_t_past_one_step_episode `{E : GoalEnv}
    (g : Rng) (b : Lazy.Buffer) (p : Q) :
  ∃ selected g',
    Lazy.draw_plan p [1] 1 {| np_random := g; self := b |}
    = (Ok {| Lazy.timestep_inds := [1%Z];
             Lazy.her := selected;
             Lazy.future_t := [2%Z] |},
       {| np_random := g'; self := b |}).
Proof.
  destruct (draw_plan_for p [1] g b) as (plan & g' & Hplan & Hfor).
  destruct (plan_one_step [1] plan 0 Hfor eq_refl) as [Ht Hf].
  destruct Hfor as (Hl1 & _ & Hl3 & _).
  destruct plan as [ts hs fs]. cbn in *.
  destruct ts as [|t [|??]]; try done. destruct fs as [|f [|??]]; try done.
  cbn in Ht, Hf. injection Ht as ->. injection Hf as ->.
  by exists hs, g'.
Qed.

(** The whole call at the failing input.  The buffer has slots of two
    steps and holds one walk of one step, from position 0 to position 1;
    [sample] returns, as a transition relabelled with a later goal of the
    episode, the terminal observation with the achieved goal of the
    padding row as desired goal, the padding action, the padding row as
    next observation and the padding flag. *)
Example lazy_sample_one_step_episode :
  (Lazy.sample 1 None Examples.lazy_after_walk_1).1
  = Ok (Build_ReplayBufferSamples Examples.line_env
          [(1, 11, 0)%Z] [0%Z] [(0, 0, 0)%Z] [false] [0%Z]) ∧
  Lazy.observations (self Examples.lazy_after_walk_1) !! 0
  = Some [(0, 10, 99)%Z; (1, 11, 99)%Z; (0, 0, 0)%Z] ∧
  Lazy.n_episode_steps (self Examples.lazy_after_walk_1) !! 0 = Some 1.
Proof. vm_compute. done. Qed.

(** With slots of one step the same call raises [IndexError]. *)
Example lazy_sample_one_step_episode_full_slot :
  (Lazy.sample 1 None
     (Examples.lazy_walk 0 1 (Examples.lazy_world 2 1 key_future 4 Examples.halves)).2).1
  = Raise IndexError.
Proof. vm_compute. done. Qed.

(** * Eager mode with objects *)
Section Objects.
Context `{E : GoalEnv} `{V : Aliasing.DictSemantics}.
Import Aliasing.

Lemma keeps_refl h : keeps h h.
Proof. by intros l x. Qed.

Lemma keeps_alloc h0 h x : keeps h0 h → keeps h0 (h ++ [x]).
Proof. intros Hk l y Hl. apply lookup_app_l_Some. by apply Hk. Qed.

(** An in-place update of an object made after [h0] was taken. *)
Lemma keeps_update h0 h l x :
  keeps h0 h → length h0 ≤ l → keeps h0 (<[l := x]> h).
Proof.
  intros Hk Hl l' y Hl'. pose proof (lookup_lt_Some _ _ _ Hl') as Hlt.
  rewrite list_lookup_insert_ne by lia. by apply Hk.
Qed.

Lemma keeps_length h0 h : keeps h0 h → length h0 ≤ length h.
Proof.
  intros Hk. destruct (decide (length h0 = 0)) as [|Hne]; [lia|].
  destruct (lookup_lt_is_Some_2 h0 (length h0 - 1) ltac:(lia)) as [x Hx].
  apply Hk, lookup_lt_Some in Hx. lia.
Qed.

Lemma deref_keeps h0 h r t : keeps h0 h → deref h0 r = Some t → deref h r = Some t.
Proof.
  intros Hk. unfold deref.
  destruct (h0 !! r_obs r) as [[o| |]|] eqn:H1; try done.
  destruct (h0 !! r_next_obs r) as [[o'| |]|] eqn:H2; try done.
  destruct (h0 !! r_action r) as [[|a|]|] eqn:H3; try done.
  by rewrite (Hk _ _ H1), (Hk _ _ H2), (Hk _ _ H3).
Qed.

(** The value-level operations leave the accumulator alone. *)
Lemma keeps_accumulator_bind {A C} (m : M (World Eager.Buffer) A)
    (k : A → M (World Eager.Buffer) C) :
  Eager.keeps_accumulator m → (∀ a, Eager.keeps_accumulator (k a)) →
  Eager.keeps_accumulator (m ≫= k).
Proof.
  intros Hm Hk w. specialize (Hm w). mstep.
  destruct (m w) as [[a|e] w1]; [|done]. cbn in Hm. by rewrite Hk.
Qed.

Lemma keeps_accumulator_ret {A} (a : A) :
  Eager.keeps_accumulator (ret (W := World Eager.Buffer) a).
Proof. by intros w. Qed.

Lemma keeps_accumulator_get_self : Eager.keeps_accumulator get_self.
Proof. by intros w. Qed.

Lemma keeps_accumulator_update {A} (f : Eager.Buffer → Eager.Buffer)
    (k : M (World Eager.Buffer) A) :
  (∀ b, Eager.episode_transitions (f b) = Eager.episode_transitions b) →
  Eager.keeps_accumulator k →
  Eager.keeps_accumulator (get_self ≫= λ b, set_self (f b) ≫= λ _, k).
Proof. intros Hf Hk w. mstep. cbn. rewrite Hk. apply Hf. Qed.

Lemma assign_at_pos_acc {A} (array : Eager.Buffer → list A) update (x : A) :
  (∀ v b, Eager.episode_transitions (update v b) = Eager.episode_transitions b) →
  Eager.keeps_accumulator (Eager.assign_at_pos array update x).
Proof.
  intros Hu w. unfold Eager.assign_at_pos, setitem. mstep. cbn.
  case_match; cbn; [apply Hu|done].
Qed.

Lemma add_transition_acc o o' a r d :
  Eager.keeps_accumulator (Eager._add_transition o o' a r d).
Proof.
  unfold Eager._add_transition.
  repeat (apply keeps_accumulator_bind; [by apply assign_at_pos_acc|intros _]).
  apply keeps_accumulator_update; [done|].
  intros w. mstep. cbn. by case_match.
Qed.

Lemma choice_acc {A} (a : list A) :
  Eager.keeps_accumulator (choice (B := Eager.Buffer) a).
Proof.
  intros w. unfold choice. destruct a; [done|]. mstep. unfold raw, next_raw. by cbn.
Qed.

Section Simulation.
Context (h0 : list object) (rs : list TransitionRef) (ts : list Transition).

Lemma sim_ret {A A'} (R : A → A' → Prop) a a' :
  R a a' → simulates R h0 rs ts (ret a) (ret a').
Proof. intros HR st Hd. by exists (Ok a), st. Qed.

Lemma sim_raise {A A'} (R : A → A' → Prop) e :
  simulates R h0 rs ts (raise e) (raise e).
Proof. intros st Hd. by exists (Raise e), st. Qed.

Lemma sim_lift {A A'} (R : A → A' → Prop) o o' :
  agree R o o' → simulates R h0 rs ts (lift o) (lift o').
Proof. intros HR st Hd. by exists o, st. Qed.

Lemma sim_bind {A A' C C'} (R : A → A' → Prop) (R' : C → C' → Prop) mo mv ko kv :
  simulates R h0 rs ts mo mv →
  (∀ a a', R a a' → simulates R' h0 rs ts (ko a) (kv a')) →
  simulates R' h0 rs ts (mo ≫= ko) (mv ≫= kv).
Proof.
  intros Hm Hk st Hd. destruct (Hm st Hd) as (o & st1 & Hmo & Hag & Hw & Hd1).
  mstep. rewrite Hmo. destruct (mv (world st)) as [o' w1] eqn:Hmv.
  cbn in Hag, Hw. subst w1.
  destruct o as [a|e], o' as [a'|e']; try done.
  - by apply Hk.
  - cbn in Hag. subst e'. by exists (Raise e), st1.
Qed.

Lemma sim_lift_world {A} (m : M (World Eager.Buffer) A) :
  Eager.keeps_accumulator m →
  simulates eq h0 rs ts (lift_world m) m.
Proof.
  intros Hacc st (Hk & Hr & Ha). unfold lift_world.
  specialize (Hacc (world st)). destruct (m (world st)) as [o w] eqn:Hm.
  exists o, {| heap := heap st; refs := refs st; world := w |}.
  split_and!; try done.
  - by destruct o.
  - split_and!; [done..|]. cbn in *. by rewrite Hacc.
Qed.

(** Reading an object the call started with is not seen at the value
    level. *)
Lemma sim_read_obs {A A'} (R : A → A' → Prop) l o (k : Obs → M ObjState A) mv :
  h0 !! l = Some (ObsArray o) →
  simulates R h0 rs ts (k o) mv →
  simulates R h0 rs ts (read_obs l ≫= k) mv.
Proof.
  intros Hl Hk st Hd. pose proof Hd as (Hkeep & _). mstep. unfold read_obs.
  rewrite (Hkeep _ _ Hl). by apply Hk.
Qed.

Lemma sim_read_action {A A'} (R : A → A' → Prop) l a (k : Action → M ObjState A) mv :
  h0 !! l = Some (ActionArray a) →
  simulates R h0 rs ts (k a) mv →
  simulates R h0 rs ts (read_action l ≫= k) mv.
Proof.
  intros Hl Hk st Hd. pose proof Hd as (Hkeep & _). mstep. unfold read_action.
  rewrite (Hkeep _ _ Hl). by apply Hk.
Qed.

Lemma sim_get_refs {A A'} (R : A → A' → Prop) (k : list TransitionRef → M ObjState A) mv :
  simulates R h0 rs ts (k rs) mv →
  simulates R h0 rs ts (get_refs ≫= k) mv.
Proof.
  intros Hk st Hd. pose proof Hd as (_ & Hr & _). mstep. unfold get_refs.
  rewrite Hr. by apply Hk.
Qed.
End Simulation.

(** *** Objects made during the call

    The heap is [h ++ l]: [h] as it was when the call started and [l] the
    objects made since, at the references [length h + k]. *)
Lemma alloc_new h l x rs w :
  alloc x {| heap := h ++ l; refs := rs; world := w |}
  = (Ok (length h + length l), {| heap := h ++ (l ++ [x]); refs := rs; world := w |}).
Proof. unfold alloc. cbn. by rewrite length_app, app_assoc. Qed.

Lemma read_obs_old h l i o rs w :
  h !! i = Some (ObsArray o) →
  read_obs i {| heap := h ++ l; refs := rs; world := w |}
  = (Ok o, {| heap := h ++ l; refs := rs; world := w |}).
Proof. intros Hi. unfold read_obs. cbn. by rewrite (lookup_app_l_Some _ _ _ _ Hi). Qed.

Lemma read_action_old h l i a rs w :
  h !! i = Some (ActionArray a) →
  read_action i {| heap := h ++ l; refs := rs; world := w |}
  = (Ok a, {| heap := h ++ l; refs := rs; world := w |}).
Proof. intros Hi. unfold read_action. cbn. by rewrite (lookup_app_l_Some _ _ _ _ Hi). Qed.

Lemma lookup_new (h l : list object) k : (h ++ l) !! (length h + k) = l !! k.
Proof. rewrite lookup_app_r by lia. f_equal. lia. Qed.

Lemma read_obs_new h l k o rs w :
  l !! k = Some (ObsArray o) →
  read_obs (length h + k) {| heap := h ++ l; refs := rs; world := w |}
  = (Ok o, {| heap := h ++ l; refs := rs; world := w |}).
Proof. intros Hk. unfold read_obs. cbn. by rewrite lookup_new, Hk. Qed.

Lemma read_action_new h l k a rs w :
  l !! k = Some (ActionArray a) →
  read_action (length h + k) {| heap := h ++ l; refs := rs; world := w |}
  = (Ok a, {| heap := h ++ l; refs := rs; world := w |}).
Proof. intros Hk. unfold read_action. cbn. by rewrite lookup_new, Hk. Qed.

Lemma read_dict_new h l k base d rs w :
  l !! k = Some (Dict base d) →
  read_dict (length h + k) {| heap := h ++ l; refs := rs; world := w |}
  = (Ok d, {| heap := h ++ l; refs := rs; world := w |}).
Proof. intros Hk. unfold read_dict. cbn. by rewrite lookup_new, Hk. Qed.

(** The write to a dictionary made during the call, from an array made
    during the call: with views it reaches that array, and nothing of
    [h]. *)
Lemma setitem_desired_goal_views h l k j d goal rs w :
  views = true →
  l !! k = Some (Dict (length h + j) d) →
  setitem_desired_goal (length h + k) goal {| heap := h ++ l; refs := rs; world := w |}
  = (Ok tt,
     {| heap := h ++ <[j := ObsArray (convert_dict_to_obs (set_desired_goal goal d))]>
                       (<[k := Dict (length h + j) (set_desired_goal goal d)]> l);
        refs := rs; world := w |}).
Proof.
  intros Hv Hk. unfold setitem_desired_goal. cbn.
  by rewrite lookup_new, Hk, Hv, !insert_app_r.
Qed.

Lemma setitem_desired_goal_owned h l k base d goal rs w :
  views = false →
  l !! k = Some (Dict base d) →
  setitem_desired_goal (length h + k) goal {| heap := h ++ l; refs := rs; world := w |}
  = (Ok tt, {| heap := h ++ <[k := Dict base (set_desired_goal goal d)]> l;
               refs := rs; world := w |}).
Proof.
  intros Hv Hk. unfold setitem_desired_goal. cbn.
  by rewrite lookup_new, Hk, Hv, insert_app_r.
Qed.

Lemma keeps_app h0 h l : keeps h0 h → keeps h0 (h ++ l).
Proof. intros Hk i x Hi. apply lookup_app_l_Some. by apply Hk. Qed.

Ltac obj_step :=
  first
    [ erewrite bind_ok by (by apply read_obs_old)
    | erewrite bind_ok by (by apply read_action_old)
    | erewrite bind_ok by (apply read_obs_new; reflexivity)
    | erewrite bind_ok by (apply read_action_new; reflexivity)
    | erewrite bind_ok by (eapply read_dict_new; reflexivity)
    | erewrite bind_ok by (eapply setitem_desired_goal_views; [eassumption|reflexivity])
    | erewrite bind_ok by (eapply setitem_desired_goal_owned; [eassumption|reflexivity])
    | erewrite bind_ok by apply alloc_new ];
  cbn [app length list_insert insert];
  rewrite ?bind_assoc_at.

(** Relabelling with objects: the copies and the dictionaries are new
    objects, the only write in place goes to the new dictionaries, and
    what is stored is what the value level stores. *)
Lemma store_relabelled_objects h rs w r t goal :
  deref h r = Some t →
  ∃ l,
    Aliasing.store_relabelled r goal {| heap := h; refs := rs; world := w |}
    = lift_world (Eager.store_relabelled t goal)
        {| heap := h ++ l; refs := rs; world := w |}.
Proof.
  unfold deref. intros Hd.
  destruct (h !! r_obs r) as [[o| |]|] eqn:H1; try done.
  destruct (h !! r_next_obs r) as [[o'| |]|] eqn:H2; try done.
  destruct (h !! r_action r) as [[|a|]|] eqn:H3; try done.
  injection Hd as <-.
  destruct (@views V) eqn:Hv; eexists; rewrite <- (app_nil_r h) at 1;
    unfold Aliasing.store_relabelled, store_relabelled_with, deepcopy,
      convert_obs_to_dict_obj, convert_dict_to_obs_obj, Aliasing._add_transition;
    rewrite !bind_assoc_at.
  - do 3 obj_step. do 3 obj_step. rewrite ret_bind_at.
    cbn [r_obs r_next_obs r_action r_reward r_done]. rewrite ?bind_assoc_at.
    do 14 obj_step. reflexivity.
  - do 3 obj_step. do 3 obj_step. rewrite ret_bind_at.
    cbn [r_obs r_next_obs r_action r_reward r_done]. rewrite ?bind_assoc_at.
    do 14 obj_step. reflexivity.
Qed.

Section Simulated.
Context (h0 : list object) (rs : list TransitionRef) (ts : list Transition).
Context (Hrs : Forall2 (stands_for h0) rs ts).

Lemma sim_get_self {A A'} (R : A → A' → Prop)
    (ko : Eager.Buffer → M ObjState A) (kv : Eager.Buffer → M (World Eager.Buffer) A') :
  (∀ b, Eager.episode_transitions b = ts → simulates R h0 rs ts (ko b) (kv b)) →
  simulates R h0 rs ts (lift_world get_self ≫= ko) (get_self ≫= kv).
Proof.
  intros Hk st Hd. pose proof Hd as (_ & _ & Hacc).
  destruct st as [h rs' [g b]]. cbn in Hacc. exact (Hk b Hacc _ Hd).
Qed.

Lemma sim_get_self_r {A A'} (R : A → A' → Prop)
    (mo : M ObjState A) (kv : Eager.Buffer → M (World Eager.Buffer) A') :
  (∀ b, Eager.episode_transitions b = ts → simulates R h0 rs ts mo (kv b)) →
  simulates R h0 rs ts mo (get_self ≫= kv).
Proof.
  intros Hk st Hd. pose proof Hd as (_ & _ & Hacc).
  destruct st as [h rs' [g b]]. cbn in Hacc. exact (Hk b Hacc _ Hd).
Qed.

Lemma getitem_agree {A A'} (R : A → A' → Prop) l l' i :
  Forall2 R l l' → agree R (getitem l i) (getitem l' i).
Proof.
  intros HF. unfold getitem. rewrite <- (Forall2_length _ _ _ HF).
  case_match; [|done].
  destruct (l !! _) as [x|] eqn:Hx.
  - destruct (Forall2_lookup_l _ _ _ _ _ HF Hx) as (y & -> & HR). done.
  - apply lookup_ge_None in Hx.
    rewrite (proj2 (lookup_ge_None l' _)); [done|].
    by rewrite <- (Forall2_length _ _ _ HF).
Qed.

(** Reading the achieved goal of a transition of the episode: the
    dictionary is a new object. *)
Lemma sim_achieved_goal r t :
  stands_for h0 r t →
  simulates eq h0 rs ts
    (d ← convert_obs_to_dict_obj (r_obs r); dict ← read_dict d; ret (achieved_goal dict))
    (ret (achieved_goal (convert_obs_to_dict (t_obs t)))).
Proof.
  unfold stands_for, deref. intros Hr st Hd.
  destruct (h0 !! r_obs r) as [[o| |]|] eqn:H1; try done.
  destruct (h0 !! r_next_obs r) as [[o'| |]|]; try done.
  destruct (h0 !! r_action r) as [[|a|]|]; try done.
  injection Hr as <-. destruct Hd as (Hk & Hr & Hacc).
  destruct st as [h rs' w]. cbn in *.
  exists (Ok (achieved_goal (convert_obs_to_dict o))),
    {| heap := h ++ [Dict (r_obs r) (convert_obs_to_dict o)]; refs := rs'; world := w |}.
  split; [|split; [exact eq_refl|split; [reflexivity|]]];
    [|split; [by apply keeps_app|by split]].
  unfold convert_obs_to_dict_obj. rewrite <- (app_nil_r h) at 1.
  rewrite !bind_assoc_at.
  erewrite bind_ok by (apply read_obs_old; by apply Hk).
  erewrite bind_ok by apply alloc_new.
  erewrite bind_ok by (eapply read_dict_new; reflexivity). done.
Qed.

Lemma sim_sample_achieved_goal i :
  simulates eq h0 rs ts
    (Aliasing._sample_achieved_goal rs i) (Eager._sample_achieved_goal ts i).
Proof.
  unfold Aliasing._sample_achieved_goal, Eager._sample_achieved_goal.
  apply sim_get_self. intros b _.
  apply (sim_bind _ _ _ (stands_for h0)); [|intros r t Hrt; by apply sim_achieved_goal].
  rewrite (Forall2_length _ _ _ Hrs).
  destruct (Eager.goal_selection_strategy b).
  - apply (sim_bind _ _ _ eq); [apply sim_lift_world, choice_acc|].
    intros j ? <-. by apply sim_lift, getitem_agree.
  - by apply sim_lift, getitem_agree.
  - apply (sim_bind _ _ _ eq); [apply sim_lift_world, choice_acc|].
    intros j ? <-. by apply sim_lift, getitem_agree.
  - apply sim_raise.
Qed.

Lemma sim_sample_goals_n n i :
  simulates eq h0 rs ts
    (Aliasing.sample_goals_n n rs i) (Eager.sample_goals_n n ts i).
Proof.
  induction n as [|n IH]; [by apply sim_ret|]. simpl.
  apply (sim_bind _ _ _ eq); [apply sim_sample_achieved_goal|]. intros goal ? <-.
  apply (sim_bind _ _ _ eq); [apply IH|]. intros goals ? <-. by apply sim_ret.
Qed.

Lemma sim_sample_achieved_goals i :
  simulates eq h0 rs ts
    (Aliasing._sample_achieved_goals rs i) (Eager._sample_achieved_goals ts i).
Proof.
  unfold Aliasing._sample_achieved_goals, Eager._sample_achieved_goals.
  apply sim_get_self. intros b _. apply sim_sample_goals_n.
Qed.

Lemma store_relabelled_acc t goal :
  Eager.keeps_accumulator (Eager.store_relabelled t goal).
Proof.
  unfold Eager.store_relabelled. destruct (Eager.relabelled t goal).
  apply add_transition_acc.
Qed.

Lemma sim_store_relabelled r t goal :
  stands_for h0 r t →
  simulates eq h0 rs ts
    (Aliasing.store_relabelled r goal) (Eager.store_relabelled t goal).
Proof.
  intros Hr st Hd. pose proof Hd as (Hk & Hrefs & Hacc).
  destruct st as [h rs' w]. cbn in Hk, Hrefs, Hacc.
  destruct (store_relabelled_objects h rs' w r t goal) as [l Hl].
  { by apply (deref_keeps h0). }
  rewrite Hl.
  apply (sim_lift_world h0 rs ts _ (store_relabelled_acc t goal)
           {| heap := h ++ l; refs := rs'; world := w |}).
  split_and!; [by apply keeps_app|done..].
Qed.

Lemma sim_for_goals r t goals :
  stands_for h0 r t →
  simulates eq h0 rs ts (Aliasing.for_goals r goals) (Eager.for_goals t goals).
Proof.
  intros Hr. induction goals as [|goal goals IH]; [by apply sim_ret|]. simpl.
  apply (sim_bind _ _ _ eq); [by apply sim_store_relabelled|]. by intros [] [] _.
Qed.

Lemma sim_add_transition r t :
  stands_for h0 r t →
  simulates eq h0 rs ts
    (Aliasing._add_transition (r_obs r) (r_next_obs r) (r_action r)
       (r_reward r) (r_done r))
    (let '(Build_Transition _ obs next_obs action reward done) := t in
     Eager._add_transition obs next_obs action reward done).
Proof.
  unfold stands_for, deref. intros Hr.
  destruct (h0 !! r_obs r) as [[o| |]|] eqn:H1; try done.
  destruct (h0 !! r_next_obs r) as [[o'| |]|] eqn:H2; try done.
  destruct (h0 !! r_action r) as [[|a|]|] eqn:H3; try done.
  injection Hr as <-. unfold Aliasing._add_transition.
  apply (sim_read_obs _ _ _ _ _ o); [done|].
  apply (sim_read_obs _ _ _ _ _ o'); [done|].
  apply (sim_read_action _ _ _ _ _ a); [done|].
  apply sim_lift_world, add_transition_acc.
Qed.

Lemma sim_store_step i r t :
  stands_for h0 r t →
  simulates eq h0 rs ts (Aliasing.store_step (i, r)) (Eager.store_step (i, t)).
Proof.
  intros Hr. unfold Aliasing.store_step, Eager.store_step.
  apply (sim_bind _ _ _ eq); [by apply sim_add_transition|]. intros _ _ _.
  apply sim_get_self. intros b Hacc. apply sim_get_refs.
  rewrite Hacc, (Forall2_length _ _ _ Hrs).
  case_match; [by apply sim_ret|].
  apply (sim_bind _ _ _ eq); [apply sim_sample_achieved_goals|]. intros goals ? <-.
  apply (sim_bind _ _ _ eq); [by apply sim_for_goals|]. intros _ _ _.
  by apply sim_ret.
Qed.

Lemma sim_loop k rs' ts' :
  Forall2 (stands_for h0) rs' ts' →
  simulates eq h0 rs ts
    (for_each (enumerate_from k rs') Aliasing.store_step)
    (for_each (enumerate_from k ts') Eager.store_step).
Proof.
  intros HF. revert k. induction HF as [|r t rs' ts' Hr _ IH]; intros k.
  - by apply sim_ret.
  - simpl. apply (sim_bind _ _ _ eq); [by apply sim_store_step|].
    intros c ? <-. destruct c; [apply IH|by apply sim_ret].
Qed.

Lemma sim_store_episode :
  simulates eq h0 rs ts Aliasing._store_episode Eager._store_episode.
Proof.
  unfold Aliasing._store_episode, Eager._store_episode.
  apply sim_get_refs, sim_get_self_r. intros b ->.
  by apply (sim_loop 0).
Qed.
End Simulated.
End Objects.

(** ** C9: relabelling and the source transition *)

(** What the deep copy is for.  With dictionaries that are views, the
    goal substitution writes the array the dictionary was made from.  The
    loop body run on the tuple itself, without the copy, overwrites the
    desired goal 99 of the first transition's observations with the new
    goal 12: the tuple no longer stands for the transition that was
    added.  The body of the source, which starts from
    [copy.deepcopy(transition)], leaves both arrays as they were. *)
Example relabelling_without_copy_overwrites_source :
  Aliasing.deref (Aliasing.heap Examples.walk_state) Examples.walk_first
  = Some (Examples.move 0 false) ∧
  Aliasing.deref
    (Aliasing.heap
       (Aliasing.store_relabelled_with (V := true) ret Examples.walk_first 12%Z
          Examples.walk_state).2)
    Examples.walk_first
  = Some (@Build_Transition Examples.line_env (0, 10, 12)%Z (1, 11, 12)%Z
            0%Z (-1)%Z false) ∧
  Aliasing.deref
    (Aliasing.heap
       (Aliasing.store_relabelled (V := true) Examples.walk_first 12%Z
          Examples.walk_state).2)
    Examples.walk_first
  = Some (Examples.move 0 false).
Proof. split_and!; reflexivity. Qed.

(** C9. With arrays and dictionaries as objects, and whether the
    environment's dictionaries are views of the arrays they are made from
    or own their entries: when the tuples of the accumulator stand for
    the transitions [ts], [_store_episode], whether it returns or raises,
    leaves the accumulator's tuples as they are and every object that
    existed before the call unchanged, so that every tuple still stands
    for the same five fields.  The goal substitution writes the
    dictionaries made from the deep copy and, through them, the arrays of
    the deep copy, all of them objects made during the call.  What the
    call does to the buffer and the generator, and its outcome, are those
    of the value-level [Eager._store_episode]. *)
Theorem eager_relabelling_keeps_sources `{E : GoalEnv} `{V : Aliasing.DictSemantics}
    (st : Aliasing.ObjState) (ts : list Transition) :
  Forall2 (Aliasing.stands_for (Aliasing.heap st)) (Aliasing.refs st) ts →
  Eager.episode_transitions (self (Aliasing.world st)) = ts →
  ∃ o st',
    Aliasing._store_episode st = (o, st') ∧
    Aliasing.refs st' = Aliasing.refs st ∧
    (∀ l x, Aliasing.heap st !! l = Some x → Aliasing.heap st' !! l = Some x) ∧
    Forall2 (Aliasing.stands_for (Aliasing.heap st')) (Aliasing.refs st') ts ∧
    Aliasing.agree eq o (Eager._store_episode (Aliasing.world st)).1 ∧
    Aliasing.world st' = (Eager._store_episode (Aliasing.world st)).2.
Proof.
  intros Hrs Hacc.
  destruct (sim_store_episode (Aliasing.heap st) (Aliasing.refs st) ts Hrs st)
    as (o & st' & Hrun & Hag & Hw & Hk & Hrefs & _).
  { split_and!; [apply keeps_refl|done..]. }
  exists o, st'. split_and!; try done.
  rewrite Hrefs. eapply Forall2_impl; [exact Hrs|].
  intros r t Hrt. by apply (deref_keeps (Aliasing.heap st)).
Qed.

Lemma eager_relabelling_keeps_sources_witness :
  Forall2 (Aliasing.stands_for (Aliasing.heap Examples.walk_state))
    (Aliasing.refs Examples.walk_state) (Examples.walk 0 2) ∧
  Eager.episode_transitions (self (Aliasing.world Examples.walk_state))
  = Examples.walk 0 2 ∧
  ∃ o st',
    Aliasing._store_episode (V := true) Examples.walk_state = (o, st') ∧
    Aliasing.refs st' = Aliasing.refs Examples.walk_state ∧
    Forall2 (Aliasing.stands_for (Aliasing.heap st')) (Aliasing.refs st')
      (Examples.walk 0 2).
Proof.
  assert (Hrs : Forall2 (Aliasing.stands_for (Aliasing.heap Examples.walk_state))
                  (Aliasing.refs Examples.walk_state) (Examples.walk 0 2))
    by (repeat constructor).
  split; [exact Hrs|]. split; [reflexivity|].
  destruct (eager_relabelling_keeps_sources (V := true) Examples.walk_state
              (Examples.walk 0 2) Hrs eq_refl) as (o & st' & Hrun & Hrefs & _ & Hstands & _).
  exists o, st'. split; [exact Hrun|]. split; [exact Hrefs|exact Hstands].
Defined.

(** The same call, computed, with dictionaries that are views: the heap
    grows from 6 to 14 objects, the first six are the arrays of the walk
    as they were, the copy of the first observation (object 7) carries
    the new goal, and three transitions are stored. *)
Example eager_relabelling_walk :
  (Aliasing._store_episode (V := true) Examples.walk_state).1 = Ok tt ∧
  take 6 (Aliasing.heap (Aliasing._store_episode (V := true) Examples.walk_state).2)
  = Examples.walk_objects ∧
  length (Aliasing.heap (Aliasing._store_episode (V := true) Examples.walk_state).2)
  = 14 ∧
  Aliasing.heap (Aliasing._store_episode (V := true) Examples.walk_state).2 !! 7
  = Some (Aliasing.ObsArray (E := Examples.line_env) (0, 10, 11)%Z) ∧
  Eager.pos (self (Aliasing.world
                     (Aliasing._store_episode (V := true) Examples.walk_state).2)) = 3.
Proof. vm_compute. by split_and!. Qed.

(** * More of the code: whole episodes, degenerate buffers, what sampling reads *)

(** Nothing in [_store_episode] touches the accumulator, whether it
    returns or raises. *)
Section Accumulator.
Context `{E : GoalEnv}.
Import Eager.

Lemma keeps_accumulator_lift {A} (o : outcome A) :
  keeps_accumulator (lift (W := World Buffer) o).
Proof. by intros w. Qed.

Lemma keeps_accumulator_raise {A} e :
  keeps_accumulator (raise (W := World Buffer) (A := A) e).
Proof. by intros w. Qed.

Lemma sample_achieved_goal_acc ts i : keeps_accumulator (_sample_achieved_goal ts i).
Proof.
  unfold _sample_achieved_goal.
  apply keeps_accumulator_bind; [apply keeps_accumulator_get_self|]. intros b.
  apply keeps_accumulator_bind; [|intros t; apply keeps_accumulator_ret].
  destruct (goal_selection_strategy b).
  - apply keeps_accumulator_bind; [apply choice_acc|].
    intros j. apply keeps_accumulator_lift.
  - apply keeps_accumulator_lift.
  - apply keeps_accumulator_bind; [apply choice_acc|].
    intros j. apply keeps_accumulator_lift.
  - apply keeps_accumulator_raise.
Qed.

Lemma sample_goals_n_acc n ts i : keeps_accumulator (sample_goals_n n ts i).
Proof.
  induction n as [|n IH]; [apply keeps_accumulator_ret|]. cbn [sample_goals_n].
  apply keeps_accumulator_bind; [apply sample_achieved_goal_acc|]. intros goal.
  apply keeps_accumulator_bind; [exact IH|]. intros goals. apply keeps_accumulator_ret.
Qed.

Lemma sample_achieved_goals_acc ts i : keeps_accumulator (_sample_achieved_goals ts i).
Proof.
  unfold _sample_achieved_goals.
  apply keeps_accumulator_bind; [apply keeps_accumulator_get_self|]. intros b.
  apply sample_goals_n_acc.
Qed.

Lemma for_goals_acc t goals : keeps_accumulator (for_goals t goals).
Proof.
  induction goals as [|goal goals IH]; [apply keeps_accumulator_ret|].
  cbn [for_goals].
  apply keeps_accumulator_bind; [apply store_relabelled_acc|]. intros _. exact IH.
Qed.

Lemma store_step_acc it : keeps_accumulator (store_step it).
Proof.
  destruct it as [i t]. unfold store_step.
  apply keeps_accumulator_bind; [destruct t; apply add_transition_acc|]. intros _.
  apply keeps_accumulator_bind; [apply keeps_accumulator_get_self|]. intros b.
  case_match; [apply keeps_accumulator_ret|].
  apply keeps_accumulator_bind; [apply sample_achieved_goals_acc|]. intros goals.
  apply keeps_accumulator_bind; [apply for_goals_acc|]. intros _.
  apply keeps_accumulator_ret.
Qed.

Lemma for_each_acc {A} (xs : list A) (body : A → M (World Buffer) loop_ctl) :
  (∀ x, keeps_accumulator (body x)) → keeps_accumulator (for_each xs body).
Proof.
  intros Hbody. induction xs as [|x xs IH]; [apply keeps_accumulator_ret|].
  cbn [for_each]. apply keeps_accumulator_bind; [apply Hbody|].
  intros []; [exact IH|apply keeps_accumulator_ret].
Qed.

Lemma store_episode_keeps_accumulator : keeps_accumulator _store_episode.
Proof.
  unfold _store_episode.
  apply keeps_accumulator_bind; [apply keeps_accumulator_get_self|]. intros b.
  apply for_each_acc, store_step_acc.
Qed.
End Accumulator.

Section EagerAdds.
Context `{E : GoalEnv}.
Import Eager Episodes.

Lemma set_episode_transitions_id b :
  set_episode_transitions (episode_transitions b) b = b.
Proof. by destruct b. Qed.

Lemma eager_adds_pending pre : ∀ g b,
  Forall (λ t, t_done t = false) pre →
  eager_adds pre {| np_random := g; self := b |}
  = (Ok tt, {| np_random := g;
               self := set_episode_transitions (episode_transitions b ++ pre) b |}).
Proof.
  induction pre as [|t pre IH]; intros g b Hall.
  - simpl. by rewrite app_nil_r, set_episode_transitions_id.
  - inversion Hall as [|?? Ht Hpre]; subst. cbn [eager_adds].
    destruct t as [o o' a r d]. cbn in Ht. subst d. cbn [t_obs t_next_obs t_action t_reward t_done].
    erewrite bind_ok by apply add_not_done.
    rewrite IH by done. cbn. by rewrite <- app_assoc.
Qed.

Lemma eager_adds_app l1 l2 w :
  eager_adds (l1 ++ l2) w = (eager_adds l1;; eager_adds l2) w.
Proof.
  revert w. induction l1 as [|t l1 IH]; intros w; [done|].
  cbn [app eager_adds]. rewrite bind_assoc_at. mstep.
  destruct (add _ _ _ _ _ w) as [[[]|e] w']; [|done]. apply IH.
Qed.

End EagerAdds.

Section LazyAdds.
Context `{E : GoalEnv}.
Import Lazy Episodes.

Lemma lazy_set_episode_transitions_id b :
  set_episode_transitions (episode_transitions b) b = b.
Proof. by destruct b. Qed.

Lemma lazy_adds_pending pre : ∀ g b,
  Forall (λ t, t_done t = false) pre →
  lazy_adds pre {| np_random := g; self := b |}
  = (Ok tt, {| np_random := g;
               self := set_episode_transitions (episode_transitions b ++ pre) b |}).
Proof.
  induction pre as [|t pre IH]; intros g b Hall.
  - simpl. by rewrite app_nil_r, lazy_set_episode_transitions_id.
  - inversion Hall as [|?? Ht Hpre]; subst. cbn [lazy_adds].
    destruct t as [o o' a r d]. cbn in Ht. subst d.
    cbn [t_obs t_next_obs t_action t_reward t_done].
    erewrite bind_ok by reflexivity.
    rewrite IH by done. cbn. by rewrite <- app_assoc.
Qed.

Lemma lazy_adds_app l1 l2 w :
  lazy_adds (l1 ++ l2) w = (lazy_adds l1;; lazy_adds l2) w.
Proof.
  revert w. induction l1 as [|t l1 IH]; intros w; [done|].
  cbn [app lazy_adds]. rewrite bind_assoc_at. mstep.
  destruct (add _ _ _ _ _ w) as [[[]|e] w']; [|done]. apply IH.
Qed.

(** The flush of a non-empty accumulator is one [_add_transition] of the
    episode's columns. *)
Lemma lazy_store_episode_eq g b :
  episode_transitions b ≠ [] →
  _store_episode {| np_random := g; self := b |}
  = store (episode_transitions b) {| np_random := g; self := b |}.
Proof.
  intros Hne. unfold _store_episode. rewrite get_self_bind.
  by destruct (episode_transitions b).
Qed.

Lemma lazy_adds_episode g b ts :
  wf b → episode_transitions b = [] → episode ts →
  length ts ≤ max_episode_len b →
  lazy_adds ts {| np_random := g; self := b |}
  = (Ok tt, {| np_random := g; self := write ts b |}).
Proof.
  intros Hwf Hacc (pre & t & -> & Hpre & Ht) Hlen.
  rewrite lazy_adds_app. erewrite bind_ok by by apply lazy_adds_pending.
  rewrite Hacc. cbn [app lazy_adds].
  destruct t as [o o' a r d]. cbn in Ht. subst d.
  cbn [t_obs t_next_obs t_action t_reward t_done].
  set (t := Build_Transition _ o o' a r true).
  set (b1 := set_episode_transitions pre b).
  set (b2 := set_episode_transitions (pre ++ [t]) b).
  erewrite bind_ok; [done|].
  change (add o o' a r true {| np_random := g; self := b1 |})
    with ((_store_episode;; b' ← get_self; set_self (set_episode_transitions [] b'))
            {| np_random := g; self := b2 |}).
  assert (pre ++ [t] ≠ []) as Hne by (by destruct pre).
  erewrite bind_ok.
  2:{ rewrite lazy_store_episode_eq by done.
      change (episode_transitions b2) with (pre ++ [t]).
      by apply lazy_store_ok. }
  rewrite get_self_bind. unfold set_self. cbn [np_random]. do 2 f_equal.
  unfold write, b2. cbn -[capacity episode_obs]. rewrite Hacc.
  destruct b; cbn in *. done.
Qed.
End LazyAdds.

Section LazyOverlong.
Context `{E : GoalEnv}.
Import Lazy Episodes.

Lemma setslice_too_long {A} (a v : list A) n :
  length a < length v → length a ≤ n → 2 ≤ length v →
  setslice a n v = Raise ValueError.
Proof.
  intros Hlen Hn Hv. unfold setslice.
  rewrite decide_False by lia.
  destruct v as [|x [|y v]]; simpl in *; [lia|lia|done].
Qed.

Lemma lazy_store_overlong g b ts :
  wf b → max_episode_len b < length ts →
  store ts {| np_random := g; self := b |}
  = (Raise ValueError, {| np_random := g; self := b |}).
Proof.
  intros Hwf Hlen.
  assert (ts ≠ []) as Hts by (destruct ts; simpl in *; [lia|done]).
  destruct (wf_slots b Hwf) as (so & sa & sr & sd & Hso & Hlo & _).
  unfold store, _add_transition. cbn [ndim_ge_2 entries].
  erewrite bind_ok by reflexivity.
  erewrite bind_ok by (unfold lift; by rewrite append_last_episode).
  rewrite length_fmap.
  erewrite bind_raise; [done|].
  unfold assign_slice_at_pos. rewrite get_self_bind.
  mstep. rewrite (getitem_nat _ _ _ Hso).
  rewrite setslice_too_long; [done|..]; rewrite ?length_episode_obs by done; lia.
Qed.

(** Once the accumulator has [max_episode_len] transitions, [add] can
    only append to it. *)
Lemma lazy_add_overlong g b o o' a r d :
  wf b → max_episode_len b ≤ length (episode_transitions b) →
  add o o' a r d {| np_random := g; self := b |}
  = (if d then Raise ValueError else Ok tt,
     {| np_random := g;
        self := set_episode_transitions
                  (episode_transitions b ++ [Build_Transition _ o o' a r d]) b |}).
Proof.
  intros Hwf Hlen. destruct d; [|done].
  set (t := Build_Transition _ o o' a r true).
  set (b2 := set_episode_transitions (episode_transitions b ++ [t]) b).
  change (add o o' a r true {| np_random := g; self := b |})
    with ((_store_episode;; b' ← get_self; set_self (set_episode_transitions [] b'))
            {| np_random := g; self := b2 |}).
  erewrite bind_raise; [done|].
  rewrite lazy_store_episode_eq by (cbn; by destruct (episode_transitions b)).
  apply lazy_store_overlong; [done|]. cbn. rewrite length_app. simpl. lia.
Qed.

End LazyOverlong.

Section NoSlot.
Context `{E : GoalEnv}.
Import Episodes.

Lemma eager_add_transition_no_slot g (b : Eager.Buffer) o o' a r d :
  Eager.observations b !! Eager.pos b = None →
  Eager._add_transition o o' a r d {| np_random := g; self := b |}
  = (Raise IndexError, {| np_random := g; self := b |}).
Proof.
  intros Hnone. apply lookup_ge_None in Hnone.
  unfold Eager._add_transition. erewrite bind_raise; [done|].
  unfold Eager.assign_at_pos. rewrite get_self_bind. mstep.
  unfold setitem. destruct (Nat.ltb_spec (Eager.pos b) (length (Eager.observations b))); [lia|done].
Qed.

Lemma eager_add_no_slot g m key n acc o o' a r :
  Eager.add o o' a r true
    {| np_random := g;
       self := Eager.set_episode_transitions acc (Eager.__init__ 0 m key n) |}
  = (Raise IndexError,
     {| np_random := g;
        self := Eager.set_episode_transitions
                  (acc ++ [Build_Transition _ o o' a r true]) (Eager.__init__ 0 m key n) |}).
Proof.
  rewrite add_done. cbn [Eager.episode_transitions Eager.set_episode_transitions].
  erewrite bind_raise; [done|].
  unfold Eager._store_episode. rewrite get_self_bind.
  cbn [Eager.episode_transitions Eager.set_episode_transitions].
  destruct acc as [|t0 acc]; cbn [app enumerate enumerate_from for_each].
  - erewrite bind_raise; [done|]. unfold Eager.store_step.
    erewrite bind_raise; [done|]. by apply eager_add_transition_no_slot.
  - erewrite bind_raise; [done|]. unfold Eager.store_step.
    erewrite bind_raise; [done|]. destruct t0. by apply eager_add_transition_no_slot.
Qed.

Lemma lazy_add_no_slot g bs m key n b0 acc o o' a r :
  Lazy.__init__ bs m key n = Ok b0 → bs < m →
  Lazy.add o o' a r true
    {| np_random := g; self := Lazy.set_episode_transitions acc b0 |}
  = (Raise IndexError,
     {| np_random := g;
        self := Lazy.set_episode_transitions
                  (acc ++ [Build_Transition _ o o' a r true]) b0 |}).
Proof.
  intros Hinit Hlt. unfold Lazy.__init__, floordiv in Hinit.
  destruct (decide (m = 0)); [done|]. injection Hinit as <-.
  rewrite Nat.div_small by done. cbn [replicate].
  set (b0 := Lazy.Build_Buffer _ _ _ _ _ _ _ _ _ _ _ _).
  set (t := Build_Transition _ o o' a r true).
  set (b2 := Lazy.set_episode_transitions (acc ++ [t]) b0).
  change (Lazy.add o o' a r true _)
    with ((Lazy._store_episode;; b' ← get_self;
           set_self (Lazy.set_episode_transitions [] b'))
            {| np_random := g; self := b2 |}).
  erewrite bind_raise; [done|].
  rewrite lazy_store_episode_eq by (cbn; by destruct acc).
  change (Lazy.episode_transitions b2) with (acc ++ [t]).
  assert (acc ++ [t] ≠ []) as Hne by (by destruct acc).
  unfold Lazy.store, Lazy._add_transition. cbn [ndim_ge_2 entries].
  erewrite bind_ok by reflexivity.
  erewrite bind_ok by (unfold lift; by rewrite append_last_episode).
  erewrite bind_raise; [done|].
  unfold Lazy.assign_slice_at_pos. rewrite get_self_bind. done.
Qed.
End NoSlot.

Section GeneratorOnly.
Context {B : Type}.

(** The draws read the generator and nothing else of the state. *)
Lemma raw_self g (b b' : B) :
  raw {| np_random := g; self := b' |}
  = ((raw {| np_random := g; self := b |}).1,
     {| np_random := np_random (raw {| np_random := g; self := b |}).2; self := b' |}).
Proof. done. Qed.

Lemma random_samples_self n : ∀ g (b b' : B),
  random_samples n {| np_random := g; self := b' |}
  = ((random_samples n {| np_random := g; self := b |}).1,
     {| np_random := np_random (random_samples n {| np_random := g; self := b |}).2;
        self := b' |}).
Proof.
  induction n as [|n IH]; intros g b b'; [done|].
  cbn [random_samples]. unfold random_sample. mstep. unfold raw. cbn.
  rewrite (IH _ b b').
  by destruct (random_samples n {| np_random := _; self := b |}) as [[us|e] w].
Qed.

Lemma randints_self low high n : ∀ g (b b' : B),
  randints low high n {| np_random := g; self := b' |}
  = ((randints low high n {| np_random := g; self := b |}).1,
     {| np_random := np_random (randints low high n {| np_random := g; self := b |}).2;
        self := b' |}).
Proof.
  induction n as [|n IH]; intros g b b'.
  - cbn. by destruct (low <? high)%Z.
  - cbn [randints]. unfold randint. destruct (low <? high)%Z eqn:Hlt; [|done].
    mstep. unfold raw. cbn. destruct (randint_of _ _ _) as [i|e]; [|done].
    rewrite (IH _ b b').
    by destruct (randints low high n {| np_random := _; self := b |}) as [[us|e] w].
Qed.
End GeneratorOnly.

Section SampleReads.
Context `{E : GoalEnv}.

Lemma draw_plan_self p maxs n g (b b' : Lazy.Buffer) :
  Lazy.draw_plan p maxs n {| np_random := g; self := b' |}
  = ((Lazy.draw_plan p maxs n {| np_random := g; self := b |}).1,
     {| np_random := np_random (Lazy.draw_plan p maxs n {| np_random := g; self := b |}).2;
        self := b' |}).
Proof.
  unfold Lazy.draw_plan. mstep.
  rewrite (random_samples_self n g b b').
  destruct (random_samples n {| np_random := g; self := b |}) as [[u1|e] [g1 b1]]; [|done].
  cbn [fst snd np_random].
  rewrite (random_samples_self n g1 b1 b').
  destruct (random_samples n {| np_random := g1; self := b1 |}) as [[u2|e] [g2 b2]]; [|done].
  cbn [fst snd np_random].
  rewrite (random_samples_self n g2 b2 b').
  by destruct (random_samples n {| np_random := g2; self := b2 |}) as [[u3|e] [g3 b3]].
Qed.

Lemma randints_keeps_self {B} low high n g (b : B) :
  self (randints low high n {| np_random := g; self := b |}).2 = b.
Proof. by rewrite (randints_self low high n g b b). Qed.

Lemma draw_plan_keeps_self p maxs n g (b : Lazy.Buffer) :
  self (Lazy.draw_plan p maxs n {| np_random := g; self := b |}).2 = b.
Proof. by rewrite (draw_plan_self p maxs n g b b). Qed.

(** What [sample] reads of an eager buffer. *)
Lemma eager_sample_reads n env g (b b' : Eager.Buffer) :
  Eager.buffer_size b' = Eager.buffer_size b →
  Eager.full b' = Eager.full b → Eager.pos b' = Eager.pos b →
  Eager.observations b' = Eager.observations b →
  Eager.next_observations b' = Eager.next_observations b →
  Eager.actions b' = Eager.actions b →
  Eager.rewards b' = Eager.rewards b →
  Eager.dones b' = Eager.dones b →
  Eager.sample n env {| np_random := g; self := b' |}
  = ((Eager.sample n env {| np_random := g; self := b |}).1,
     {| np_random := np_random (Eager.sample n env {| np_random := g; self := b |}).2;
        self := b' |}).
Proof.
  intros Hbs Hf Hp Ho Ho' Ha Hr Hd. unfold Eager.sample.
  rewrite !get_self_bind, Hbs, Hf, Hp.
  set (ub := Z.of_nat _). mstep.
  rewrite (randints_self 0 ub n g b b').
  pose proof (randints_keeps_self 0 ub n g b) as Hself.
  destruct (randints 0 ub n {| np_random := g; self := b |}) as [[inds|e] [g1 b1]]; [|done].
  cbn [fst snd np_random self] in *. subst b1.
  unfold Eager._get_samples. mstep. cbn [self]. rewrite Ho, Ho', Ha, Hr, Hd.
  repeat (destruct (getitems _ inds); [|done]). done.
Qed.

(** What [sample] reads of a lazy buffer: everything but the rewards and
    the accumulator. *)
Lemma lazy_sample_reads n env g (b b' : Lazy.Buffer) :
  Lazy.buffer_size b' = Lazy.buffer_size b →
  Lazy.max_episode_len b' = Lazy.max_episode_len b →
  Lazy.goal_selection_strategy b' = Lazy.goal_selection_strategy b →
  Lazy.n_sampled_goal b' = Lazy.n_sampled_goal b →
  Lazy.full b' = Lazy.full b → Lazy.pos b' = Lazy.pos b →
  Lazy.observations b' = Lazy.observations b →
  Lazy.actions b' = Lazy.actions b →
  Lazy.dones b' = Lazy.dones b →
  Lazy.n_episode_steps b' = Lazy.n_episode_steps b →
  Lazy.sample n env {| np_random := g; self := b' |}
  = ((Lazy.sample n env {| np_random := g; self := b |}).1,
     {| np_random := np_random (Lazy.sample n env {| np_random := g; self := b |}).2;
        self := b' |}).
Proof.
  intros Hbs Hm Hs Hn Hf Hp Ho Ha Hd Hl. unfold Lazy.sample.
  rewrite !get_self_bind, Hbs, Hm, Hf, Hp.
  mstep. destruct (floordiv _ _) as [c|e]; [|done].
  set (ub := Z.of_nat _).
  rewrite (randints_self 0 ub n g b b').
  pose proof (randints_keeps_self 0 ub n g b) as Hself.
  destruct (randints 0 ub n {| np_random := g; self := b |}) as [[inds|e] [g1 b1]]; [|done].
  cbn [fst snd np_random self] in *. subst b1.
  unfold Lazy._get_samples. mstep. cbn [self]. rewrite Hs, Hl.
  unfold Lazy.future_p. rewrite Hn.
  destruct (Lazy.goal_selection_strategy b); try done.
  destruct (getitems (Lazy.n_episode_steps b) inds) as [maxs|e]; [|done].
  set (p := (1 - _)%Q).
  rewrite (draw_plan_self p maxs (length inds) g1 b b').
  pose proof (draw_plan_keeps_self p maxs (length inds) g1 b) as Hself.
  destruct (Lazy.draw_plan p maxs (length inds) {| np_random := g1; self := b |})
    as [[plan|e] [g2 b2]]; [|done].
  cbn [fst snd np_random self] in *. subst b2.
  unfold Lazy.assemble. by rewrite Ho, Ha, Hd.
Qed.
End SampleReads.

Section LazyRoundTrip.
Context `{E : GoalEnv}.
Import Lazy.

Lemma episode_obs_lookup_obs ts k tr :
  ts !! k = Some tr → episode_obs ts !! k = Some (t_obs tr).
Proof.
  intros Hk. unfold episode_obs.
  rewrite lookup_app_l by (rewrite length_fmap; by eapply lookup_lt_Some).
  by rewrite list_lookup_fmap, Hk.
Qed.

Lemma getitem_take {A} (l : list A) n t x :
  (0 ≤ t < Z.of_nat n)%Z → getitem l t = Ok x → take n l !! Z.to_nat t = Some x.
Proof.
  intros Ht Hg. apply getitem_nonneg in Hg; [|lia].
  rewrite lookup_take_lt by lia. done.
Qed.

End LazyRoundTrip.

Section LazyNoGoals.
Context `{E : GoalEnv}.
Import Lazy.

Lemma never_selected u : unit_interval u → Qltb u (1 - 1 / (1 + Qnat 0)) = false.
Proof.
  intros [Hu _]. unfold Qltb. apply negb_false_iff, Qle_bool_iff.
  change (1 - 1 / (1 + Qnat 0))%Q with (0 # 1)%Q. exact Hu.
Qed.

End LazyNoGoals.

Section SampleGoalEdges.
Context `{E : GoalEnv}.
Import Eager.

Lemma arange_empty start stop : stop ≤ start → arange start stop = [].
Proof. intros Hle. unfold arange. by replace (stop - start) with 0 by lia. Qed.

End SampleGoalEdges.

Section Draws.
Context `{E : GoalEnv}.
Import Eager Episodes.

Lemma advance_0 g : advance 0 g = g.
Proof. destruct g. unfold advance. cbn. by rewrite Nat.add_0_r. Qed.

Lemma advance_add j k g : advance k (advance j g) = advance (j + k) g.
Proof. unfold advance. cbn. by rewrite Nat.add_assoc. Qed.

Lemma choice_advance {B A} (a : list A) (g : Rng) (b : B) :
  a ≠ [] →
  ∃ x, choice a {| np_random := g; self := b |}
       = (Ok x, {| np_random := advance 1 g; self := b |}) ∧ x ∈ a.
Proof.
  intros Ha. destruct (choice_ok a g b Ha) as (x & Hx & Hin).
  exists x. split; [|done]. rewrite Hx. unfold advance, next_raw. cbn.
  by rewrite Nat.add_1_r.
Qed.

Lemma sample_achieved_goal_draws g b ts i :
  goal_selection_strategy b ≠ RANDOM →
  ts ≠ [] →
  (goal_selection_strategy b = FUTURE → i + 1 < length ts) →
  ∃ goal, _sample_achieved_goal ts i {| np_random := g; self := b |}
          = (Ok goal, {| np_random := advance (draws_per_goal (goal_selection_strategy b)) g;
                         self := b |}) ∧
          goal_source (goal_selection_strategy b) ts i goal.
Proof.
  intros Hs Hts Hfut. unfold _sample_achieved_goal, goal_source.
  mstep. simpl. destruct (goal_selection_strategy b) eqn:Hstrat; [| | |done].
  - destruct (choice_advance (B := Buffer) (arange (i + 1) (length ts)) g b) as (j & Hj & Hin).
    { apply arange_nonempty. by apply Hfut. }
    apply elem_of_arange in Hin.
    destruct (lookup_lt_is_Some_2 ts j ltac:(lia)) as [tj Htj].
    mstep. rewrite Hj. rewrite (getitem_nat _ _ _ Htj).
    eexists. split; [done|]. exists j, tj. repeat split; [done|lia].
  - destruct (lookup_lt_is_Some_2 ts (length ts - 1)) as [tj Htj].
    { destruct ts; [done|simpl; lia]. }
    assert (last ts = Some tj) as Hlast by (by rewrite last_lookup, Nat.sub_1_r in * ).
    rewrite (getitem_last _ _ Hlast). cbn [draws_per_goal]. rewrite advance_0.
    eexists. split; [done|]. by exists (length ts - 1), tj.
  - destruct (choice_advance (B := Buffer) (arange 0 (length ts)) g b) as (j & Hj & Hin).
    { apply arange_nonempty. destruct ts; [done|simpl; lia]. }
    apply elem_of_arange in Hin.
    destruct (lookup_lt_is_Some_2 ts j ltac:(lia)) as [tj Htj].
    mstep. rewrite Hj. rewrite (getitem_nat _ _ _ Htj).
    eexists. split; [done|]. by exists j, tj.
Qed.

Lemma sample_goals_n_draws n g b ts i :
  goal_selection_strategy b ≠ RANDOM →
  ts ≠ [] →
  (goal_selection_strategy b = FUTURE → i + 1 < length ts) →
  ∃ goals, sample_goals_n n ts i {| np_random := g; self := b |}
           = (Ok goals,
              {| np_random := advance (n * draws_per_goal (goal_selection_strategy b)) g;
                 self := b |}) ∧
           length goals = n ∧
           Forall (goal_source (goal_selection_strategy b) ts i) goals.
Proof.
  intros Hs Hts Hfut. revert g. induction n as [|n IH]; intros g.
  - exists []. cbn. rewrite advance_0. by repeat split.
  - destruct (sample_achieved_goal_draws g b ts i Hs Hts Hfut) as (goal & H1 & Hsrc).
    destruct (IH (advance (draws_per_goal (goal_selection_strategy b)) g))
      as (goals & H2 & Hlen & Hall).
    exists (goal :: goals). simpl sample_goals_n.
    erewrite bind_ok by exact H1. erewrite bind_ok by exact H2.
    rewrite advance_add. repeat split; [simpl; lia|by constructor].
Qed.

Lemma sample_achieved_goals_draws g b ts i :
  draws_goals b →
  ts ≠ [] →
  (goal_selection_strategy b = FUTURE → i + 1 < length ts) →
  ∃ goals, _sample_achieved_goals ts i {| np_random := g; self := b |}
           = (Ok goals,
              {| np_random :=
                   advance (n_sampled_goal b * draws_per_goal (goal_selection_strategy b)) g;
                 self := b |}) ∧
           length goals = n_sampled_goal b ∧
           Forall (goal_source (goal_selection_strategy b) ts i) goals.
Proof.
  intros Hd Hts Hfut.
  destruct (decide (goal_selection_strategy b = RANDOM)) as [Hr|Hs].
  - exists []. rewrite sample_achieved_goals_random by done.
    rewrite (Hd Hr). cbn. rewrite advance_0. by repeat split.
  - unfold _sample_achieved_goals.
    destruct (sample_goals_n_draws (n_sampled_goal b) g b ts i Hs Hts Hfut)
      as (goals & H & ?). exists goals. split; [|done].
    mstep. simpl. exact H.
Qed.

Lemma store_step_draws g b i t :
  wf b →
  draws_goals b →
  episode_transitions b !! i = Some t →
  ∃ c rel,
    store_step (i, t) {| np_random := g; self := b |}
    = (Ok c, {| np_random :=
                  advance (length rel * draws_per_goal (goal_selection_strategy b)) g;
                self := writes (t :: rel) b |}) ∧
    artificial_of (goal_selection_strategy b) (n_sampled_goal b)
      (episode_transitions b) i t rel ∧
    (c = Break → i = length (episode_transitions b) - 1).
Proof.
  intros Hwf Hs Hi. unfold store_step.
  erewrite bind_ok; cycle 1.
  { destruct t as [o o' a r d]. by apply add_transition_ok. }
  assert (Build_Transition _ (t_obs t) (t_next_obs t) (t_action t)
            (t_reward t) (t_done t) = t) as Ht by by destruct t.
  destruct t as [o o' a r d]. simpl in Ht. set (t := Build_Transition _ o o' a r d) in *.
  clear Ht. mstep. cbn [self np_random]. unfold artificial_of.
  destruct (write_frame t b) as (_ & _ & Hstrat & Hn & Hep).
  rewrite Hstrat, Hep.
  destruct (bool_decide (i = length (episode_transitions b) - 1)
            && bool_decide (goal_selection_strategy b = FUTURE))%bool eqn:Hbrk.
  - exists Break, []. cbn [length]. rewrite Nat.mul_0_l, advance_0. repeat split.
    apply andb_true_iff in Hbrk as [Hl _]. by apply bool_decide_eq_true in Hl.
  - pose proof (lookup_lt_Some _ _ _ Hi) as Hlt.
    destruct (sample_achieved_goals_draws g (write t b) (episode_transitions b) i)
      as (goals & Hg & Hlen & Hall).
    { done. }
    { intros Hnil. rewrite Hnil in Hlt. simpl in Hlt. lia. }
    { rewrite Hstrat. intros Hf. apply andb_false_iff in Hbrk as [Hl|Hl];
        apply bool_decide_eq_false in Hl; [lia|done]. }
    rewrite Hg. rewrite for_goals_ok by by apply write_wf.
    exists Continue, (relabelled t <$> goals). rewrite length_fmap, Hlen, Hn, Hstrat.
    split; [done|].
    split; [|done]. split; [done|].
    rewrite Forall_fmap. eapply Forall_impl; [exact Hall|].
    intros goal Hsrc. by exists goal.
Qed.

Lemma store_loop_draws l : ∀ pre g b,
  wf b →
  draws_goals b →
  episode_transitions b = pre ++ l →
  ∃ rels,
    for_each (enumerate_from (length pre) l) store_step
      {| np_random := g; self := b |}
    = (Ok tt,
       {| np_random :=
            advance (sum_list_with length rels
                     * draws_per_goal (goal_selection_strategy b)) g;
          self := writes (interleave l rels) b |}) ∧
    length rels = length l ∧
    ∀ i t rel, l !! i = Some t → rels !! i = Some rel →
      artificial_of (goal_selection_strategy b) (n_sampled_goal b)
        (pre ++ l) (length pre + i) t rel.
Proof.
  induction l as [|t l IH]; intros pre g b Hwf Hs Hep.
  - exists []. cbn. rewrite advance_0. repeat split. intros i t rel Hl. done.
  - destruct (store_step_draws g b (length pre) t Hwf Hs) as (c & rel & Hstep & Hart & Hbrk).
    { rewrite Hep. by rewrite lookup_app_r, Nat.sub_diag by done. }
    rewrite Hep in Hart, Hbrk.
    simpl enumerate_from. simpl for_each. erewrite bind_ok by exact Hstep.
    destruct c.
    + destruct (IH (pre ++ [t])
                  (advance (length rel * draws_per_goal (goal_selection_strategy b)) g)
                  (writes (t :: rel) b)) as (rels & Hloop & Hlen & Hall).
      { by apply writes_wf. }
      { unfold draws_goals.
        by destruct (writes_frame (t :: rel) b) as (_ & _ & -> & -> & _). }
      { destruct (writes_frame (t :: rel) b) as (_ & _ & _ & _ & ->).
        by rewrite Hep, <- app_assoc. }
      rewrite length_app in Hloop, Hall. change (length [t]) with 1 in Hloop, Hall.
      rewrite Nat.add_1_r in Hloop.
      destruct (writes_frame (t :: rel) b) as (_ & _ & Hst & Hn & _).
      rewrite Hst in Hloop. rewrite Hst, Hn in Hall. rewrite <- app_assoc in Hall.
      exists (rel :: rels). rewrite Hloop. split; [|split].
      * rewrite interleave_cons, writes_app, advance_add. do 3 f_equal.
        cbn [sum_list_with]. lia.
      * simpl. by rewrite Hlen.
      * intros [|i] t' rel' Ht' Hrel'; simplify_eq/=.
        { by rewrite Nat.add_0_r. }
        specialize (Hall i t' rel' Ht' Hrel').
        by replace (length pre + S i) with (length pre + 1 + i) by lia.
    + specialize (Hbrk eq_refl). rewrite length_app in Hbrk. simpl in Hbrk.
      assert (l = []) as -> by (destruct l; [done|simpl in Hbrk; lia]).
      exists [rel]. split; [|split].
      * unfold interleave. simpl. rewrite app_nil_r. do 3 f_equal. lia.
      * done.
      * intros [|i] t' rel' Ht' Hrel'; simplify_eq/=. by rewrite Nat.add_0_r.
Qed.

Lemma store_episode_draws g b :
  wf b →
  draws_goals b →
  ∃ rels,
    _store_episode {| np_random := g; self := b |}
    = (Ok tt,
       {| np_random :=
            advance (sum_list_with length rels
                     * draws_per_goal (goal_selection_strategy b)) g;
          self := writes (interleave (episode_transitions b) rels) b |}) ∧
    length rels = length (episode_transitions b) ∧
    ∀ i t rel, episode_transitions b !! i = Some t → rels !! i = Some rel →
      artificial_of (goal_selection_strategy b) (n_sampled_goal b)
        (episode_transitions b) i t rel.
Proof.
  intros Hwf Hs.
  destruct (store_loop_draws (episode_transitions b) [] g b Hwf Hs eq_refl)
    as (rels & Hloop & Hlen & Hall).
  exists rels. split; [|done].
  unfold _store_episode. mstep. cbn [self]. exact Hloop.
Qed.
End Draws.

(** * More of the code: the properties *)

(** X3. Eager mode, a whole episode through [add].  On a buffer with an
    empty accumulator, the calls before the one with [done = True] store
    nothing: they leave the arrays, [pos], [full] and the generator as
    they are and only extend the accumulator.  The last call runs
    [_store_episode] on the accumulated episode: when that returns, the
    call returns with the accumulator emptied; when it raises (as under
    [random] with a goal to sample), the call raises the same exception
    in the state [_store_episode] left, the accumulator still holding the
    whole episode. *)
Theorem eager_adds_flush_once `{E : GoalEnv} (g : Rng) (b : Eager.Buffer)
    (ts : list Transition) :
  Eager.episode_transitions b = [] →
  Episodes.episode ts →
  (∀ k, k < length ts →
     Episodes.eager_adds (take k ts) {| np_random := g; self := b |}
     = (Ok tt, {| np_random := g;
                  self := Eager.set_episode_transitions (take k ts) b |})) ∧
  Episodes.eager_adds ts {| np_random := g; self := b |}
  = match Eager._store_episode
            {| np_random := g; self := Eager.set_episode_transitions ts b |} with
    | (Ok _, w') =>
        (Ok tt, {| np_random := np_random w';
                   self := Eager.set_episode_transitions [] (self w') |})
    | (Raise e, w') => (Raise e, w')
    end ∧
  ∀ e w',
    Eager._store_episode
      {| np_random := g; self := Eager.set_episode_transitions ts b |}
    = (Raise e, w') →
    Eager.episode_transitions (self w') = ts.
Proof.
  intros Hacc Hep. split_and!.
  - intros k Hk. destruct Hep as (pre & t & -> & Hpre & _).
    rewrite length_app in Hk. simpl in Hk.
    rewrite take_app_le by lia.
    rewrite eager_adds_pending by by apply Forall_take.
    by rewrite Hacc.
  - destruct Hep as (pre & t & -> & Hpre & Ht).
    rewrite eager_adds_app. erewrite bind_ok by by apply eager_adds_pending.
    rewrite Hacc. cbn [app Episodes.eager_adds].
    destruct t as [o o' a r d]. cbn in Ht. subst d.
    cbn [t_obs t_next_obs t_action t_reward t_done].
    set (t := Build_Transition _ o o' a r true).
    change ((Eager.add o o' a r true ≫= λ _, ret tt)
              {| np_random := g; self := Eager.set_episode_transitions pre b |})
      with (((Eager._store_episode;; b' ← get_self;
              set_self (Eager.set_episode_transitions [] b')) ≫= λ _, ret tt)
              {| np_random := g;
                 self := Eager.set_episode_transitions (pre ++ [t]) b |}).
    mstep.
    destruct (Eager._store_episode _) as [[[]|e] [g' b']]; done.
  - intros e w' Hst.
    pose proof (store_episode_keeps_accumulator
                  {| np_random := g; self := Eager.set_episode_transitions ts b |}) as Hk.
    by rewrite Hst in Hk.
Qed.

Lemma eager_adds_flush_once_witness :
  Eager.episode_transitions (E := Examples.line_env) (Eager.__init__ 100 5 key_future 4)
  = [] ∧
  Episodes.episode (Examples.walk 0 5) ∧
  ∃ w',
    Eager._store_episode
      {| np_random := Examples.counting;
         self := Examples.eager_pending (Examples.walk 0 5) 100 5 key_future 4 |}
    = (Ok tt, w') ∧
    Episodes.eager_adds (Examples.walk 0 5)
      (Examples.eager_world 100 5 key_future 4 Examples.counting)
    = (Ok tt, {| np_random := np_random w';
                 self := Eager.set_episode_transitions [] (self w') |}).
Proof.
  assert (Hep : Episodes.episode (Examples.walk 0 5)).
  { exists (Examples.move 0 false :: Examples.move 1 false :: Examples.move 2 false
            :: [Examples.move 3 false]), (Examples.move 4 true).
    split; [reflexivity|]. split; [|reflexivity]. by repeat constructor. }
  split; [reflexivity|]. split; [exact Hep|].
  destruct (eager_adds_flush_once Examples.counting
              (Eager.__init__ 100 5 key_future 4) (Examples.walk 0 5)
              eq_refl Hep) as (_ & Hadds & _).
  destruct (Eager._store_episode
              {| np_random := Examples.counting;
                 self := Examples.eager_pending (Examples.walk 0 5) 100 5 key_future 4 |})
    as [[[]|e] w'] eqn:Hst; [|vm_compute in Hst; discriminate].
  exists w'. split; [reflexivity|].
  change (Examples.eager_pending (Examples.walk 0 5) 100 5 key_future 4)
    with (Eager.set_episode_transitions (Examples.walk 0 5)
            (Eager.__init__ (E := Examples.line_env) 100 5 key_future 4)) in Hst.
  rewrite Hst in Hadds. exact Hadds.
Defined.

(** X4. Lazy mode, a whole episode through [add].  An episode of at most
    [max_episode_len] transitions, added one call at a time to a buffer
    with an empty accumulator, consumes no random draw and ends up in the
    slot [pos] pointed to: the slot holds the episode and its recorded
    length, [pos] moves on by one slot, wrapping to 0 and setting [full]
    at the capacity, and the accumulator is empty again.  Every other
    slot, and the rows of the written slot behind the episode, keep what
    they held. *)
Theorem lazy_adds_fill_slot `{E : GoalEnv} (g : Rng) (b : Lazy.Buffer)
    (ts : list Transition) :
  Lazy.wf b →
  Lazy.episode_transitions b = [] →
  Episodes.episode ts →
  length ts ≤ Lazy.max_episode_len b →
  ∃ b',
    Episodes.lazy_adds ts {| np_random := g; self := b |}
    = (Ok tt, {| np_random := g; self := b' |}) ∧
    Lazy.holds b' (Lazy.pos b) ts ∧
    Lazy.pos b' = (Lazy.pos b + 1) `mod` Lazy.capacity b ∧
    Lazy.full b' = (Lazy.full b || bool_decide (Lazy.pos b + 1 = Lazy.capacity b)) ∧
    Lazy.episode_transitions b' = [] ∧
    (∀ i, i ≠ Lazy.pos b →
       Lazy.observations b' !! i = Lazy.observations b !! i ∧
       Lazy.actions b' !! i = Lazy.actions b !! i ∧
       Lazy.rewards b' !! i = Lazy.rewards b !! i ∧
       Lazy.dones b' !! i = Lazy.dones b !! i ∧
       Lazy.n_episode_steps b' !! i = Lazy.n_episode_steps b !! i) ∧
    (∀ s s', Lazy.observations b !! Lazy.pos b = Some s →
             Lazy.observations b' !! Lazy.pos b = Some s' →
             drop (length ts + 1) s' = drop (length ts + 1) s).
Proof.
  intros Hwf Hacc Hep Hlen.
  assert (ts ≠ []) as Hts by (destruct Hep as (pre & t & -> & _); by destruct pre).
  exists (Lazy.write ts b).
  split; [by apply lazy_adds_episode|].
  split; [by apply holds_write|].
  pose proof Hwf as (_ & Ho & _ & _ & _ & _ & _ & _ & _ & _ & Hp).
  split_and!.
  - unfold Lazy.write. cbn -[Lazy.capacity]. case_bool_decide as Hw.
    + rewrite Hw. by rewrite Nat.Div0.mod_same.
    + rewrite Nat.mod_small; lia.
  - unfold Lazy.write. cbn -[Lazy.capacity]. case_bool_decide; [by rewrite orb_true_r|by rewrite orb_false_r].
  - done.
  - intros i Hi. unfold Lazy.write. cbn -[Lazy.capacity].
    by rewrite !list_lookup_insert_ne by done.
  - intros s s' Hs. unfold Lazy.write. cbn -[Lazy.capacity].
    rewrite list_lookup_insert_eq by lia. rewrite Hs. cbn. intros [= <-].
    unfold Lazy.overwrite. rewrite length_episode_obs by done.
    rewrite drop_app_length'; [done|]. by rewrite length_episode_obs.
Qed.

Lemma lazy_adds_fill_slot_witness :
  Lazy.wf (self (Examples.lazy_world 6 3 key_future 4 Examples.halves)) ∧
  Lazy.episode_transitions (self (Examples.lazy_world 6 3 key_future 4 Examples.halves))
  = [] ∧
  Episodes.episode (Examples.walk 0 2) ∧
  length (Examples.walk 0 2)
  ≤ Lazy.max_episode_len (self (Examples.lazy_world 6 3 key_future 4 Examples.halves)) ∧
  ∃ b',
    Episodes.lazy_adds (Examples.walk 0 2)
      (Examples.lazy_world 6 3 key_future 4 Examples.halves)
    = (Ok tt, {| np_random := Examples.halves; self := b' |}) ∧
    Lazy.holds b' 0 (Examples.walk 0 2) ∧
    Lazy.pos b' = 1.
Proof.
  assert (Hwf : Lazy.wf (self (Examples.lazy_world 6 3 key_future 4 Examples.halves))).
  { unfold Lazy.wf. split_and!; try reflexivity; try (by repeat constructor);
      try discriminate. }
  assert (Hep : Episodes.episode (Examples.walk 0 2)).
  { exists [Examples.move 0 false], (Examples.move 1 true).
    split; [reflexivity|]. split; [|reflexivity]. by repeat constructor. }
  assert (Hlen : length (Examples.walk 0 2)
                 ≤ Lazy.max_episode_len
                     (self (Examples.lazy_world 6 3 key_future 4 Examples.halves)))
    by (vm_compute; lia).
  split; [exact Hwf|]. split; [reflexivity|]. split; [exact Hep|]. split; [exact Hlen|].
  destruct (lazy_adds_fill_slot Examples.halves
              (self (Examples.lazy_world 6 3 key_future 4 Examples.halves))
              (Examples.walk 0 2) Hwf eq_refl Hep Hlen)
    as (b' & Hadds & Hholds & Hpos & _).
  exists b'. split; [exact Hadds|]. split; [exact Hholds|exact Hpos].
Defined.

(** X5. Lazy mode, an episode that outgrows its slot.  Once the
    accumulator holds [max_episode_len] transitions, no call of [add]
    stores anything any more: a call with [done = False] extends the
    accumulator, and a call with [done = True] extends it, raises
    [ValueError] (the episode does not fit the slot) and leaves it as it
    is, so that the next flush fails in the same way.  The arrays, [pos],
    [full] and the generator stay as they were. *)
Theorem lazy_overlong_episode_never_stored `{E : GoalEnv} (g : Rng)
    (b : Lazy.Buffer) (ts : list Transition) :
  Lazy.wf b →
  Lazy.max_episode_len b ≤ length (Lazy.episode_transitions b) →
  ∃ k, k ≤ length ts ∧
    Episodes.lazy_adds ts {| np_random := g; self := b |}
    = (if forallb (λ t, negb (t_done t)) ts then Ok tt else Raise ValueError,
       {| np_random := g;
          self := Lazy.set_episode_transitions
                    (Lazy.episode_transitions b ++ take k ts) b |}) ∧
    (forallb (λ t, negb (t_done t)) ts = true → k = length ts).
Proof.
  intros Hwf Hlen. revert g b Hwf Hlen.
  induction ts as [|t ts IH]; intros g b Hwf Hlen.
  - exists 0. split; [done|]. split; [|done]. simpl.
    by rewrite app_nil_r, lazy_set_episode_transitions_id.
  - cbn [Episodes.lazy_adds forallb]. destruct t as [o o' a r d].
    cbn [t_obs t_next_obs t_action t_reward t_done].
    pose proof (lazy_add_overlong g b o o' a r d Hwf Hlen) as Hadd.
    destruct d.
    + exists 1. split; [simpl; lia|]. split; [|done].
      erewrite bind_raise by exact Hadd. done.
    + set (b1 := Lazy.set_episode_transitions _ b) in Hadd.
      destruct (IH g b1) as (k & Hk & Hrun & Hall);
        [done|cbn; rewrite length_app; lia|].
      exists (S k). split; [simpl; lia|]. split.
      * erewrite bind_ok by exact Hadd. rewrite Hrun. cbn.
        by rewrite <- app_assoc.
      * cbn. intros Hf. by rewrite (Hall Hf).
Qed.

Lemma lazy_overlong_episode_never_stored_witness :
  Lazy.wf (Examples.lazy_pending [Examples.move 0 false; Examples.move 1 false]
             4 2 key_future 4) ∧
  Lazy.max_episode_len
    (Examples.lazy_pending [Examples.move 0 false; Examples.move 1 false]
       4 2 key_future 4)
  ≤ length (Lazy.episode_transitions
              (Examples.lazy_pending [Examples.move 0 false; Examples.move 1 false]
                 4 2 key_future 4)) ∧
  (Episodes.lazy_adds [Examples.move 2 true]
     {| np_random := Examples.halves;
        self := Examples.lazy_pending [Examples.move 0 false; Examples.move 1 false]
                  4 2 key_future 4 |}).1
  = Raise ValueError.
Proof.
  assert (Hwf : Lazy.wf (Examples.lazy_pending
                           [Examples.move 0 false; Examples.move 1 false]
                           4 2 key_future 4)).
  { unfold Lazy.wf. split_and!; try reflexivity; try (by repeat constructor);
      try discriminate. }
  assert (Hlen : Lazy.max_episode_len
                   (Examples.lazy_pending [Examples.move 0 false; Examples.move 1 false]
                      4 2 key_future 4)
                 ≤ length (Lazy.episode_transitions
                             (Examples.lazy_pending
                                [Examples.move 0 false; Examples.move 1 false]
                                4 2 key_future 4)))
    by (vm_compute; lia).
  split; [exact Hwf|]. split; [exact Hlen|].
  destruct (lazy_overlong_episode_never_stored Examples.halves _
              [Examples.move 2 true] Hwf Hlen) as (k & _ & Hrun & _).
  rewrite Hrun. reflexivity.
Defined.

(** X6. Buffers without a slot.  An eager buffer built with
    [buffer_size = 0], and a lazy buffer built with
    [buffer_size < max_episode_len], have arrays without a slot: every
    call of [add] with [done = True] raises [IndexError] at the first
    assignment of [_add_transition], stores nothing and keeps the
    accumulator, the new transition included.  A lazy buffer with
    [max_episode_len = 0] cannot be built: the division raises. *)
Theorem buffer_without_slot `{E : GoalEnv} :
  (∀ g m key n acc o o' a r,
     Eager.add o o' a r true
       {| np_random := g;
          self := Eager.set_episode_transitions acc (Eager.__init__ 0 m key n) |}
     = (Raise IndexError,
        {| np_random := g;
           self := Eager.set_episode_transitions
                     (acc ++ [Build_Transition _ o o' a r true])
                     (Eager.__init__ 0 m key n) |})) ∧
  (∀ g bs m key n b0 acc o o' a r,
     Lazy.__init__ bs m key n = Ok b0 → bs < m →
     Lazy.add o o' a r true
       {| np_random := g; self := Lazy.set_episode_transitions acc b0 |}
     = (Raise IndexError,
        {| np_random := g;
           self := Lazy.set_episode_transitions
                     (acc ++ [Build_Transition _ o o' a r true]) b0 |})) ∧
  (∀ bs key n, Lazy.__init__ bs 0 key n = Raise ZeroDivisionError).
Proof.
  split_and!.
  - intros. apply eager_add_no_slot.
  - intros. by eapply lazy_add_no_slot.
  - done.
Qed.

Lemma buffer_without_slot_witness :
  Lazy.__init__ (E := Examples.line_env) 1 2 key_future 4
  = Ok (self (Examples.lazy_world 1 2 key_future 4 Examples.halves)) ∧
  1 < 2 ∧
  Lazy.add (E := Examples.line_env) (Examples.at_step 0) (Examples.at_step 1)
    0%Z (-1)%Z true
    {| np_random := Examples.halves;
       self := Lazy.set_episode_transitions []
                 (self (Examples.lazy_world 1 2 key_future 4 Examples.halves)) |}
  = (Raise IndexError,
     {| np_random := Examples.halves;
        self := Lazy.set_episode_transitions [Examples.move 0 true]
                  (self (Examples.lazy_world 1 2 key_future 4 Examples.halves)) |}).
Proof.
  split; [reflexivity|]. split; [lia|].
  apply (proj1 (proj2 (buffer_without_slot (E := Examples.line_env)))
           Examples.halves 1 2 key_future 4
           (self (Examples.lazy_world 1 2 key_future 4 Examples.halves))
           [] (Examples.at_step 0) (Examples.at_step 1) 0%Z (-1)%Z eq_refl).
  lia.
Defined.

Section LazyBatchRows.
Import Lazy.

(** X7. Lazy mode with [n_sampled_goal = 0].  The probability [future_p]
    is 0 and no batch row is ever selected for relabelling: every row
    [_get_samples] returns carries the observation stored at the drawn
    time step and the one stored after it, both with their stored desired
    goal (passed through the environment's two conversions and the
    normaliser), and the reward [compute_reward] gives for the next
    observation's own achieved and desired goal. *)
Theorem lazy_without_goals_never_relabels `{E : GoalEnv} inds env g
    (b : Lazy.Buffer) s w' :
  Lazy.n_sampled_goal b = 0 →
  Lazy._get_samples inds env {| np_random := g; self := b |} = (Ok s, w') →
  ∀ i, i < length inds →
    ∃ ep slot t o o',
      inds !! i = Some ep ∧
      getitem (Lazy.observations b) ep = Ok slot ∧
      getitem slot t = Ok o ∧ getitem slot (t + 1) = Ok o' ∧
      s_observations s !! i
      = Some (normalized_obs env (convert_dict_to_obs (convert_obs_to_dict o))) ∧
      s_next_observations s !! i
      = Some (normalized_obs env (convert_dict_to_obs (convert_obs_to_dict o'))) ∧
      s_rewards s !! i
      = Some (normalized_reward env
                (compute_reward (achieved_goal (convert_obs_to_dict o'))
                   (desired_goal (convert_obs_to_dict o')))).
Proof.
  intros Hn Hs i Hi.
  destruct (get_samples_rows _ _ _ _ _ _ Hs) as (maxs & plan & Hm & Hplan & Hfor & Hrows).
  destruct (Hrows i Hi) as [v Hv].
  assert (rv_her v = false) as Hher.
  { destruct (getitems_lookup _ _ _ Hm) as [Hlm _].
    destruct (draw_plan_ok (future_p b) maxs (length inds) g b Hlm)
      as (u1 & u2 & u3 & g' & Hdp & _ & Hl2 & _ & _ & Hu2 & _).
    rewrite Hdp in Hplan. injection Hplan as <- _.
    destruct Hv as (_ & _ & Hh & _). cbn [her] in Hh.
    rewrite list_lookup_fmap in Hh.
    destruct (u2 !! i) as [u|] eqn:Hu; [|done]. injection Hh as <-.
    unfold future_p. rewrite Hn. apply never_selected.
    by eapply Forall_lookup_1. }
  pose proof (row_not_selected _ _ _ _ _ _ _ Hv Hher) as Hdicts.
  destruct Hv as (Hep & _ & _ & _ & Hgo & _ & _ & _ & Hd1 & Hd2 & Hso1 & Hso2 & Hsr & _).
  rewrite Hdicts in Hd1, Hd2.
  apply getitem_fmap in Hd1 as (o & Ho & Hd1).
  apply getitem_fmap in Hd2 as (o' & Ho' & Hd2).
  rewrite Hd1 in Hso1. rewrite Hd2 in Hso2, Hsr.
  by exists (rv_episode v), (rv_slot_obs v), (rv_t v), o, o'.
Qed.
End LazyBatchRows.

Lemma lazy_without_goals_never_relabels_witness :
  Lazy.n_sampled_goal (self Examples.lazy_plain_after_walk_2) = 0 ∧
  ∃ s w',
    Lazy._get_samples [0%Z] None
      {| np_random := np_random Examples.lazy_plain_after_walk_2;
         self := self Examples.lazy_plain_after_walk_2 |} = (Ok s, w') ∧
    0 < length [0%Z] ∧
    ∃ ep slot t o o',
      [0%Z] !! 0 = Some ep ∧
      getitem (Lazy.observations (self Examples.lazy_plain_after_walk_2)) ep = Ok slot ∧
      getitem slot t = Ok o ∧ getitem slot (t + 1) = Ok o' ∧
      s_observations s !! 0
      = Some (normalized_obs None (convert_dict_to_obs (convert_obs_to_dict o))).
Proof.
  split; [reflexivity|].
  destruct (Lazy._get_samples [0%Z] None
              {| np_random := np_random Examples.lazy_plain_after_walk_2;
                 self := self Examples.lazy_plain_after_walk_2 |})
    as [[s|e] w'] eqn:Hs; [|vm_compute in Hs; discriminate].
  exists s, w'. split; [reflexivity|]. split; [simpl; lia|].
  destruct (lazy_without_goals_never_relabels [0%Z] None
              (np_random Examples.lazy_plain_after_walk_2)
              (self Examples.lazy_plain_after_walk_2) s w' eq_refl Hs 0 ltac:(simpl; lia))
    as (ep & slot & t & o & o' & H1 & H2 & H3 & H4 & H5 & _).
  exists ep, slot, t, o, o'. split_and!; assumption.
Defined.

Section LazySlotToRow.
Import Lazy.

(** X8. Lazy mode, from slot to batch row.  Batch row [i] is read at
    the time step [t] the plan drawn by [_get_samples] holds for it,
    relabelled or not as the plan says ([selected]), with the goal read
    at the plan's [ft].  When the row's slot [e] holds the episode [ts]
    and [t] is below the episode's length, the row is transition [t] of
    the episode: its action and its [done] flag, the observation of
    transition [t] and, as next observation, the observation stored one
    step later (the observation of transition [t + 1], or the last next
    observation).  If the row is selected for relabelling, both
    observations carry as desired goal the achieved goal of an
    observation stored at a later step [ft] of the same episode,
    [t < ft <= len(ts)]; otherwise they keep their own.  The reward is
    [compute_reward] of the next observation's achieved goal and that
    desired goal. *)
Theorem lazy_row_is_stored_transition `{E : GoalEnv} inds env g
    (b : Lazy.Buffer) s w' i e (ts : list Transition) :
  Lazy.holds b e ts → ts ≠ [] →
  inds !! i = Some (Z.of_nat e) →
  Lazy._get_samples inds env {| np_random := g; self := b |} = (Ok s, w') →
  ∃ maxs plan t selected ft,
    getitems (Lazy.n_episode_steps b) inds = Ok maxs ∧
    Lazy.draw_plan (Lazy.future_p b) maxs (length inds)
      {| np_random := g; self := b |} = (Ok plan, w') ∧
    Lazy.timestep_inds plan !! i = Some t ∧
    Lazy.her plan !! i = Some selected ∧
    Lazy.future_t plan !! i = Some ft ∧
    (0 ≤ t ≤ Z.of_nat (length ts))%Z ∧
    ((t < Z.of_nat (length ts))%Z →
     (t < ft ≤ Z.of_nat (length ts))%Z ∧
     ∃ tr o_next src,
       ts !! Z.to_nat t = Some tr ∧
       Lazy.episode_obs ts !! (Z.to_nat t + 1) = Some o_next ∧
       Lazy.episode_obs ts !! Z.to_nat ft = Some src ∧
       let relabel d :=
         if selected : bool
         then set_desired_goal (achieved_goal (convert_obs_to_dict src)) d else d in
       s_observations s !! i
       = Some (normalized_obs env
                 (convert_dict_to_obs (relabel (convert_obs_to_dict (t_obs tr))))) ∧
       s_next_observations s !! i
       = Some (normalized_obs env
                 (convert_dict_to_obs (relabel (convert_obs_to_dict o_next)))) ∧
       s_actions s !! i = Some (t_action tr) ∧
       s_dones s !! i = Some (t_done tr) ∧
       s_rewards s !! i
       = Some (normalized_reward env
                 (compute_reward (achieved_goal (convert_obs_to_dict o_next))
                    (desired_goal (relabel (convert_obs_to_dict o_next)))))).
Proof.
  intros (Hn & (so & Hso & Hto) & (sa & Hsa & Hta) & _ & (sd & Hsd & Htd)) Hts Hi Hs.
  destruct (get_samples_rows _ _ _ _ _ _ Hs) as (maxs & plan & Hm & Hplan & Hfor & Hrows).
  pose proof (lookup_lt_Some _ _ _ Hi) as Hlt.
  destruct (Hrows i Hlt) as [v Hv].
  destruct Hv as (Hep & Ht & Hher & Hft & Hgo & Hgd & Hga & Hsub & Hd1 & Hd2
                  & Hso1 & Hso2 & Hsr & (d & Hd & Hsdn) & (a & Ha & Hsan)).
  rewrite Hi in Hep. injection Hep as Hep.
  set (L := length ts) in *.
  assert (1 ≤ L) as HL by (destruct ts; simpl in *; [done|lia]).
  (* the recorded length *)
  destruct (getitems_lookup _ _ _ Hm) as [Hlm Hmaxs].
  destruct (lookup_lt_is_Some_2 maxs i ltac:(lia)) as [L' HL'].
  destruct (Hmaxs i L' HL') as (ind & Hind & Hgn).
  rewrite Hi in Hind. injection Hind as <-.
  rewrite (getitem_nat _ _ _ Hn) in Hgn. injection Hgn as <-.
  (* the plan of the row *)
  destruct Hfor as (_ & _ & _ & Hrow).
  destruct (Hrow i L HL') as (u1 & u3 & Hu1 & Hu3 & Ht' & Hft').
  set (T := Qfloor (uniform_of (Qnat L) 1 u1)) in *.
  rewrite Ht in Ht'. injection Ht' as HT.
  rewrite Hft in Hft'. injection Hft' as HF.
  pose proof (timestep_range L u1 HL Hu1) as HTr. fold T in HTr.
  destruct (future_offset_range L T u3 ltac:(lia) Hu3) as [Hoff0 Hoff].
  exists maxs, plan, T, (rv_her v), (rv_future_t v).
  split; [done|]. split; [done|]. split; [by rewrite Ht, HT|].
  split; [done|]. split; [done|]. split; [lia|].
  intros HTL. specialize (Hoff HTL). rewrite HF, HT in *. clear HF HT.
  set (F := (T + 1 + astype_int (u3 * (Qnat L - inject_Z T)))%Z) in *.
  split; [lia|].
  (* the slot rows *)
  rewrite <- Hep in Hgo, Hgd, Hga.
  rewrite (getitem_nat _ _ _ Hso) in Hgo. injection Hgo as Hgo.
  rewrite (getitem_nat _ _ _ Hsd) in Hgd. injection Hgd as Hgd.
  rewrite (getitem_nat _ _ _ Hsa) in Hga. injection Hga as Hga.
  rewrite <- Hgo in Hsub. rewrite <- Hgd in Hd. rewrite <- Hga in Ha.
  destruct (lookup_lt_is_Some_2 ts (Z.to_nat T) ltac:(lia)) as [tr Htr].
  pose proof (length_episode_obs ts Hts) as Hleo. fold L in Hleo.
  destruct (lookup_lt_is_Some_2 (episode_obs ts) (Z.to_nat T + 1) ltac:(lia))
    as [o_next Hnext].
  destruct (lookup_lt_is_Some_2 (episode_obs ts) (Z.to_nat F) ltac:(lia))
    as [src Hsrc].
  exists tr, o_next, src. split; [done|]. split; [done|]. split; [done|].
  assert (Hso_at : ∀ k, k < L + 1 → so !! k = episode_obs ts !! k).
  { intros k Hk. by rewrite <- Hto, lookup_take_lt. }
  (* the dictionaries of the row *)
  set (relabel := λ d, if rv_her v
                       then set_desired_goal (achieved_goal (convert_obs_to_dict src)) d
                       else d).
  assert (rv_dicts v = relabel <$> (convert_obs_to_dict <$> so)) as Hdicts.
  { unfold substitute_row in Hsub. unfold relabel. destruct (rv_her v).
    - destruct (getitem _ F) as [dF|] eqn:HdF; [|done]. injection Hsub as <-.
      apply getitem_nonneg in HdF; [|lia].
      rewrite list_lookup_fmap, Hso_at, Hsrc in HdF by lia.
      by injection HdF as <-.
    - injection Hsub as <-. by rewrite list_fmap_id. }
  rewrite Hdicts in Hd1, Hd2.
  apply getitem_nonneg in Hd1; [|lia]. apply getitem_nonneg in Hd2; [|lia].
  rewrite !list_lookup_fmap, Hso_at, (episode_obs_lookup_obs _ _ _ Htr) in Hd1 by lia.
  replace (Z.to_nat (T + 1)) with (Z.to_nat T + 1) in Hd2 by lia.
  rewrite !list_lookup_fmap, Hso_at, Hnext in Hd2 by lia.
  injection Hd1 as Hd1. injection Hd2 as Hd2.
  rewrite <- Hd1 in Hso1. rewrite <- Hd2 in Hso2, Hsr.
  (* the action and the flag *)
  apply (getitem_take _ L) in Hd; [|lia]. rewrite Htd, list_lookup_fmap, Htr in Hd.
  apply (getitem_take _ L) in Ha; [|lia]. rewrite Hta, list_lookup_fmap, Htr in Ha.
  injection Hd as Hd. injection Ha as Ha. rewrite <- Hd in Hsdn. rewrite <- Ha in Hsan.
  cbn zeta. fold relabel. split_and!; try done.
  rewrite Hsr. do 3 f_equal. unfold relabel. by destruct (rv_her v).
Qed.
End LazySlotToRow.

Lemma lazy_row_is_stored_transition_witness :
  Lazy.holds (self Examples.lazy_after_walk_2) 0 (Examples.walk 0 2) ∧
  Examples.walk 0 2 ≠ [] ∧
  [0%Z] !! 0 = Some (Z.of_nat 0) ∧
  ∃ s w',
    Lazy._get_samples [0%Z] None
      {| np_random := np_random Examples.lazy_after_walk_2;
         self := self Examples.lazy_after_walk_2 |} = (Ok s, w') ∧
    s_actions s !! 0 = Some 1%Z ∧
    s_dones s !! 0 = Some true ∧
    s_observations s !! 0 = Some (1, 11, 12)%Z ∧
    s_next_observations s !! 0 = Some (2, 12, 12)%Z.
Proof.
  assert (Hholds : Lazy.holds (self Examples.lazy_after_walk_2) 0 (Examples.walk 0 2)).
  { unfold Lazy.holds. split; [reflexivity|].
    split_and!; eexists; (split; [reflexivity|reflexivity]). }
  split; [exact Hholds|]. split; [discriminate|]. split; [reflexivity|].
  destruct (Lazy._get_samples [0%Z] None
              {| np_random := np_random Examples.lazy_after_walk_2;
                 self := self Examples.lazy_after_walk_2 |})
    as [[s|e] w'] eqn:Hs; [|vm_compute in Hs; discriminate].
  exists s, w'. split; [reflexivity|].
  destruct (lazy_row_is_stored_transition [0%Z] None _ _ s w' 0 0 (Examples.walk 0 2)
              Hholds ltac:(discriminate) eq_refl Hs)
    as (maxs & plan & t & selected & ft & Hm & Hplan & Ht & Hsel & Hft & _ & Hrow).
  vm_compute in Hm. injection Hm as <-.
  vm_compute in Hplan. injection Hplan as <- _.
  cbn in Ht, Hsel, Hft. injection Ht as <-. injection Hsel as <-. injection Hft as <-.
  destruct (Hrow ltac:(simpl; lia))
    as (_ & tr & o_next & src & Htr & Hnext & Hsrc & Hobs & Hnobs & Hact & Hdone & _).
  cbn in Htr, Hnext, Hsrc. injection Htr as <-. injection Hnext as <-.
  injection Hsrc as <-.
  split; [exact Hact|]. split; [exact Hdone|]. split; [exact Hobs|exact Hnobs].
Defined.

(** X9. An unfinished episode cannot be sampled.  In both modes, a call
    of [add] with [done = False] changes nothing [sample] reads: the batch
    (or the exception) and the generator after [sample] are the same as
    without the call. *)
Theorem sample_ignores_unfinished_episode `{E : GoalEnv} :
  (∀ n env (w : World Eager.Buffer) o o' a r,
     (Eager.sample n env (Eager.add o o' a r false w).2).1 = (Eager.sample n env w).1 ∧
     np_random (Eager.sample n env (Eager.add o o' a r false w).2).2
     = np_random (Eager.sample n env w).2) ∧
  (∀ n env (w : World Lazy.Buffer) o o' a r,
     (Lazy.sample n env (Lazy.add o o' a r false w).2).1 = (Lazy.sample n env w).1 ∧
     np_random (Lazy.sample n env (Lazy.add o o' a r false w).2).2
     = np_random (Lazy.sample n env w).2).
Proof.
  split.
  - intros n env [g b] o o' a r. rewrite add_not_done. cbn [snd].
    by rewrite (eager_sample_reads n env g b).
  - intros n env [g b] o o' a r.
    change ((Lazy.add o o' a r false {| np_random := g; self := b |}).2)
      with {| np_random := g;
              self := Lazy.set_episode_transitions
                        (Lazy.episode_transitions b ++ [Build_Transition _ o o' a r false])
                        b |}.
    by rewrite (lazy_sample_reads n env g b).
Qed.

(** X10. Lazy mode never reads the stored rewards.  Whatever the array
    [rewards] holds, [sample] returns the same batch (or raises the same
    exception) and leaves the same generator: the rewards of a batch are
    always recomputed from the goals. *)
Theorem lazy_sample_never_reads_rewards `{E : GoalEnv} n env g (b : Lazy.Buffer)
    (rs : list (list Reward)) :
  (Lazy.sample n env {| np_random := g; self := Lazy.set_rewards rs b |}).1
  = (Lazy.sample n env {| np_random := g; self := b |}).1 ∧
  np_random (Lazy.sample n env {| np_random := g; self := Lazy.set_rewards rs b |}).2
  = np_random (Lazy.sample n env {| np_random := g; self := b |}).2.
Proof. by rewrite (lazy_sample_reads n env g b). Qed.

(** X11. The edges of [_sample_achieved_goal].  Under [future], asked
    for a goal at the last transition of the episode or beyond, it raises
    [ValueError] (there is nothing to choose from), which is why
    [_store_episode] stops before it gets there; for an empty episode it
    raises [IndexError] under [final] and [ValueError] under [episode];
    under [random] it always raises the not-implemented error.  In each
    case nothing is drawn and the buffer is unchanged. *)
Theorem sample_achieved_goal_edge_cases `{E : GoalEnv} (ts : list Transition)
    (i : nat) (w : World Eager.Buffer) :
  (Eager.goal_selection_strategy (self w) = FUTURE → length ts ≤ i + 1 →
   Eager._sample_achieved_goal ts i w = (Raise ValueError, w)) ∧
  (Eager.goal_selection_strategy (self w) = FINAL → ts = [] →
   Eager._sample_achieved_goal ts i w = (Raise IndexError, w)) ∧
  (Eager.goal_selection_strategy (self w) = EPISODE → ts = [] →
   Eager._sample_achieved_goal ts i w = (Raise ValueError, w)) ∧
  (Eager.goal_selection_strategy (self w) = RANDOM →
   Eager._sample_achieved_goal ts i w = (Raise NotImplementedError, w)).
Proof.
  destruct w as [g b]. unfold Eager._sample_achieved_goal.
  rewrite !get_self_bind. cbn [self].
  split_and!; intros Hs; rewrite Hs.
  - intros Hlen. rewrite arange_empty by lia. done.
  - by intros ->.
  - by intros ->.
  - done.
Qed.

Lemma sample_achieved_goal_edge_cases_witness :
  Eager.goal_selection_strategy
    (self (Examples.eager_world 10 3 key_future 2 Examples.counting)) = FUTURE ∧
  length (Examples.walk 0 3) ≤ 2 + 1 ∧
  Eager._sample_achieved_goal (Examples.walk 0 3) 2
    (Examples.eager_world 10 3 key_future 2 Examples.counting)
  = (Raise ValueError, Examples.eager_world 10 3 key_future 2 Examples.counting).
Proof.
  split; [reflexivity|]. split; [simpl; lia|].
  apply (proj1 (sample_achieved_goal_edge_cases (Examples.walk 0 3) 2
                  (Examples.eager_world 10 3 key_future 2 Examples.counting)));
    [reflexivity|simpl; lia].
Defined.

(** X12. The random draws of an eager flush.  A flush that raises
    nothing takes from the generator exactly one draw per relabelled
    transition under [future] and [episode], [(L - 1) * n_sampled_goal]
    and [L * n_sampled_goal] draws for an episode of [L] transitions, and
    none under [final] (and under [random], which only passes with
    [n_sampled_goal = 0]). *)
Theorem eager_flush_draws `{E : GoalEnv} (g : Rng) (b : Eager.Buffer) :
  Eager.wf b →
  (Eager.goal_selection_strategy b = RANDOM → Eager.n_sampled_goal b = 0) →
  ∃ b',
    Eager._store_episode {| np_random := g; self := b |}
    = (Ok tt,
       {| np_random :=
            {| tape := tape g;
               cursor :=
                 cursor g
                 + match Eager.goal_selection_strategy b with
                   | FUTURE =>
                       (length (Eager.episode_transitions b) - 1) * Eager.n_sampled_goal b
                   | EPISODE =>
                       length (Eager.episode_transitions b) * Eager.n_sampled_goal b
                   | FINAL | RANDOM => 0
                   end |};
          self := b' |}).
Proof.
  intros Hwf Hdg.
  destruct (store_episode_draws g b Hwf Hdg) as (rels & Hst & Hlen & Hall).
  eexists. rewrite Hst. unfold Episodes.advance. do 3 f_equal.
  assert (Hconst : Eager.goal_selection_strategy b ≠ FUTURE →
            sum_list_with length rels
            = length (Eager.episode_transitions b) * Eager.n_sampled_goal b).
  { intros Hnf. rewrite <- Hlen. apply sum_lengths_const.
    apply Forall_lookup_2. intros i rel Hrel.
    pose proof (lookup_lt_Some _ _ _ Hrel) as Hlt.
    destruct (lookup_lt_is_Some_2 (Eager.episode_transitions b) i ltac:(lia)) as [t Ht].
    specialize (Hall i t rel Ht Hrel). unfold Eager.artificial_of in Hall.
    rewrite (bool_decide_eq_false_2 _ Hnf), andb_false_r in Hall. by destruct Hall. }
  destruct (Eager.goal_selection_strategy b) eqn:Hs; cbn [Episodes.draws_per_goal].
  - rewrite Nat.mul_1_r, <- Hlen. f_equal. apply sum_lengths_future.
    intros i rel Hrel.
    pose proof (lookup_lt_Some _ _ _ Hrel) as Hlt.
    destruct (lookup_lt_is_Some_2 (Eager.episode_transitions b) i ltac:(lia)) as [t Ht].
    specialize (Hall i t rel Ht Hrel). unfold Eager.artificial_of in Hall.
    rewrite (bool_decide_eq_true_2 (FUTURE = FUTURE) eq_refl), andb_true_r, <- Hlen in Hall.
    destruct (decide (i = length rels - 1)) as [Hi|Hi].
    + rewrite bool_decide_eq_true_2 in Hall by done. by subst rel.
    + rewrite bool_decide_eq_false_2 in Hall by done. by destruct Hall.
  - lia.
  - rewrite Nat.mul_1_r. f_equal. by apply Hconst.
  - lia.
Qed.

Lemma eager_flush_draws_witness :
  Eager.wf (Examples.eager_pending (Examples.walk 0 5) 100 5 key_future 4) ∧
  (Eager.goal_selection_strategy
     (Examples.eager_pending (Examples.walk 0 5) 100 5 key_future 4) = RANDOM →
   Eager.n_sampled_goal
     (Examples.eager_pending (Examples.walk 0 5) 100 5 key_future 4) = 0) ∧
  ∃ b',
    Eager._store_episode
      {| np_random := Examples.counting;
         self := Examples.eager_pending (Examples.walk 0 5) 100 5 key_future 4 |}
    = (Ok tt, {| np_random := {| tape := tape Examples.counting; cursor := 16 |};
                 self := b' |}).
Proof.
  assert (Hwf : Eager.wf (Examples.eager_pending (Examples.walk 0 5) 100 5 key_future 4))
    by (unfold Eager.wf; split_and!; try reflexivity; cbn; lia).
  split; [exact Hwf|]. split; [discriminate|].
  destruct (eager_flush_draws Examples.counting _ Hwf ltac:(discriminate)) as [b' Hst].
  exists b'. exact Hst.
Defined.

(** X13. An eager flush under [final] is deterministic.  It takes no
    draw from the generator and stores, after every transition of the
    episode, [n_sampled_goal] copies of it relabelled with one and the
    same goal, the achieved goal of the observation the last transition
    starts from: [L * (n_sampled_goal + 1)] transitions for an episode of
    [L]. *)
Theorem eager_final_flush `{E : GoalEnv} (g : Rng) (b : Eager.Buffer)
    (tl : Transition) :
  Eager.wf b →
  Eager.goal_selection_strategy b = FINAL →
  last (Eager.episode_transitions b) = Some tl →
  let goal := achieved_goal (convert_obs_to_dict (t_obs tl)) in
  let stored :=
    Eager.interleave (Eager.episode_transitions b)
      ((λ t, replicate (Eager.n_sampled_goal b) (Eager.relabelled t goal))
         <$> Eager.episode_transitions b) in
  Eager._store_episode {| np_random := g; self := b |}
  = (Ok tt, {| np_random := g; self := Eager.writes stored b |}) ∧
  length stored = length (Eager.episode_transitions b) * (Eager.n_sampled_goal b + 1).
Proof.
  intros Hwf Hs Hlast goal stored.
  destruct (store_episode_draws g b Hwf) as (rels & Hst & Hlen & Hall).
  { intros Hr. congruence. }
  rewrite Hs in Hst. cbn [Episodes.draws_per_goal] in Hst.
  rewrite Nat.mul_0_r, advance_0 in Hst.
  assert (rels = (λ t, replicate (Eager.n_sampled_goal b) (Eager.relabelled t goal))
                   <$> Eager.episode_transitions b) as Hrels.
  { apply list_eq. intros i. rewrite list_lookup_fmap.
    destruct (Eager.episode_transitions b !! i) as [t|] eqn:Ht.
    - pose proof (lookup_lt_Some _ _ _ Ht) as Hlt.
      destruct (lookup_lt_is_Some_2 rels i ltac:(lia)) as [rel Hrel].
      rewrite Hrel. cbn. f_equal. symmetry.
      specialize (Hall i t rel Ht Hrel). unfold Eager.artificial_of in Hall.
      rewrite Hs, andb_false_r in Hall. destruct Hall as [Hn Hall].
      apply replicate_as_Forall. split; [done|].
      eapply Forall_impl; [exact Hall|]. cbn.
      intros r (goal' & (j & tj & Hj & -> & ->) & ->).
      rewrite last_lookup in Hlast.
      replace (pred (length (Eager.episode_transitions b)))
        with (length (Eager.episode_transitions b) - 1) in Hlast by lia.
      rewrite Hlast in Hj. by injection Hj as <-.
    - apply lookup_ge_None in Ht. cbn. apply lookup_ge_None. lia. }
  subst stored. rewrite <- Hrels. split; [exact Hst|].
  rewrite interleave_length by done.
  rewrite (sum_lengths_const rels (Eager.n_sampled_goal b)); [lia|].
  rewrite Hrels at 1. apply Forall_fmap, Forall_true. intros t. cbn.
  by rewrite length_replicate.
Qed.

Lemma eager_final_flush_witness :
  Eager.wf (Examples.eager_pending (Examples.walk 0 3) 10 3 key_final 2) ∧
  Eager.goal_selection_strategy
    (Examples.eager_pending (Examples.walk 0 3) 10 3 key_final 2) = FINAL ∧
  last (Eager.episode_transitions
          (Examples.eager_pending (Examples.walk 0 3) 10 3 key_final 2))
  = Some (Examples.move 2 true) ∧
  Eager.pos (self (Eager._store_episode
                     {| np_random := Examples.counting;
                        self := Examples.eager_pending (Examples.walk 0 3)
                                  10 3 key_final 2 |}).2) = 9.
Proof.
  assert (Hwf : Eager.wf (Examples.eager_pending (Examples.walk 0 3) 10 3 key_final 2))
    by (unfold Eager.wf; split_and!; try reflexivity; cbn; lia).
  split; [exact Hwf|]. split; [reflexivity|]. split; [reflexivity|].
  destruct (eager_final_flush Examples.counting _ (Examples.move 2 true)
              Hwf eq_refl eq_refl) as [Hst _].
  rewrite Hst. reflexivity.
Defined.

(** * The failure of [add] under [random] *)

Lemma interleave_no_goals `{E : GoalEnv} (l : list Transition) : ∀ rels,
  length rels = length l → Forall (λ rel, rel = []) rels →
  Eager.interleave l rels = l.
Proof.
  induction l as [|t l IH]; intros [|rel rels] Hlen Hall; try done.
  inversion Hall as [|?? -> Hrest]; subst. injection Hlen as Hlen.
  rewrite interleave_cons. cbn. f_equal. by apply IH.
Qed.

(** C10 (amended). In eager mode with strategy [random], [add] with
    [done = True] on a well-formed buffer does one of two things.  With
    at least one goal to sample it stores the first raw transition of the
    completed episode at [pos], advances [pos], and then raises the
    not-implemented error; the accumulator still holds the whole episode.
    With [n_sampled_goal = 0] no goal is sampled and nothing fails: every
    raw transition of the episode is stored, in order, the generator is
    untouched and the accumulator is cleared. *)
Theorem eager_random_add_not_atomic `{E : GoalEnv} (g : Rng) (b : Eager.Buffer)
    (obs next_obs : Obs) (action : Action) (reward : Reward) :
  Eager.wf b →
  Eager.goal_selection_strategy b = RANDOM →
  let episode :=
    Eager.episode_transitions b ++ [Build_Transition _ obs next_obs action reward true] in
  (Eager.n_sampled_goal b ≠ 0 →
   ∃ first b',
     head episode = Some first ∧
     Eager.add obs next_obs action reward true {| np_random := g; self := b |}
     = (Raise NotImplementedError, {| np_random := g; self := b' |}) ∧
     Eager.slot b' (Eager.pos b) = Some first ∧
     Eager.pos b' = (Eager.pos b + 1) `mod` Eager.buffer_size b ∧
     Eager.episode_transitions b' = episode) ∧
  (Eager.n_sampled_goal b = 0 →
   Eager.add obs next_obs action reward true {| np_random := g; self := b |}
   = (Ok tt, {| np_random := g;
                self := Eager.set_episode_transitions []
                          (Eager.writes episode b) |})).
Proof.
  intros Hwf Hr episode. split.
  - intros Hn.
    destruct episode as [|first rest] eqn:Hep;
      [by destruct (Eager.episode_transitions b)|].
    set (b1 := Eager.set_episode_transitions (first :: rest) b).
    assert (Hwf1 : Eager.wf b1) by exact Hwf.
    exists first, (Eager.write first b1). split; [done|]. split_and!.
    + rewrite add_done. fold episode. rewrite Hep. fold b1.
      apply bind_raise. by apply (store_episode_random g b1 first rest).
    + by apply (slot_write_eq first b1).
    + by rewrite (write_pos first b1).
    + done.
  - intros Hn. rewrite add_done. fold episode.
    set (b1 := Eager.set_episode_transitions episode b).
    destruct (store_episode_draws g b1) as (rels & Hst & Hlen & Hall);
      [done|by intros _|].
    change (Eager.goal_selection_strategy b1) with (Eager.goal_selection_strategy b)
      in Hst, Hall.
    change (Eager.n_sampled_goal b1) with (Eager.n_sampled_goal b) in Hall.
    change (Eager.episode_transitions b1) with episode in Hst, Hlen, Hall.
    rewrite Hr in Hst, Hall. cbn [Episodes.draws_per_goal] in Hst.
    rewrite Nat.mul_0_r, advance_0 in Hst.
    rewrite interleave_no_goals in Hst; [|done|].
    + erewrite bind_ok by exact Hst. rewrite get_self_bind.
      unfold set_self. cbn [np_random]. do 2 f_equal.
      unfold b1. generalize episode at 2. intros x.
      generalize episode. intros ws. clear.
      revert b. induction ws as [|w ws IH]; intros b; [done|].
      cbn [Eager.writes foldl]. apply (IH (Eager.write w b)).
    + apply Forall_lookup_2. intros i rel Hrel.
      pose proof (lookup_lt_Some _ _ _ Hrel) as Hlt.
      destruct (lookup_lt_is_Some_2 episode i ltac:(lia)) as [t Ht].
      specialize (Hall i t rel Ht Hrel). unfold Eager.artificial_of in Hall.
      rewrite andb_false_r, Hn in Hall. destruct Hall as [Hl _].
      by apply nil_length_inv.
Qed.

Lemma eager_random_add_not_atomic_witness :
  Eager.wf (Eager.__init__ (E := Examples.line_env) 4 2 key_random 4) ∧
  Eager.goal_selection_strategy
    (Eager.__init__ (E := Examples.line_env) 4 2 key_random 4) = RANDOM ∧
  Eager.n_sampled_goal (Eager.__init__ (E := Examples.line_env) 4 2 key_random 4) ≠ 0 ∧
  ∃ b',
    Eager.add (Examples.at_step 0) (Examples.at_step 1) 0%Z (-1)%Z true
      (Examples.eager_world 4 2 key_random 4 Examples.counting)
    = (Raise NotImplementedError, {| np_random := Examples.counting; self := b' |}) ∧
    Eager.pos b' = 1 ∧
    Eager.episode_transitions b' = [Examples.move 0 true].
Proof.
  assert (Hwf : Eager.wf (Eager.__init__ (E := Examples.line_env) 4 2 key_random 4))
    by (unfold Eager.wf; split_and!; try reflexivity; cbn; lia).
  split; [exact Hwf|]. split; [reflexivity|]. split; [discriminate|].
  destruct (proj1 (eager_random_add_not_atomic (E := Examples.line_env)
                     Examples.counting _
                     (Examples.at_step 0) (Examples.at_step 1) 0%Z (-1)%Z
                     Hwf eq_refl) ltac:(discriminate))
    as (first & b' & _ & Hadd & _ & Hpos & Hacc).
  exists b'. split; [exact Hadd|]. split; [exact Hpos|exact Hacc].
Defined.

(** The other case, computed: two steps under [random] with no goal to
    sample are stored as they are. *)
Example eager_random_without_goals_stores :
  Examples.eager_walk 0 2 (Examples.eager_world 4 2 key_random 0 Examples.counting)
  = (Ok tt,
     {| np_random := Examples.counting;
        self := Eager.set_episode_transitions []
                  (Eager.writes (Examples.walk 0 2)
                     (Eager.__init__ 4 2 key_random 0)) |}).
Proof. reflexivity. Qed.
